(** * World engine: the spec interpreter of [engine.js]

    A shallow embedding of the deterministic core of [engine.js]: the seeded
    generator [xfnv1a], the value noise, the tile validator, the shape and
    predicate evaluators, the layer sampler and the operation executor of
    [Generate], followed by the properties of the specification that are
    settled against it.

    Modelling conventions.
    - A JavaScript number is a binary64 float ([PrimFloat.float]); quantities
      that the source keeps integral (loop counters, cell coordinates, the
      results of [safeInt], the 32-bit state of [xfnv1a]) are [Z].
    - A JavaScript string is a [string] whose characters are its code units
      (code units above 255 are outside the model).
    - A parsed document is a [json] value; property reads see own properties
      only (names inherited from a prototype are outside the model).
    - [throw] is the [Throw] outcome of [result]; nothing in the core catches.
    - [String(v)], [Number(v)] and the operators and template literals that
      coerce throw a TypeError on an object that has a property named
      [toString] (in a parsed document such a property is never callable), on
      its own or as an element of an array.  [Js.to_string] and
      [Js.to_number] are the results of the coercions where they succeed;
      [Js.plain] tells the values on which they do.
    - Three library functions whose results the language leaves to the host
      or that are long to write out ([Math.hypot], number to string, string to
      number) are the fields of the class [Host]. *)

From Stdlib Require Import ZArith Floats String Ascii DecimalString Bool Lia.
From stdpp Require Import base option list strings gmap.

Set Warnings "-inexact-float,-register-all".
Local Open Scope Z_scope.

(** ** JavaScript values *)

Inductive json : Type :=
| JUndef
| JNull
| JBool (b : bool)
| JNum (f : float)
| JStr (s : string)
| JArr (elems : list json) (named : list (string * json))
| JObj (props : list (string * json)).

(** An array literal of a parsed document: no named properties. *)
Abbreviation JList l := (JArr l []).

Inductive error : Type :=
| TypeError (what : string)
| AssertionError (msg : string)
| UnknownLayer (name : string)
| LayerCycle (name : string)
| UnsupportedLayerType (ty name : string)
| UnsupportedOp (ty : string) (opIndex : Z)
| OutOfFuel.

Inductive result (A : Type) : Type :=
| Ok (a : A)
| Throw (e : error).
Arguments Ok {A} a.
Arguments Throw {A} e.

#[export] Instance result_ret : MRet result := @Ok.
#[export] Instance result_bind : MBind result :=
  λ A B k r, match r with Ok a => k a | Throw e => Throw e end.

(** [assert(cond, msg)] *)
Definition assert (cond : bool) (msg : string) : result unit :=
  if cond then Ok tt else Throw (AssertionError msg).

Class Host := {
  (** [Number::toString] *)
  number_to_string : float → string;
  (** [StringToNumber], the conversion behind [Number(s)] *)
  string_to_number : string → float;
  (** [Math.hypot] with two arguments *)
  math_hypot : float → float → float
}.

Module Num.

Definition prec : Z := 53.
Definition emax : Z := 1024.

(** The double nearest to an integer; exact below 2^53. *)
Definition of_Z (z : Z) : float := SF2Prim (binary_normalize prec emax z 0 false).

(** [Number.isFinite] on a number. *)
Definition is_finite (x : float) : bool :=
  match Prim2SF x with
  | S754_zero _ | S754_finite _ _ _ => true
  | _ => false
  end.

(** The integer [Math.floor(x)] of a finite [x] (0 otherwise). *)
Definition floorZ (x : float) : Z :=
  match Prim2SF x with
  | S754_finite s m e =>
      let sm := if s then Z.neg m else Z.pos m in
      if 0 <=? e then sm * 2 ^ e else sm / 2 ^ (- e)
  | _ => 0
  end.

(** [Math.floor] *)
Definition floor (x : float) : float :=
  match Prim2SF x with
  | S754_finite s m e => if 0 <=? e then x else of_Z (floorZ x)
  | _ => x
  end.

(** The integer part of a finite [x] (0 otherwise), as in ToInt32. *)
Definition truncZ (x : float) : Z :=
  match Prim2SF x with
  | S754_finite s m e =>
      let a := if 0 <=? e then Z.pos m * 2 ^ e else Z.pos m / 2 ^ (- e) in
      if s then - a else a
  | _ => 0
  end.

Definition is_nan (x : float) : bool := negb (x =? x)%float.

Definition is_neg_zero (x : float) : bool :=
  match classify x with NZero => true | _ => false end.

(** [Math.min] and [Math.max] of two numbers. *)
Definition min (a b : float) : float :=
  if is_nan a || is_nan b then nan
  else if (a <? b)%float then a
  else if (b <? a)%float then b
  else if is_neg_zero a then a else b.

Definition max (a b : float) : float :=
  if is_nan a || is_nan b then nan
  else if (a <? b)%float then b
  else if (b <? a)%float then a
  else if is_neg_zero a then b else a.

(** A number used as a condition: false for 0, -0 and NaN. *)
Definition truthy (x : float) : bool := negb ((x =? 0)%float || is_nan x).

(** [x || d] on numbers. *)
Definition or_else (x d : float) : float := if truthy x then x else d.

(** ToInt32 and ToUint32 on integers, and the 32-bit operators. *)
Definition toInt32 (z : Z) : Z := (z + 2 ^ 31) mod 2 ^ 32 - 2 ^ 31.
Definition toUint32 (z : Z) : Z := z mod 2 ^ 32.
Definition shl (z k : Z) : Z := toInt32 (toInt32 z * 2 ^ k).
Definition ushr (z k : Z) : Z := toUint32 z / 2 ^ k.
Definition xor (a b : Z) : Z := toInt32 (Z.lxor (toInt32 a) (toInt32 b)).
Definition imul (a b : Z) : Z := toInt32 (toInt32 a * toInt32 b).

(** Decimal digits of an integer, as [String(n)] gives for an integral
    number below 10^21. *)
Definition string_of_Z (z : Z) : string := NilZero.string_of_int (Z.to_int z).

End Num.

(** [clamp01] *)
Definition clamp01 (x : float) : float :=
  if (x <? 0)%float then 0%float else if (1 <? x)%float then 1%float else x.

(** ** Coercions and property access *)

Module Js.
Section WithHost.
Context `{Host}.

Definition truthy (v : json) : bool :=
match v with
| JUndef | JNull => false
| JBool b => b
| JNum f => Num.truthy f
| JStr s => negb (String.eqb s "")
| JArr _ _ | JObj _ => true
end.

(** [v == null] *)
Definition nullish (v : json) : bool :=
match v with JUndef | JNull => true | _ => false end.

(** [typeof v === 'object'] *)
Definition typeof_object (v : json) : bool :=
match v with JNull | JArr _ _ | JObj _ => true | _ => false end.

(** [v && typeof v === 'object'] *)
Definition is_object (v : json) : bool :=
match v with JArr _ _ | JObj _ => true | _ => false end.

Definition is_array (v : json) : bool :=
match v with JArr _ _ => true | _ => false end.

Definition is_string (v : json) : bool :=
match v with JStr _ => true | _ => false end.

Definition is_boolean (v : json) : bool :=
match v with JBool _ => true | _ => false end.

Definition is_undefined (v : json) : bool :=
match v with JUndef => true | _ => false end.

(** [v === 'lit'] *)
Definition str_is (v : json) (lit : string) : bool :=
match v with JStr s => String.eqb s lit | _ => false end.

(** [a || b] and [a ?? b] *)
Definition or_else (a b : json) : json := if truthy a then a else b.
Definition coalesce (a b : json) : json := if nullish a then b else a.

(** [String(v)] *)
Fixpoint to_string (v : json) : string :=
match v with
| JUndef => "undefined"
| JNull => "null"
| JBool true => "true"
| JBool false => "false"
| JNum f => number_to_string f
| JStr s => s
| JArr l _ =>
    String.concat ","
      (map (fun e => match e with JUndef | JNull => "" | _ => to_string e end) l)
| JObj _ => "[object Object]"
end.

(** [Number(v)] *)
Definition to_number (v : json) : float :=
match v with
| JUndef => nan
| JNull => 0%float
| JBool true => 1%float
| JBool false => 0%float
| JNum f => f
| JStr s => string_to_number s
| JArr _ _ => string_to_number (to_string v)
| JObj _ => nan
end.

(** A value as [JSON.parse] gives it (an array has no properties but its
  elements) none of whose objects has a property named [toString].  On
  such a value [String(v)], [Number(v)], the arithmetic and relational
  operators and the template literals of the source do not throw, and
  their results are those of [to_string] and [to_number]. *)
Fixpoint plain (v : json) : bool :=
let fix plain_list (l : list json) {struct l} : bool :=
  match l with
  | [] => true
  | x :: r => plain x && plain_list r
  end in
let fix plain_props (l : list (string * json)) {struct l} : bool :=
  match l with
  | [] => true
  | (k, x) :: r => negb (String.eqb k "toString") && plain x && plain_props r
  end in
match v with
| JArr e [] => plain_list e
| JArr _ (_ :: _) => false
| JObj p => plain_props p
| _ => true
end.

(** [Number(v) || d] *)
Definition number_or (v : json) (d : float) : float := Num.or_else (to_number v) d.

(** [Number.isFinite(v)]: no coercion, true for finite numbers only. *)
Definition isFinite (v : json) : bool :=
match v with JNum f => Num.is_finite f | _ => false end.

(** [a + b] *)
Definition stringy (v : json) : bool :=
match v with JStr _ | JArr _ _ | JObj _ => true | _ => false end.

Definition add (a b : json) : json :=
if stringy a || stringy b then JStr (to_string a ++ to_string b)
else JNum (to_number a + to_number b)%float.

(** Own properties. *)
Fixpoint assoc (k : string) (l : list (string * json)) : json :=
match l with
| [] => JUndef
| (k', v) :: r => if String.eqb k k' then v else assoc k r
end.

Fixpoint assoc_set (k : string) (v : json) (l : list (string * json)) :
  list (string * json) :=
match l with
| [] => [(k, v)]
| (k', v') :: r =>
    if String.eqb k k' then (k, v) :: r else (k', v') :: assoc_set k v r
end.

(** [v.k] for a [v] that is not null or undefined. *)
Definition get (v : json) (k : string) : json :=
match v with
| JObj p => assoc k p
| JArr _ p => assoc k p
| _ => JUndef
end.

(** [v?.k] *)
Definition get_opt (v : json) (k : string) : json :=
if nullish v then JUndef else get v k.

(** [o.k = v] on an object or an array. *)
Definition set (o : json) (k : string) (v : json) : json :=
match o with
| JObj p => JObj (assoc_set k v p)
| JArr e p => JArr e (assoc_set k v p)
| _ => o
end.

(** [v[i]] for a [v] that is not null or undefined. *)
Definition index (v : json) (i : nat) : json :=
match v with
| JArr e _ => nth i e JUndef
| JStr s => match String.get i s with Some c => JStr (String c "") | None => JUndef end
| JObj p => assoc (Num.string_of_Z (Z.of_nat i)) p
| _ => JUndef
end.

(** [v[i]] where [v] may be null or undefined. *)
Definition index_checked (v : json) (i : nat) : result json :=
if nullish v then Throw (TypeError "Cannot read properties of null or undefined")
else Ok (index v i).

(** The elements that [const [a, b] = v] iterates over. *)
Definition iterate (v : json) : result (list json) :=
match v with
| JArr e _ => Ok e
| JStr s => Ok (map (fun c => JStr (String c "")) (list_ascii_of_string s))
| _ => Throw (TypeError "value is not iterable")
end.

(** The elements of an array, [[]] for anything else. *)
Definition elements (v : json) : list json :=
match v with JArr e _ => e | _ => [] end.

(** The own enumerable properties, as [Object.keys] lists them. *)
Definition own_props (v : json) : list (string * json) :=
match v with
| JObj p => p
| JArr e p => imap (fun i x => (Num.string_of_Z (Z.of_nat i), x)) e ++ p
| _ => []
end.

(** [v[k]] for a computed key [k] on an object or an array. *)
Definition lookup (v : json) (k : string) : json :=
match v with
| JArr e _ =>
    if String.eqb k "length" then JNum (Num.of_Z (Z.of_nat (length e)))
    else assoc k (own_props v)
| _ => assoc k (own_props v)
end.

End WithHost.
End Js.

(** ** Deterministic generator and noise *)

Definition char_code (c : ascii) : Z := Z.of_N (N_of_ascii c).

(** The hash loop of [xfnv1a]: the value of [h] when the closure is made. *)
Definition xfnv1a (str : string) : Z :=
  fold_left (fun h c => Num.imul (Num.xor h (char_code c)) 16777619)
            (list_ascii_of_string str) 2166136261.

(** One call of the closure [xfnv1a] returns: the number drawn and the new [h]. *)
Definition xfnv1a_next (h : Z) : float * Z :=
  let h := h + Num.shl h 13 in
  let h := Num.xor h (Num.ushr h 7) in
  let h := h + Num.shl h 3 in
  let h := Num.xor h (Num.ushr h 17) in
  let h := h + Num.shl h 5 in
  ((Num.of_Z (Num.toUint32 h) / 4294967296)%float, h).

(** [xfnv1a(str)()] *)
Definition xfnv1a_first (str : string) : float := fst (xfnv1a_next (xfnv1a str)).

Module Noise.

(** A read of the [Uint16Array]. *)
Definition perm_get (perm : list Z) (i : Z) : Z :=
  if i <? 0 then 0 else default 0 (perm !! Z.to_nat i).

Definition perm_set (perm : list Z) (i : Z) (v : Z) : list Z :=
  if i <? 0 then perm else <[Z.to_nat i := v]> perm.

(** The shuffle loop [for (i = 255; i > 0; i--)], with [i] the counter. *)
Fixpoint shuffle (i : nat) (perm : list Z) (h : Z) : list Z * Z :=
  match i with
  | O => (perm, h)
  | S i' =>
      let '(r, h) := xfnv1a_next h in
      let j := Num.floorZ (r * Num.of_Z (Z.of_nat i + 1))%float in
      let t := perm_get perm (Z.of_nat i) in
      let perm := perm_set perm (Z.of_nat i) (perm_get perm j) in
      let perm := perm_set perm j t in
      shuffle i' perm h
  end.

(** The permutation table built by [makeValueNoise2D(rand)]. *)
Definition makeValueNoise2D (h : Z) : list Z :=
  let perm := map Z.of_nat (seq 0 256) ++ replicate 256 0 in
  let perm := fst (shuffle 255 perm h) in
  fold_left (fun p i => perm_set p (Z.of_nat i + 256) (perm_get p (Z.of_nat i)))
            (seq 0 256) perm.

Definition fade (t : float) : float := (t * t * t * (t * (t * 6 - 15) + 10))%float.
Definition lerp (a b t : float) : float := (a + (b - a) * t)%float.

(** [n & 255] *)
Definition and255 (n : float) : Z := Num.truncZ n mod 256.

Definition grad (perm : list Z) (ix iy : float) : float :=
  let v := perm_get perm (and255 (ix + Num.of_Z (perm_get perm (and255 iy)))%float) in
  (Num.of_Z v / 255 * 2 - 1)%float.

Definition noise2D (perm : list Z) (x y : float) : float :=
  let x0 := Num.floor x in
  let y0 := Num.floor y in
  let x1 := (x0 + 1)%float in
  let y1 := (y0 + 1)%float in
  let sx := fade (x - x0)%float in
  let sy := fade (y - y0)%float in
  let n00 := grad perm x0 y0 in
  let n10 := grad perm x1 y0 in
  let n01 := grad perm x0 y1 in
  let n11 := grad perm x1 y1 in
  let ix0 := lerp n00 n10 sx in
  let ix1 := lerp n01 n11 sx in
  let val := lerp ix0 ix1 sy in
  ((val + 1) / 2)%float.

(** The loop of [octaveNoise], [n] iterations left. *)
Fixpoint octaveLoop (noiseFn : float → float → float) (x y persistence : float)
    (n : nat) (amp freq sum norm : float) : float * float :=
  match n with
  | O => (sum, norm)
  | S n' =>
      let sum := (sum + noiseFn (x * freq) (y * freq) * amp)%float in
      let norm := (norm + amp)%float in
      octaveLoop noiseFn x y persistence n' (amp * persistence)%float (freq * 2)%float sum norm
  end.

Definition octaveNoise (noiseFn : float → float → float) (x y : float)
    (octaves : Z) (persistence : float) : float :=
  let '(sum, norm) := octaveLoop noiseFn x y persistence (Z.to_nat octaves) 1 1 0 0 in
  (sum / Num.or_else norm 1)%float.

End Noise.

(** ** Validation helpers *)

Definition in_range (lo hi : Z) (c : ascii) : bool :=
  (lo <=? char_code c) && (char_code c <=? hi).

(** [/^[a-z0-9][a-z0-9_-]{0,15}$/] *)
Definition id_head (c : ascii) : bool := in_range 97 122 c || in_range 48 57 c.
Definition id_tail (c : ascii) : bool :=
  id_head c || Ascii.eqb c "_" || Ascii.eqb c "-".
Definition ID_RE (s : string) : bool :=
  match s with
  | EmptyString => false
  | String c r =>
      id_head c && forallb id_tail (list_ascii_of_string r)
      && (Z.of_nat (String.length r) <=? 15)
  end.

(** [/^#[0-9a-fA-F]{6}$/] *)
Definition hex_digit (c : ascii) : bool :=
  in_range 48 57 c || in_range 97 102 c || in_range 65 70 c.
Definition HEX_RE (s : string) : bool :=
  match s with
  | String "#" r =>
      forallb hex_digit (list_ascii_of_string r) && (Z.of_nat (String.length r) =? 6)
  | _ => false
  end.

(** [uniqIds(list, kind)], with [s] the set built so far. *)
Fixpoint uniqIds_from (s : gset string) (list : list json) (kind : string) :
    result (gset string) :=
  match list with
  | [] => Ok s
  | t :: rest =>
      assert (Js.is_object t) (kind ++ " tile must be an object");;
      match Js.get t "id" with
      | JStr id =>
          assert (ID_RE id) (kind ++ " tile.id invalid");;
          assert (negb (bool_decide (id ∈ s))) (kind ++ " tile.id must be unique");;
          uniqIds_from ({[id]} ∪ s) rest kind
      | _ => Throw (AssertionError (kind ++ " tile.id invalid"))
      end
  end.

Definition uniqIds (list : list json) (kind : string) : result (gset string) :=
  uniqIds_from ∅ list kind.

(** The reads [t.name], [t.color], ... of the two loops of [validateTiles]
    fail on a [t] that is null. *)
Definition tile_field (t : json) (k : string) : result json :=
  if Js.nullish t then Throw (TypeError "Cannot read properties of null")
  else Ok (Js.get t k).

Definition is_hex_color (v : json) : bool :=
  match v with JStr s => HEX_RE s | _ => false end.

Definition checkBackgroundTile (t : json) : result unit :=
  name ← tile_field t "name";
  assert (Js.is_string name) "bg.name must be string";;
  assert (is_hex_color (Js.get t "color")) "bg.color must be hex #RRGGBB";;
  assert (Js.is_boolean (Js.get t "walkable")) "bg.walkable must be boolean".

Definition is_short_string (v : json) : bool :=
  match v with
  | JStr s => (1 <=? Z.of_nat (String.length s)) && (Z.of_nat (String.length s) <=? 4)
  | _ => false
  end.

Definition checkForegroundTile (t : json) : result unit :=
  name ← tile_field t "name";
  assert (Js.is_string name) "fg.name must be string";;
  assert (is_short_string (Js.get t "symbol")) "fg.symbol must be short string";;
  assert (is_hex_color (Js.get t "color")) "fg.color must be hex #RRGGBB";;
  assert (Js.is_boolean (Js.get t "walkable")) "fg.walkable must be boolean".

(** [for (const t of list) check(t)] *)
Fixpoint forEach {A} (check : A → result unit) (list : list A) : result unit :=
  match list with
  | [] => Ok tt
  | t :: rest => check t;; forEach check rest
  end.

(** [validateTiles(tiles)]: the sets [bgIds] and [fgIds]. *)
Definition validateTiles (tiles : json) : result (gset string * gset string) :=
  assert (Js.is_object tiles) "tiles missing/invalid";;
  let background := Js.get tiles "background" in
  let foreground := Js.get tiles "foreground" in
  assert (Js.is_array background && (1 <=? Z.of_nat (length (Js.elements background))))
         "tiles.background must be a non-empty array";;
  assert (Js.is_array foreground) "tiles.foreground must be an array";;
  forEach checkBackgroundTile (Js.elements background);;
  forEach checkForegroundTile (Js.elements foreground);;
  bgIds ← uniqIds (Js.elements background) "background";
  fgIds ← uniqIds (Js.elements foreground) "foreground";
  Ok (bgIds, fgIds).

(** [safeInt(n, def, min, max)] *)
Definition safeInt (n : json) (def min max : Z) : Z :=
  let x := match n with
           | JNum f => if Num.is_finite f then Num.floorZ f else def
           | _ => def
           end in
  Z.max min (Z.min max x).

(** [safeNum(n, def, min, max)] *)
Definition safeNum (n : json) (def min max : float) : float :=
  let x := match n with
           | JNum f => if Num.is_finite f then f else def
           | _ => def
           end in
  Num.max min (Num.min max x).

(** ** Shapes *)

Section Shapes.
Context `{Host}.

(** The loop of [pointInPoly]: [prev] is [poly[j]], [pts] the points from
    [poly[i]] on. *)
Fixpoint pointInPoly_from (pts : list json) (prev : json) (x y : float)
    (inside : bool) : result bool :=
  match pts with
  | [] => Ok inside
  | p :: rest =>
      xi ← Js.index_checked p 0;
      yi ← Js.index_checked p 1;
      xj ← Js.index_checked prev 0;
      yj ← Js.index_checked prev 1;
      let nxi := Js.to_number xi in
      let nyi := Js.to_number yi in
      let nxj := Js.to_number xj in
      let nyj := Js.to_number yj in
      let slope := ((nxj - nxi) * (y - nyi) / Num.or_else (nyj - nyi) 1e-9)%float in
      let intersect :=
        xorb (y <? nyi)%float (y <? nyj)%float
        && (x <? Js.to_number (Js.add (JNum slope) xi))%float in
      pointInPoly_from rest p x y (if intersect then negb inside else inside)
  end.

Definition pointInPoly (poly : list json) (x y : float) : result bool :=
  pointInPoly_from poly (nth (length poly - 1)%nat poly JUndef) x y false.

Definition distPointToSegment (px py : float) (ax ay bx by_ : json) : float :=
  let abx := (Js.to_number bx - Js.to_number ax)%float in
  let aby := (Js.to_number by_ - Js.to_number ay)%float in
  let apx := (px - Js.to_number ax)%float in
  let apy := (py - Js.to_number ay)%float in
  let ab2 := (abx * abx + aby * aby)%float in
  let t := if Num.truthy ab2
           then Num.max 0 (Num.min 1 ((apx * abx + apy * aby) / ab2)%float)
           else 0%float in
  let cx := Js.add ax (JNum (t * abx)%float) in
  let cy := Js.add ay (JNum (t * aby)%float) in
  math_hypot (px - Js.to_number cx)%float (py - Js.to_number cy)%float.

Definition shapeContains (shape : json) (x y : Z) : result bool :=
  if negb (Js.is_object shape) then Ok false else
  let k := Js.get shape "kind" in
  let fx := Num.of_Z x in
  let fy := Num.of_Z y in
  if Js.str_is k "rect" || Js.str_is k "roundRect" then
    let rx := safeInt (Js.get shape "x") 0 (-1000000000) 1000000000 in
    let ry := safeInt (Js.get shape "y") 0 (-1000000000) 1000000000 in
    let rw := safeInt (Js.get shape "w") 0 0 1000000000 in
    let rh := safeInt (Js.get shape "h") 0 0 1000000000 in
    if (rw <=? 0) || (rh <=? 0) then Ok false else
    let inBox := (rx <=? x) && (x <? rx + rw) && (ry <=? y) && (y <? ry + rh) in
    let round := safeNum (Js.coalesce (Js.get shape "round") (JNum 0)) 0 0 1e6 in
    if (round <=? 0)%float || Js.str_is k "rect" then Ok inBox else
    if negb inBox then Ok false else
    let r := Num.min (Num.min round (Num.of_Z rw / 2)%float) (Num.of_Z rh / 2)%float in
    let left := (Num.of_Z rx + r)%float in
    let right := (Num.of_Z (rx + rw) - r)%float in
    let top := (Num.of_Z ry + r)%float in
    let bottom := (Num.of_Z (ry + rh) - r)%float in
    if (left <=? fx)%float && (fx <? right)%float then Ok true else
    if (top <=? fy)%float && (fy <? bottom)%float then Ok true else
    let cx := if (fx <? left)%float then left else right in
    let cy := if (fy <? top)%float then top else bottom in
    Ok (math_hypot (fx - cx) (fy - cy) <=? r)%float
  else if Js.str_is k "circle" then
    let cx := safeNum (Js.get shape "cx") 0 (-1e9) 1e9 in
    let cy := safeNum (Js.get shape "cy") 0 (-1e9) 1e9 in
    let r := safeNum (Js.get shape "r") 0 0 1e9 in
    Ok (math_hypot (fx - cx) (fy - cy) <=? r)%float
  else if Js.str_is k "polygon" then
    let pts := Js.elements (Js.get shape "points") in
    if (Z.of_nat (length pts) <? 3) then Ok false else pointInPoly pts fx fy
  else if Js.str_is k "line" then
    let a := Js.get shape "a" in
    let b := Js.get shape "b" in
    if negb (Js.is_array a) || negb (Js.is_array b) then Ok false else
    let thickness := safeNum (Js.coalesce (Js.get shape "thickness") (JNum 1)) 1 0.1 1e6 in
    let d := distPointToSegment fx fy (Js.index a 0) (Js.index a 1)
               (Js.index b 0) (Js.index b 1) in
    Ok (d <=? thickness / 2)%float
  else Ok false.

End Shapes.

(** ** Layer evaluator *)

(** [combine(op, a, b, t)] *)
Definition combine `{Host} (op : string) (a b : float) (t : json) : float :=
  if String.eqb op "add" then clamp01 (a + b)
  else if String.eqb op "sub" then clamp01 (a - b)
  else if String.eqb op "mul" then clamp01 (a * b)
  else if String.eqb op "min" then Num.min a b
  else if String.eqb op "max" then Num.max a b
  else if String.eqb op "lerp" then
    let tt := clamp01 (Js.number_or t 0.5) in
    (a + (b - a) * tt)%float
  else if String.eqb op "threshold" then
    if (Js.number_or t 0.5 <=? a)%float then 1%float else 0%float
  else if String.eqb op "smoothstep" then
    let e0 := if Js.is_array t then Js.to_number (Js.index t 0) else 0.4%float in
    let e1 := if Js.is_array t then Js.to_number (Js.index t 1) else 0.6%float in
    let x := clamp01 ((a - e0) / Num.or_else (e1 - e0) 1e-9)%float in
    (x * x * (3 - 2 * x))%float
  else a.

(** Keys of a [Map]: SameValueZero on primitives; two objects are taken to be
    the same key when they have the same contents. *)
Fixpoint same_value (a b : json) {struct a} : bool :=
  let fix same_list (l1 l2 : list json) {struct l1} : bool :=
    match l1, l2 with
    | [], [] => true
    | x :: r1, y :: r2 => same_value x y && same_list r1 r2
    | _, _ => false
    end in
  let fix same_props (l1 l2 : list (string * json)) {struct l1} : bool :=
    match l1, l2 with
    | [], [] => true
    | (k1, x) :: r1, (k2, y) :: r2 => String.eqb k1 k2 && same_value x y && same_props r1 r2
    | _, _ => false
    end in
  match a, b with
  | JUndef, JUndef | JNull, JNull => true
  | JBool x, JBool y => Bool.eqb x y
  | JNum x, JNum y => (x =? y)%float || (Num.is_nan x && Num.is_nan y)
  | JStr x, JStr y => String.eqb x y
  | JArr e1 p1, JArr e2 p2 => same_list e1 e2 && same_props p1 p2
  | JObj p1, JObj p2 => same_props p1 p2
  | _, _ => false
  end.

(** [Map.get] *)
Fixpoint map_get {V} (m : list (json * V)) (k : json) : option V :=
  match m with
  | [] => None
  | (k', v) :: r => if same_value k' k then Some v else map_get r k
  end.

(** The mutable variables of the closure made by [makeLayerSampler]. *)
Record sampler := Sampler {
  seedOffsets : list (json * (float * float));
  visiting : gset string;
  cacheConst : list (json * float)
}.

Definition new_sampler : sampler :=
  {| seedOffsets := []; visiting := ∅; cacheConst := [] |}.

(** Computations that read and write the sampler's variables and may throw. *)
Definition M (A : Type) : Type := sampler → result (A * sampler).

#[export] Instance M_ret : MRet M := λ A a s, Ok (a, s).
#[export] Instance M_bind : MBind M :=
  λ A B k m s, match m s with Ok (a, s') => k a s' | Throw e => Throw e end.

Definition ret {A} (a : A) : M A := mret a.
Definition throw {A} (e : error) : M A := λ _, Throw e.
Definition lift {A} (r : result A) : M A :=
  λ s, match r with Ok a => Ok (a, s) | Throw e => Throw e end.
Definition get_state : M sampler := λ s, Ok (s, s).
Definition modify (f : sampler → sampler) : M unit := λ s, Ok (tt, f s).

Section Sampler.
Context `{Host}.
(** The arguments of [makeLayerSampler]; [perm] is the table behind
    [baseNoise]. *)
Variables (seed : string) (width height : Z) (layers : json) (perm : list Z).

Definition baseNoise : float → float → float := Noise.noise2D perm.

(** [layerOffset(seedKey)] *)
Definition layerOffset (seedKey : json) : M (float * float) :=
  s ← get_state;
  match map_get (seedOffsets s) seedKey with
  | Some v => ret v
  | None =>
      let suffix := Js.to_string (Js.or_else seedKey (JStr "")) in
      let r := xfnv1a_first (seed ++ "|layer|" ++ suffix) in
      let ox := Num.floor (r * 20000)%float in
      let oy := Num.floor (xfnv1a_first (seed ++ "|layer2|" ++ suffix) * 20000)%float in
      modify (λ s, {| seedOffsets := (seedKey, (ox, oy)) :: seedOffsets s;
                      visiting := visiting s;
                      cacheConst := cacheConst s |});;
      ret (ox, oy)
  end.

(** [name + '@' + x + ',' + y] *)
Definition visit_key (name : json) (x y : Z) : string :=
  Js.to_string name ++ "@" ++ Num.string_of_Z x ++ "," ++ Num.string_of_Z y.

Definition visiting_add (key : string) : M unit :=
  modify (λ s, {| seedOffsets := seedOffsets s;
                  visiting := {[key]} ∪ visiting s;
                  cacheConst := cacheConst s |}).

Definition visiting_delete (key : string) : M unit :=
  modify (λ s, {| seedOffsets := seedOffsets s;
                  visiting := visiting s ∖ {[key]};
                  cacheConst := cacheConst s |}).

(** [layers?.[name]] *)
Definition layer_def (name : json) : json :=
  if Js.nullish layers then JUndef else Js.lookup layers (Js.to_string name).

(** An operand of [combine] that is not a reference:
    [clamp01(Number(def.a?.const) || 0)]. *)
Definition operand_const (operand : json) : float :=
  clamp01 (Js.number_or (Js.get_opt operand "const") 0).

(** The dispatch on [def.type] that computes [out]; [sample] stands for
    the nested call [sampleLayer(ref, x, y)]. *)
Definition layerOut (sample : json → M float) (def name : json) (x y : Z)
    (key : string) : M float :=
  let type := Js.get def "type" in
  if Js.str_is type "fbm" then
    let scale := safeNum (Js.get def "scale") 0.01 1e-6 1 in
    let octaves := safeInt (Js.get def "octaves") 3 1 8 in
    let persistence := safeNum (Js.get def "persistence") 0.5 0.05 0.95 in
    '(ox, oy) ← layerOffset (Js.or_else (Js.get def "seed") name);
    ret (Noise.octaveNoise baseNoise
           ((Num.of_Z x + ox) * scale)%float
           ((Num.of_Z y + oy) * scale)%float
           octaves persistence)
  else if Js.str_is type "valueNoise" then
    let scale := safeNum (Js.get def "scale") 0.01 1e-6 1 in
    '(ox, oy) ← layerOffset (Js.or_else (Js.get def "seed") name);
    ret (baseNoise ((Num.of_Z x + ox) * scale)%float
                   ((Num.of_Z y + oy) * scale)%float)
  else if Js.str_is type "radialGradient" then
    let cx := safeNum (Js.get def "cx") (Num.of_Z width / 2) (-1e9) 1e9 in
    let cy := safeNum (Js.get def "cy") (Num.of_Z height / 2) (-1e9) 1e9 in
    let r := safeNum (Js.get def "r") (Num.of_Z (Z.min width height) / 2) 1 1e9 in
    let invert := Js.truthy (Js.get def "invert") in
    let v := (1 - Num.min 1 (math_hypot (Num.of_Z x - cx) (Num.of_Z y - cy) / r))%float in
    ret (if invert then (1 - v)%float else v)
  else if Js.str_is type "shape" then
    inside ← lift (shapeContains (Js.get def "shape") x y);
    ret (if inside : bool then 1%float else 0%float)
  else if Js.str_is type "combine" then
    let op := Js.to_string (Js.or_else (Js.get def "op") (JStr "mul")) in
    let da := Js.get def "a" in
    let db := Js.get def "b" in
    a ← (if Js.truthy (Js.get_opt da "ref")
         then sample (Js.get da "ref")
         else ret (operand_const da));
    b ← (if Js.truthy (Js.get_opt db "ref")
         then sample (Js.get db "ref")
         else ret (operand_const db));
    ret (combine op a b (Js.get def "t"))
  else
    visiting_delete key;;
    throw (UnsupportedLayerType (Js.to_string type) (Js.to_string name)).

(** [sampleLayer(name, x, y)]; [fuel] bounds the depth of the calls through
    [combine] references. *)
Fixpoint sampleLayer_fuel (fuel : nat) (name : json) (x y : Z) : M float :=
  match fuel with
  | O => throw OutOfFuel
  | S fuel =>
      let def := layer_def name in
      if negb (Js.truthy def) then throw (UnknownLayer (Js.to_string name)) else
      if Js.str_is (Js.get def "type") "const" then
        s ← get_state;
        match map_get (cacheConst s) name with
        | Some v => ret v
        | None =>
            let v := clamp01 (Js.number_or (Js.get def "value") 0) in
            modify (λ s, {| seedOffsets := seedOffsets s;
                            visiting := visiting s;
                            cacheConst := (name, v) :: cacheConst s |});;
            ret v
        end
      else
      let key := visit_key name x y in
      s ← get_state;
      if bool_decide (key ∈ visiting s) then throw (LayerCycle (Js.to_string name)) else
      visiting_add key;;
      out ← layerOut (λ ref, sampleLayer_fuel fuel ref x y) def name x y key;
      visiting_delete key;;
      ret (clamp01 out)
  end.

(** The depth of nested calls never exceeds the number of layers, so this
    much fuel is enough (see [sampleLayer_terminates]). *)
Definition sampleLayer (name : json) (x y : Z) : M float :=
  sampleLayer_fuel (S (length (Js.own_props layers))) name x y.

(** ** Predicates *)

(** [list.every(f)] and [list.some(f)] for an [f] that may throw. *)
Fixpoint every {A} (f : A → M bool) (l : list A) : M bool :=
  match l with
  | [] => ret true
  | a :: r => b ← f a; if b : bool then every f r else ret false
  end.

Fixpoint some {A} (f : A → M bool) (l : list A) : M bool :=
  match l with
  | [] => ret false
  | a :: r => b ← f a; if b : bool then ret true else some f r
  end.

(** [predTrue(pred, x, y, ctx)] with [ctx = { sampleLayer, seed }];
    [fuel] bounds the nesting of [all], [any] and [not]. *)
Fixpoint predTrue_fuel (fuel : nat) (pred : json) (x y : Z) : M bool :=
  match fuel with
  | O => throw OutOfFuel
  | S fuel =>
      if negb (Js.truthy pred) then ret true else
      let all := Js.get pred "all" in
      let any := Js.get pred "any" in
      let not := Js.get pred "not" in
      let layerGt := Js.get pred "layerGt" in
      let layerLt := Js.get pred "layerLt" in
      let layerBetween := Js.get pred "layerBetween" in
      let shape := Js.get pred "shape" in
      let chance := Js.get pred "chance" in
      if Js.truthy all then
        if Js.is_array all
        then every (λ p, predTrue_fuel fuel p x y) (Js.elements all)
        else ret false
      else if Js.truthy any then
        if Js.is_array any
        then some (λ p, predTrue_fuel fuel p x y) (Js.elements any)
        else ret false
      else if Js.truthy not then
        b ← predTrue_fuel fuel not x y; ret (negb b)
      else if Js.truthy layerGt then
        l ← lift (Js.iterate layerGt);
        v ← sampleLayer (nth 0 l JUndef) x y;
        ret (Js.to_number (nth 1 l JUndef) <? v)%float
      else if Js.truthy layerLt then
        l ← lift (Js.iterate layerLt);
        v ← sampleLayer (nth 0 l JUndef) x y;
        ret (v <? Js.to_number (nth 1 l JUndef))%float
      else if Js.truthy layerBetween then
        l ← lift (Js.iterate layerBetween);
        v ← sampleLayer (nth 0 l JUndef) x y;
        ret ((Js.to_number (nth 1 l JUndef) <=? v)%float
              && (v <=? Js.to_number (nth 2 l JUndef))%float)
      else if Js.truthy shape then lift (shapeContains shape x y)
      else if negb (Js.nullish chance) then
        let p := clamp01 (Js.number_or chance 0) in
        let rr := xfnv1a_first
                    (seed ++ "|chance|" ++ Js.to_string (Js.or_else (Js.get pred "seed") (JStr ""))
                     ++ "|" ++ Num.string_of_Z x ++ "," ++ Num.string_of_Z y) in
        ret (rr <? p)%float
      else ret false
  end.

(** Nesting depth of a value. *)
Fixpoint depth (v : json) : nat :=
  match v with
  | JArr e p =>
      S (Nat.max (foldr (λ x n, Nat.max (depth x) n) O e)
                 (foldr (λ (kx : string * json) n, Nat.max (depth kx.2) n) O p))
  | JObj p => S (foldr (λ (kx : string * json) n, Nat.max (depth kx.2) n) O p)
  | _ => O
  end.

Definition predTrue (pred : json) (x y : Z) : M bool :=
  predTrue_fuel (S (depth pred)) pred x y.

End Sampler.

(** ** Operation executor *)

(** The weight [Math.max(0, Number(it.p ?? 1) || 0)] of an item. *)
Definition weight `{Host} (it : json) : float :=
  Num.max 0 (Js.number_or (Js.coalesce (Js.get it "p") (JNum 1)) 0).

(** The second loop of [pickWeighted]: [t] is what is left of the draw. *)
Fixpoint pick_scan `{Host} (items : list json) (t : float) : option json :=
  match items with
  | [] => None
  | it :: rest =>
      let t := (t - weight it)%float in
      if (t <=? 0)%float then Some it else pick_scan rest t
  end.

(** [pickWeighted(rng, items)]: the item chosen and the new state of [rng]. *)
Definition pickWeighted `{Host} (h : Z) (items : list json) : json * Z :=
  let sum := fold_left (λ s it, (s + weight it)%float) items 0%float in
  if (sum <=? 0)%float then (nth 0 items JUndef, h) else
  let '(r, h) := xfnv1a_next h in
  let t := (r * sum)%float in
  match pick_scan items t with
  | Some it => (it, h)
  | None => (nth (length items - 1)%nat items JUndef, h)
  end.

(** [bgGrid] and [fgGrid]: rows of tile ids. *)
Record grids := Grids {
  bgGrid : list (list json);
  fgGrid : list (list json)
}.

(** [row[i] = v] on an array: a write past the end extends the array. *)
Definition arr_set (row : list json) (i : Z) (v : json) : list json :=
  if i <? 0 then row
  else
    let n := Z.to_nat i in
    if (n <? length row)%nat then <[n := v]> row
    else row ++ replicate (n - length row)%nat JUndef ++ [v].

(** [grid[y][x] = v]; [grid[y]] must exist. *)
Definition grid_set (grid : list (list json)) (x y : Z) (v : json) :
    result (list (list json)) :=
  if y <? 0 then Throw (TypeError "Cannot set properties of undefined") else
  match grid !! Z.to_nat y with
  | Some row => Ok (<[Z.to_nat y := arr_set row x v]> grid)
  | None => Throw (TypeError "Cannot set properties of undefined")
  end.

Definition set_bg (g : grids) (x y : Z) (v : json) : result grids :=
  b ← grid_set (bgGrid g) x y v; mret {| bgGrid := b; fgGrid := fgGrid g |}.

Definition set_fg (g : grids) (x y : Z) (v : json) : result grids :=
  f ← grid_set (fgGrid g) x y v; mret {| bgGrid := bgGrid g; fgGrid := f |}.

(** [for (let i = start; i < start + n; i++) s = body(i, s)] *)
Fixpoint for_range {St : Type} (n : nat) (i : Z) (body : Z → St → M St) (st : St) : M St :=
  match n with
  | O => ret st
  | S n' => st' ← body i st; for_range n' (i + 1) body st'
  end.

(** The cells [start, start + n) of one axis. *)
Definition span (start n : Z) : list Z :=
  map (λ i, start + Z.of_nat i) (seq 0 (Z.to_nat n)).

(** A read and a write of the [Uint8Array] [occ]. *)
Definition occ_get (occ : list bool) (i : Z) : bool :=
  if i <? 0 then false else default false (occ !! Z.to_nat i).

Definition occ_set (occ : list bool) (i : Z) : list bool :=
  if i <? 0 then occ else <[Z.to_nat i := true]> occ.

(** An integral number stored in a document, read back as an integer. *)
Definition to_Z (v : json) : Z :=
  match v with JNum f => Num.floorZ f | _ => 0 end.

(** One placement of [stamp.scatter]: the top-left corner and the size. *)
Record placement := Placement { p_x : Z; p_y : Z; p_w : Z; p_h : Z }.

(** The variables of the attempt loop of [stamp.scatter].  [sc_log] lists the
    placements made, latest first; it is not a variable of the source, it
    records what the loop did so that the placements can be spoken about. *)
Record scatter_state := ScatterState {
  sc_grids : grids;
  sc_occ : list bool;
  sc_rng : Z;
  sc_attempt : Z;
  sc_placed : Z;
  sc_log : list placement
}.

Section Executor.
Context `{Host}.
Variables (reference : string) (width height : Z).
Variables (bgIds fgIds : gset string) (layers : json) (perm : list Z).

Definition predTrue' : json → Z → Z → M bool :=
  predTrue reference width height layers perm.

Definition has_id (ids : gset string) (id : json) : bool :=
  match id with JStr s => bool_decide (s ∈ ids) | _ => false end.

Definition requireBg (id : json) (ctx : string) : result unit :=
  assert (has_id bgIds id) (ctx ++ ": unknown background tile id").

Definition requireFgOrNull (id : json) (ctx : string) : result unit :=
  match id with
  | JNull => Ok tt
  | _ => assert (has_id fgIds id) (ctx ++ ": unknown foreground tile id")
  end.

(** *** paint *)

Definition paintCell (op : json) (y x : Z) (g : grids) : M grids :=
  hit ← predTrue' (Js.get op "where") x y;
  if negb hit then ret g else
  g ← lift (if negb (Js.nullish (Js.get op "bg"))
            then set_bg g x y (Js.get op "bg") else Ok g);
  lift (if negb (Js.is_undefined (Js.get op "fg"))
        then set_fg g x y (Js.get op "fg") else Ok g).

Definition paint (op : json) (g : grids) : M grids :=
  lift (if negb (Js.nullish (Js.get op "bg"))
        then requireBg (Js.get op "bg") "paint.bg" else Ok tt);;
  lift (if negb (Js.is_undefined (Js.get op "fg"))
        then requireFgOrNull (Js.get op "fg") "paint.fg" else Ok tt);;
  for_range (Z.to_nat height) 0
    (λ y g, for_range (Z.to_nat width) 0 (paintCell op y) g) g.

(** *** roads.grid *)

(** [((v - o) % spacing + spacing) % spacing] *)
Definition wrap (v o spacing : Z) : Z :=
  Z.rem (Z.rem (v - o) spacing + spacing) spacing.

Definition roadsCell (op : json) (ox spacing thickness : Z)
    (interId : json) (interP : float) (interSeed : string)
    (y gy x : Z) (g : grids) : M grids :=
  hit ← predTrue' (Js.get op "where") x y;
  if negb hit then ret g else
  let gx := wrap x ox spacing in
  let onV := gx <? thickness in
  let onH := gy <? thickness in
  if negb (onV || onH) then ret g else
  g ← lift (set_bg g x y (Js.get op "bg"));
  if Js.truthy interId && (0 <? interP)%float && onV && onH then
    let rr := xfnv1a_first (reference ++ "|roads|" ++ interSeed ++ "|"
                            ++ Num.string_of_Z x ++ "," ++ Num.string_of_Z y) in
    if (rr <? interP)%float then lift (set_fg g x y interId) else ret g
  else ret g.

Definition roadsGrid (op : json) (g : grids) : M grids :=
  lift (requireBg (Js.get op "bg") "roads.grid.bg");;
  let origin := if Js.is_array (Js.get op "origin") then Js.get op "origin"
                else JList [JNum 0; JNum 0] in
  let ox := safeInt (Js.index origin 0) 0 (-1000000000) 1000000000 in
  let oy := safeInt (Js.index origin 1) 0 (-1000000000) 1000000000 in
  let spacing := safeInt (Js.get op "spacing") 20 2 200 in
  let thickness := safeInt (Js.get op "thickness") 2 1 20 in
  let inter := Js.get op "fgAtIntersections" in
  '(interId, interP, interSeed) ←
    (if Js.is_object inter then
       let interId := Js.coalesce (Js.get inter "id") JNull in
       lift (requireFgOrNull interId "roads.grid.fgAtIntersections.id");;
       ret (interId, clamp01 (Js.number_or (Js.get inter "p") 0),
            Js.to_string (Js.or_else (Js.get inter "seed") (JStr "")))
     else ret (JNull, 0%float, ""));
  for_range (Z.to_nat height) 0
    (λ y g, for_range (Z.to_nat width) 0
              (roadsCell op ox spacing thickness interId interP interSeed
                 y (wrap y oy spacing)) g) g.

(** *** stamp.scatter *)

(** The body of the loop that validates the prefabs: the prefab as the
    loop leaves it, and whether an assertion failed. *)
Definition validatePrefab (pf : json) : json * result unit :=
  if negb (Js.is_object pf) then (pf, Throw (AssertionError "prefab must be object")) else
  let w := safeInt (Js.get pf "w") 1 1 200 in
  let h := safeInt (Js.get pf "h") 1 1 200 in
  let pf := Js.set pf "w" (JNum (Num.of_Z w)) in
  let pf := Js.set pf "h" (JNum (Num.of_Z h)) in
  let checks :=
    (if negb (Js.nullish (Js.get pf "bg"))
     then requireBg (Js.get pf "bg") "prefabs.bg" else Ok tt);;
    (if negb (Js.nullish (Js.get pf "fg"))
     then requireFgOrNull (Js.get pf "fg") "prefabs.fg" else Ok tt) in
  match checks with
  | Throw e => (pf, Throw e)
  | Ok _ =>
      (Js.set pf "p"
         (JNum (clamp01 (Js.number_or (Js.coalesce (Js.get pf "p") (JNum 1)) 0))),
       Ok tt)
  end.

Fixpoint validatePrefabs (prefabs : list json) : list json * result unit :=
  match prefabs with
  | [] => ([], Ok tt)
  | pf :: rest =>
      match validatePrefab pf with
      | (pf', Throw e) => (pf' :: rest, Throw e)
      | (pf', Ok _) =>
          let '(rest', r) := validatePrefabs rest in (pf' :: rest', r)
      end
  end.

(** The prefabs of a [stamp.scatter] op after its validation loop. *)
Definition scatterPrefabs (op : json) : list json * result unit :=
  let prefabs := Js.elements (Js.get op "prefabs") in
  let n := Z.of_nat (length prefabs) in
  if (1 <=? n) && (n <=? 128) then validatePrefabs prefabs
  else (prefabs, Throw (AssertionError "stamp.scatter.prefabs must be 1..128")).

Definition canPlace (occ : list bool) (x0 y0 w h : Z) : bool :=
  if (x0 <? 0) || (y0 <? 0) || (width <? x0 + w) || (height <? y0 + h) then false
  else forallb (λ y, forallb (λ x, negb (occ_get occ (y * width + x))) (span x0 w))
               (span y0 h).

Definition markPlace (occ : list bool) (x0 y0 w h : Z) : list bool :=
  fold_left (λ occ y, fold_left (λ occ x, occ_set occ (y * width + x)) (span x0 w) occ)
            (span y0 h) occ.

(** [for y, for x: bgGrid[y][x] = v] over a footprint. *)
Definition stampBg (g : grids) (x0 y0 w h : Z) (v : json) : result grids :=
  foldl (λ r y, foldl (λ r x, g ← r; set_bg g x y v) r (span x0 w)) (Ok g) (span y0 h).

(** The body of the attempt loop, with the [attempt++] that follows it. *)
Definition scatterAttempt (where_ : json) (prefabs : list json)
    (st : scatter_state) : M scatter_state :=
  let '(pf, rng) := pickWeighted (sc_rng st) prefabs in
  let w := to_Z (Js.get pf "w") in
  let h := to_Z (Js.get pf "h") in
  let '(r1, rng) := xfnv1a_next rng in
  let x0 := Num.floorZ (r1 * Num.of_Z (width - w + 1))%float in
  let '(r2, rng) := xfnv1a_next rng in
  let y0 := Num.floorZ (r2 * Num.of_Z (height - h + 1))%float in
  let cx := x0 + w / 2 in
  let cy := y0 + h / 2 in
  let skip := {| sc_grids := sc_grids st; sc_occ := sc_occ st; sc_rng := rng;
                 sc_attempt := sc_attempt st + 1;
                 sc_placed := sc_placed st; sc_log := sc_log st |} in
  hit ← predTrue' where_ cx cy;
  if negb hit then ret skip else
  if negb (canPlace (sc_occ st) x0 y0 w h) then ret skip else
  g ← lift (if negb (Js.nullish (Js.get pf "bg"))
            then stampBg (sc_grids st) x0 y0 w h (Js.get pf "bg")
            else Ok (sc_grids st));
  g ← lift (if negb (Js.nullish (Js.get pf "fg"))
            then set_fg g cx cy (Js.get pf "fg") else Ok g);
  ret {| sc_grids := g;
         sc_occ := markPlace (sc_occ st) x0 y0 w h;
         sc_rng := rng;
         sc_attempt := sc_attempt st + 1;
         sc_placed := sc_placed st + 1;
         sc_log := Placement x0 y0 w h :: sc_log st |}.

(** [for (attempt = 0; attempt < maxAttempts && placed < count; attempt++)],
    with [n = maxAttempts - attempt] attempts left. *)
Fixpoint scatterLoop (n : nat) (count : Z) (where_ : json) (prefabs : list json)
    (st : scatter_state) : M scatter_state :=
  match n with
  | O => ret st
  | S n' =>
      if sc_placed st <? count then
        st' ← scatterAttempt where_ prefabs st;
        scatterLoop n' count where_ prefabs st'
      else ret st
  end.

Definition scatterCount (op : json) : Z := safeInt (Js.get op "count") 200 1 200000.
Definition scatterMaxAttempts (op : json) : Z :=
  safeInt (Js.get op "maxAttempts") (scatterCount op * 10) 1 400000.

(** The op from the point where [occ] and [rng] are made. *)
Definition scatterRun (op : json) (prefabs : list json) (g : grids) : M scatter_state :=
  let seed := Js.to_string (Js.or_else (Js.get op "seed") (JStr "scatter")) in
  scatterLoop (Z.to_nat (scatterMaxAttempts op)) (scatterCount op)
    (Js.get op "where") prefabs
    {| sc_grids := g;
       sc_occ := replicate (Z.to_nat (width * height)) false;
       sc_rng := xfnv1a (reference ++ "|scatter|" ++ seed);
       sc_attempt := 0;
       sc_placed := 0;
       sc_log := [] |}.

Definition stampScatter (op : json) (g : grids) : M grids :=
  let '(prefabs, checked) := scatterPrefabs op in
  lift checked;;
  st ← scatterRun op prefabs g;
  ret (sc_grids st).

(** *** The loop over [ops] *)

(** What one iteration does to the grids. *)
Definition execOp (op : json) (opIndex : Z) (g : grids) : M grids :=
  if negb (Js.is_object op) then ret g else
  let type := Js.to_string (Js.or_else (Js.get op "type") (JStr "")) in
  if String.eqb type "paint" then paint op g
  else if String.eqb type "roads.grid" then roadsGrid op g
  else if String.eqb type "stamp.scatter" then stampScatter op g
  else throw (UnsupportedOp type opIndex).

(** The op as the iteration leaves it: [stamp.scatter] stores the clamped
    [w], [h] and [p] back into its prefabs. *)
Definition opAfter (op : json) : json :=
  if negb (Js.is_object op) then op else
  let type := Js.to_string (Js.or_else (Js.get op "type") (JStr "")) in
  if String.eqb type "paint" then op
  else if String.eqb type "roads.grid" then op
  else if String.eqb type "stamp.scatter" then
    match Js.get op "prefabs" with
    | JArr _ named => Js.set op "prefabs" (JArr (scatterPrefabs op).1 named)
    | _ => op
    end
  else op.

(** [for (opIndex = ...; opIndex < ops.length; opIndex++)]: the ops as the
    loop leaves them, and its outcome. *)
Fixpoint runOps (ops : list json) (opIndex : Z) (g : grids) (s : sampler) :
    list json * result (grids * sampler) :=
  match ops with
  | [] => ([], Ok (g, s))
  | op :: rest =>
      match execOp op opIndex g s with
      | Ok (g', s') =>
          let '(rest', r) := runOps rest (opIndex + 1) g' s' in
          (opAfter op :: rest', r)
      | Throw e => (opAfter op :: rest, Throw e)
      end
  end.

End Executor.

(** ** Generate *)

(** The output document [{ tiles, area: { width, height, cells } }]; a cell
    is the pair [[bgId, fgId]]. *)
Record WorldOutput := Output {
  out_tiles : json;
  area_width : Z;
  area_height : Z;
  area_cells : list (list (json * json))
}.

Section Generate.
Context `{Host}.
(** [width] and [height] are the constants [const width = 200, height = 200]
    of the run, kept as parameters here and bound to 200 in [Generate]
    below.  [whitelistExtra] is the text of the optional whitelist file and
    [fallbackTiles] stands for [fallbackSpec(reference).tiles], both
    produced outside the core. *)
Variables (width height : Z) (whitelistExtra : string) (fallbackTiles : json).

(** Membership in [new Set(readWhitelistChars().split(''))]. *)
Definition allowed (c : ascii) : bool :=
  negb (Ascii.eqb c "010" || Ascii.eqb c "013" || Ascii.eqb c "009")
  && (in_range 32 126 c
      || existsb (Ascii.eqb c) (list_ascii_of_string whitelistExtra)).

Definition fallbacks : list string := ["^"; "*"; "o"; "@"; "#"; "~"; "+"; "x"]%string.

(** [t.id?.length || 0] *)
Definition id_length (t : json) : Z :=
  match Js.get t "id" with
  | JStr s => Z.of_nat (String.length s)
  | JArr e _ => Z.of_nat (length e)
  | _ => 0
  end.

(** The body of the loop that enforces the whitelist on foreground symbols. *)
Definition sanitizeSymbol (t : json) : json :=
  if negb (Js.truthy t) then t else
  match Js.get t "symbol" with
  | JStr (String ch rest) =>
      if negb (allowed ch) then
        Js.set t "symbol"
          (JStr (nth (Z.to_nat ((Z.abs (id_length t) + char_code ch) mod 8)) fallbacks ""%string))
      else if (1 <? Z.of_nat (String.length (String ch rest))) then
        Js.set t "symbol" (JStr (String ch ""))
      else t
  | _ => t
  end.

Definition sanitizeTiles (tiles : json) : json :=
  match Js.get tiles "foreground" with
  | JArr e named => Js.set tiles "foreground" (JArr (map sanitizeSymbol e) named)
  | _ => tiles
  end.

(** The grids as allocated: every row filled with [defaultBg] and [null]. *)
Definition newGrids (defaultBg : json) : grids :=
  {| bgGrid := replicate (Z.to_nat height) (replicate (Z.to_nat width) defaultBg);
     fgGrid := replicate (Z.to_nat height) (replicate (Z.to_nat width) JNull) |}.

(** [row[x]] of the cell composition. *)
Definition composeCell (rowBg rowFg : list json) (x : nat) : json * json :=
  let fg := nth x rowFg JUndef in
  (nth x rowBg JUndef, if Js.is_undefined fg then JNull else fg).

Definition composeRow (g : grids) (y : nat) : result (list (json * json)) :=
  match bgGrid g !! y, fgGrid g !! y with
  | Some rowBg, Some rowFg => Ok (map (composeCell rowBg rowFg) (seq 0 (Z.to_nat width)))
  | _, _ => Throw (TypeError "Cannot read properties of undefined")
  end.

Fixpoint composeRows (g : grids) (ys : list nat) : result (list (list (json * json))) :=
  match ys with
  | [] => Ok []
  | y :: rest => row ← composeRow g y; rows ← composeRows g rest; mret (row :: rows)
  end.

Definition composeCells (g : grids) : result (list (list (json * json))) :=
  composeRows g (seq 0 (Z.to_nat height)).

(** [layers] and [ops] as [Generate] takes them from the spec. *)
Definition specLayers (spec : json) : json :=
  if Js.is_object (Js.get spec "layers") then Js.get spec "layers" else JObj [].
Definition specOps (spec : json) : list json := Js.elements (Js.get spec "ops").

(** The two stores that open the run: [spec.world = ...] and, when the
    spec has no tiles, [spec.tiles = fallbackSpec(reference).tiles]. *)
Definition prepareSpec (spec : json) : json :=
  let spec := Js.set spec "world"
                (JObj [("width", JNum (Num.of_Z width));
                       ("height", JNum (Num.of_Z height));
                       ("metersPerCell", JNum 1)]%string) in
  if negb (Js.truthy (Js.get spec "tiles"))
  then Js.set spec "tiles" fallbackTiles else spec.

(** The limits on the number of layers and of ops. *)
Definition checkLimits (layers : json) (ops : list json) : result unit :=
  assert (Z.of_nat (length (Js.own_props layers)) <=? 128) "Too many layers (max 128)";;
  assert (Z.of_nat (length ops) <=? 256) "Too many ops (max 256)".

(** [ops] with its entries as the loop left them. *)
Definition storeOps (spec : json) (ops' : list json) : json :=
  match Js.get spec "ops" with
  | JArr _ named => Js.set spec "ops" (JArr ops' named)
  | _ => spec
  end.

(** [spec.tiles.background[0].id] *)
Definition defaultBg (tiles : json) : json :=
  Js.get (Js.index (Js.get tiles "background") 0) "id".

(** The body of [Generate] from the spec object on: the acquisition of the
    spec and the optional write of the output to a file are left out.  The
    first component is the spec object as the run leaves it (the run stores
    [world], the sanitized symbols and the clamped prefab fields into it),
    the second the output or the error thrown. *)
Definition generate (spec : json) (reference : string) : json * result WorldOutput :=
  let spec := prepareSpec spec in
  match validateTiles (Js.get spec "tiles") with
  | Throw e => (spec, Throw e)
  | Ok (bgIds, fgIds) =>
      let tiles := sanitizeTiles (Js.get spec "tiles") in
      let spec := Js.set spec "tiles" tiles in
      match checkLimits (specLayers spec) (specOps spec) with
      | Throw e => (spec, Throw e)
      | Ok _ =>
          let perm := Noise.makeValueNoise2D (xfnv1a reference) in
          let '(ops', r) :=
            runOps reference width height bgIds fgIds (specLayers spec) perm
                   (specOps spec) 0 (newGrids (defaultBg tiles)) new_sampler in
          (storeOps spec ops',
           '(g, _) ← r;
           cells ← composeCells g;
           mret {| out_tiles := tiles; area_width := width; area_height := height;
                   area_cells := cells |})
      end
  end.

End Generate.

(** [Generate]: the world size is fixed, [const width = 200, height = 200]. *)
Definition Generate `{Host} (whitelistExtra : string) (fallbackTiles : json)
    (spec : json) (reference : string) : json * result WorldOutput :=
  generate 200 200 whitelistExtra fallbackTiles spec reference.

(** ** Colours *)

(** The digit of value [d] as [Number.prototype.toString(16)] writes it. *)
Definition hex_char (d : Z) : ascii :=
  nth (Z.to_nat d) (list_ascii_of_string "0123456789abcdef") "0"%char.

(** The digits of [n] before [acc], most significant first. *)
Fixpoint hex_of (fuel : nat) (n : Z) (acc : string) : string :=
  match fuel with
  | O => acc
  | S fuel =>
      let acc := String (hex_char (n mod 16)) acc in
      if n / 16 =? 0 then acc else hex_of fuel (n / 16) acc
  end.

(** [v.toString(16)] for an integer [v]. *)
Definition to_string16 (v : Z) : string :=
  if v <? 0 then String "-" (hex_of (S (Z.to_nat (Z.log2 (- v)))) (- v) "")
  else hex_of (S (Z.to_nat (Z.log2 v))) v "".

(** [s.padStart(2, '0')] *)
Definition padStart2 (s : string) : string :=
  match String.length s with
  | 0%nat => "00"
  | 1%nat => String "0" s
  | _ => s
  end.

(** [rgbToHex(r, g, b)] of [engine.js], for integers. *)
Definition rgbToHex (r g b : Z) : string :=
  let h := λ v, padStart2 (to_string16 v) in
  String "#" (h r ++ h g ++ h b).

(** The value of a hexadecimal digit. *)
Definition hex_value (c : ascii) : Z :=
  if in_range 48 57 c then char_code c - 48
  else if in_range 97 102 c then char_code c - 87
  else if in_range 65 70 c then char_code c - 55
  else 0.

(** [parseInt(s, 16)] for a string of hexadecimal digits. *)
Definition parseInt16 (s : string) : Z :=
  fold_left (λ n c, n * 16 + hex_value c) (list_ascii_of_string s) 0.

(** The group that [/^#?([0-9a-fA-F]{6})$/] captures. *)
Definition hex6 (s : string) : option string :=
  let digits := match s with String "#" r => r | _ => s end in
  if forallb hex_digit (list_ascii_of_string digits)
     && (Z.of_nat (String.length digits) =? 6)
  then Some digits else None.

(** [a >> k], [a & b] and [a | b] on integers. *)
Definition sar (a k : Z) : Z := Z.shiftr (Num.toInt32 a) k.
Definition and32 (a b : Z) : Z := Num.toInt32 (Z.land (Num.toInt32 a) (Num.toInt32 b)).
Definition or32 (a b : Z) : Z := Num.toInt32 (Z.lor (Num.toInt32 a) (Num.toInt32 b)).

Record rgb := Rgb { rgb_r : Z; rgb_g : Z; rgb_b : Z }.

(** [hexToRgb(hex)] of [debug-image.js]. *)
Definition hexToRgb `{Host} (hex : json) : rgb :=
  match hex6 (Js.to_string (Js.or_else hex (JStr ""))) with
  | None => {| rgb_r := 0; rgb_g := 0; rgb_b := 0 |}
  | Some digits =>
      let n := parseInt16 digits in
      {| rgb_r := and32 (sar n 16) 255; rgb_g := and32 (sar n 8) 255;
         rgb_b := and32 n 255 |}
  end.

(** [rgbToInt(r, g, b)] of [debug-image.js], for integers. *)
Definition rgbToInt (r g b : Z) : Z :=
  or32 (or32 (Num.shl (and32 r 255) 16) (Num.shl (and32 g 255) 8)) (and32 b 255).

(** * Properties *)

(** A host for closed examples: [Math.hypot] is the square root of the sum
    of the squares; the conversions between numbers and strings are not
    reached by the examples and answer with fixed values. *)
Definition example_host : Host :=
  {| number_to_string := λ _, "NaN"%string;
     string_to_number := λ _, nan;
     math_hypot := λ x y, PrimFloat.sqrt (x * x + y * y)%float |}.

(** The value returned by a computation, the final state dropped. *)
Definition run_value {A} (m : M A) (s : sampler) : result A :=
  match m s with Ok (a, _) => Ok a | Throw e => Throw e end.

(** A sampler as [makeLayerSampler] returns it between two calls: nothing
    is being visited. *)
Definition idle (so : list (json * (float * float))) (cc : list (json * float)) : sampler :=
  {| seedOffsets := so; visiting := ∅; cacheConst := cc |}.

(** ** The threshold operator *)

(** The step of [threshold]: [Number(t) || 0.5]. *)
Definition threshold_of `{Host} (t : json) : float := Js.number_or t 0.5.

(** The layer [combine{op:"threshold", a:{const:a}, b:{const:0}, t:0.5}]. *)
Definition thresholdLayer (a : float) : json :=
  JObj [("type", JStr "combine"); ("op", JStr "threshold");
        ("a", JObj [("const", JNum a)]); ("b", JObj [("const", JNum 0)]);
        ("t", JNum 0.5)]%string.

Lemma sampleLayer_threshold `{Host} seed width height layers perm
    (a : float) (name : json) (x y : Z) so cc :
  layer_def layers name = thresholdLayer a →
  run_value (sampleLayer seed width height layers perm name x y) (idle so cc)
  = Ok (clamp01 (if (0.5 <=? clamp01 (Num.or_else a 0))%float then 1 else 0)%float).
Proof.
  intros Hdef. unfold run_value, sampleLayer, idle. cbn [sampleLayer_fuel].
  rewrite Hdef. cbn.
  unfold mbind, M_bind, get_state. cbn.
  rewrite bool_decide_eq_false_2 by set_solver.
  reflexivity.
Qed.

(** C9, as stated, fails: with [t = 0] and [a = 0.25] the operand is at
    least [t], yet [threshold] answers 0. *)
Lemma threshold_zero_counterexample :
  (0 <=? 0.25)%float = true ∧
  combine (H:=example_host) "threshold" 0.25 0 (JNum 0) = 0%float.
Proof. split; reflexivity. Qed.

(** C9 (amended): [threshold] is the step function at [Number(t) || 0.5]:
    it answers 1 when [a] is at least that step and 0 otherwise; the step is
    [t] for a number [t] other than 0 and NaN, and 0.5 when [t] is absent,
    null, 0 or NaN.  The layer
    [combine{op:"threshold", a:{const:0.6}, b:{const:0}, t:0.5}] samples to 1
    at every coordinate, and with [a:{const:0.4}] to 0. *)
Theorem combine_threshold_step `{Host} :
  (∀ a b t, combine "threshold" a b t
            = if (threshold_of t <=? a)%float then 1%float else 0%float)
  ∧ (∀ f, threshold_of (JNum f) = if Num.truthy f then f else 0.5%float)
  ∧ threshold_of JUndef = 0.5%float
  ∧ threshold_of JNull = 0.5%float
  ∧ (∀ seed width height layers perm name x y so cc,
       layer_def layers name = thresholdLayer 0.6 →
       run_value (sampleLayer seed width height layers perm name x y) (idle so cc)
       = Ok 1%float)
  ∧ (∀ seed width height layers perm name x y so cc,
       layer_def layers name = thresholdLayer 0.4 →
       run_value (sampleLayer seed width height layers perm name x y) (idle so cc)
       = Ok 0%float).
Proof.
  repeat split; try reflexivity.
  - intros. rewrite (sampleLayer_threshold _ _ _ _ _ _ _ _ _ _ _ H0). reflexivity.
  - intros. rewrite (sampleLayer_threshold _ _ _ _ _ _ _ _ _ _ _ H0). reflexivity.
Qed.

Lemma combine_threshold_step_witness :
  run_value (sampleLayer (H:=example_host) "seed" 200 200
               (JObj [("edge", thresholdLayer 0.6)]%string) [] (JStr "edge") 3 4)
            (idle [] [])
  = Ok 1%float
  ∧ run_value (sampleLayer (H:=example_host) "seed" 200 200
                 (JObj [("edge", thresholdLayer 0.4)]%string) [] (JStr "edge") 3 4)
              (idle [] [])
    = Ok 0%float.
Proof.
  split.
  - apply (proj1 (proj2 (proj2 (proj2 (proj2 (combine_threshold_step (H:=example_host))))))).
    reflexivity.
  - apply (proj2 (proj2 (proj2 (proj2 (proj2 (combine_threshold_step (H:=example_host))))))).
    reflexivity.
Defined.

(** ** Weighted choice *)

Definition weights_sum `{Host} (items : list json) : float :=
  fold_left (λ s it, (s + weight it)%float) items 0%float.

Lemma weights_sum_zero `{Host} (items : list json) :
  Forall (λ it, weight it = 0%float) items → weights_sum items = 0%float.
Proof.
  unfold weights_sum. induction 1 as [|it items Hit _ IH]; [reflexivity|].
  cbn [fold_left]. rewrite Hit. exact IH.
Qed.

Definition zeroA : json := JObj [("fg", JStr "a"); ("p", JNum 0)]%string.
Definition zeroB : json := JObj [("fg", JStr "b"); ("p", JNum 0)]%string.

(** C8, as stated, fails: of two prefabs of weight 0 the first is
    returned, not the last. *)
Lemma pickWeighted_zero_counterexample :
  weight (H:=example_host) zeroA = 0%float ∧ weight (H:=example_host) zeroB = 0%float
  ∧ pickWeighted (H:=example_host) (xfnv1a "seed|scatter|scatter") [zeroA; zeroB]
    = (zeroA, xfnv1a "seed|scatter|scatter")
  ∧ zeroA ≠ zeroB.
Proof. repeat split; try reflexivity. discriminate. Qed.

(** A prefab as the validation loop of [stamp.scatter] leaves it, with
    weight 1. *)
Definition unitB : json := JObj [("fg", JStr "b"); ("p", JNum 1)]%string.

(** C8 (amended): when the weights sum to zero (in particular when every
    weight clamps to 0) [pickWeighted] returns the first prefab of the list,
    not the last, and leaves the random stream untouched.  When the sum is
    positive it draws one number and returns the prefab that the scan of the
    cumulative weights chooses, and the last prefab when the scan ends
    without a choice. *)
Theorem pickWeighted_fallback `{Host} (h : Z) (items : list json) :
  ((weights_sum items <=? 0)%float = true →
     pickWeighted h items = (nth 0 items JUndef, h))
  ∧ (Forall (λ it, weight it = 0%float) items →
     pickWeighted h items = (nth 0 items JUndef, h))
  ∧ ((weights_sum items <=? 0)%float = false →
     pick_scan items ((xfnv1a_next h).1 * weights_sum items)%float = None →
     pickWeighted h items
     = (nth (length items - 1)%nat items JUndef, (xfnv1a_next h).2))
  ∧ ((weights_sum items <=? 0)%float = false →
     ∀ it, pick_scan items ((xfnv1a_next h).1 * weights_sum items)%float = Some it →
     pickWeighted h items = (it, (xfnv1a_next h).2)).
Proof.
  assert (Hfirst : (weights_sum items <=? 0)%float = true →
                   pickWeighted h items = (nth 0 items JUndef, h)).
  { intros Hs. unfold pickWeighted. fold (weights_sum items). by rewrite Hs. }
  split; [exact Hfirst|]. split; [|split].
  - intros Hz. apply Hfirst. by rewrite (weights_sum_zero _ Hz).
  - intros Hs Hscan. unfold pickWeighted. fold (weights_sum items). rewrite Hs.
    destruct (xfnv1a_next h) as [r h'] eqn:Hn. cbn [fst snd] in *.
    by rewrite Hscan.
  - intros Hs it Hscan. unfold pickWeighted. fold (weights_sum items). rewrite Hs.
    destruct (xfnv1a_next h) as [r h'] eqn:Hn. cbn [fst snd] in *.
    by rewrite Hscan.
Qed.

(** A weight that only a list that has not been through the validation loop
    can carry: the loop clamps [p] to [0, 1]. *)
Definition heavyA : json := JObj [("fg", JStr "a"); ("p", JNum infinity)]%string.

Lemma pickWeighted_fallback_witness :
  pickWeighted (H:=example_host) 7 [zeroA; zeroB] = (zeroA, 7)
  ∧ pickWeighted (H:=example_host) 7 [zeroA; zeroB] = (zeroA, 7)
  ∧ pickWeighted (H:=example_host) 7 [heavyA; zeroB] = (zeroB, (xfnv1a_next 7).2)
  ∧ pickWeighted (H:=example_host) 7 [zeroA; unitB] = (unitB, (xfnv1a_next 7).2).
Proof.
  split; [|split; [|split]].
  - apply (proj1 (pickWeighted_fallback (H:=example_host) 7 [zeroA; zeroB])).
    reflexivity.
  - apply (proj1 (proj2 (pickWeighted_fallback (H:=example_host) 7 [zeroA; zeroB]))).
    repeat constructor.
  - apply (proj1 (proj2 (proj2 (pickWeighted_fallback (H:=example_host) 7 [heavyA; zeroB]))));
      reflexivity.
  - apply (proj2 (proj2 (proj2 (pickWeighted_fallback (H:=example_host) 7 [zeroA; unitB]))));
      reflexivity.
Defined.

(** ** The range of the sampler *)

(** [v] lies in the closed interval [0, 1]. *)
Definition in_unit (v : float) : bool := (0 <=? v)%float && (v <=? 1)%float.

(** The layer [combine{op:"smoothstep", a:{const:0.6}, t:[]}]. *)
Definition edgelessLayer : json :=
  JObj [("type", JStr "combine"); ("op", JStr "smoothstep");
        ("a", JObj [("const", JNum 0.6)]); ("t", JList [])]%string.

(** C5: the code at the failing input.  A [smoothstep] layer whose [t] is an
    array without a first edge samples to NaN at every coordinate: [clamp01]
    lets NaN through, so the value returned is not in [0, 1]. *)
Theorem sampleLayer_smoothstep_nan `{Host} seed width height layers perm name x y so cc :
  layer_def layers name = edgelessLayer →
  run_value (sampleLayer seed width height layers perm name x y) (idle so cc) = Ok nan
  ∧ in_unit nan = false.
Proof.
  intros Hdef. split; [|reflexivity].
  unfold run_value, sampleLayer, idle. cbn [sampleLayer_fuel].
  rewrite Hdef. cbn.
  unfold mbind, M_bind, get_state. cbn.
  rewrite bool_decide_eq_false_2 by set_solver.
  reflexivity.
Qed.

Lemma sampleLayer_smoothstep_nan_witness :
  run_value (sampleLayer (H:=example_host) "seed" 200 200
               (JObj [("s", edgelessLayer)]%string) [] (JStr "s") 0 0) (idle [] [])
  = Ok nan
  ∧ in_unit nan = false.
Proof.
  apply (sampleLayer_smoothstep_nan (H:=example_host)). reflexivity.
Defined.

(** ** Entries of [ops] that are not operations *)

Section OpsEntries.
Context `{Host}.
Variables (reference : string) (width height : Z).
Variables (bgIds fgIds : gset string) (layers : json) (perm : list Z).

Local Abbreviation exec := (execOp reference width height bgIds fgIds layers perm).
Local Abbreviation run := (runOps reference width height bgIds fgIds layers perm).

(** [String(op.type || '')] *)
Definition op_type (op : json) : string :=
  Js.to_string (Js.or_else (Js.get op "type") (JStr "")).

(** C10 (amended): an entry of [ops] that is null or not an object is
    skipped, the grids and the sampler are left as they are and the loop
    goes on with the next entry; an entry that is an object whose type, as
    [String(op.type || '')] reads it (so the empty string when the field is
    missing), is none of [paint], [roads.grid], [stamp.scatter] raises the
    unsupported-operation error and ends the loop, the type being a value
    on which the coercion to a string succeeds; in particular a string
    other than the three kinds does. *)
Theorem ops_entry_skipped_or_rejected (op : json) (rest : list json) (i : Z)
    (g : grids) (s : sampler) :
  (Js.is_object op = false →
     exec op i g s = Ok (g, s)
     ∧ run (op :: rest) i g s
       = ((op :: (run rest (i + 1) g s).1), (run rest (i + 1) g s).2))
  ∧ (Js.is_object op = true → Js.plain (Js.get op "type") = true →
     op_type op ≠ "paint"%string → op_type op ≠ "roads.grid"%string →
     op_type op ≠ "stamp.scatter"%string →
     exec op i g s = Throw (UnsupportedOp (op_type op) i)
     ∧ run (op :: rest) i g s = (op :: rest, Throw (UnsupportedOp (op_type op) i)))
  ∧ (Js.is_object op = true → Js.get op "type" = JUndef →
     exec op i g s = Throw (UnsupportedOp "" i))
  ∧ (∀ ty, Js.is_object op = true → Js.get op "type" = JStr ty →
     ty ≠ "paint"%string → ty ≠ "roads.grid"%string → ty ≠ "stamp.scatter"%string →
     exec op i g s = Throw (UnsupportedOp ty i)).
Proof.
  assert (Hrej : Js.is_object op = true →
            op_type op ≠ "paint"%string → op_type op ≠ "roads.grid"%string →
            op_type op ≠ "stamp.scatter"%string →
            exec op i g s = Throw (UnsupportedOp (op_type op) i)).
  { intros Hobj Hp Hr Hs. unfold execOp. rewrite Hobj. cbn [negb]. fold (op_type op).
    apply String.eqb_neq in Hp, Hr, Hs. by rewrite Hp, Hr, Hs. }
  split; [|split; [|split]].
  - intros Hno.
    assert (He : exec op i g s = Ok (g, s)).
    { unfold execOp. by rewrite Hno. }
    split; [exact He|].
    cbn [runOps]. rewrite He. unfold opAfter. rewrite Hno. cbn.
    by destruct (run rest (i + 1) g s).
  - intros Hobj _ Hp Hr Hs. split; [by apply Hrej|].
    cbn [runOps]. rewrite (Hrej Hobj Hp Hr Hs). unfold opAfter. rewrite Hobj. cbn [negb].
    fold (op_type op). apply String.eqb_neq in Hp, Hr, Hs. by rewrite Hp, Hr, Hs.
  - intros Hobj Hty. unfold execOp. rewrite Hobj, Hty. reflexivity.
  - intros ty Hobj Hty Hp Hr Hs.
    assert (Hop : op_type op = ty).
    { unfold op_type, Js.or_else. rewrite Hty. cbn [Js.truthy].
      destruct (String.eqb ty "") eqn:He; cbn [negb Js.to_string]; [|done].
      by apply String.eqb_eq in He. }
    rewrite <- Hop in Hp, Hr, Hs |- *. by apply Hrej.
Qed.

End OpsEntries.

(** The entry [{type: ["paint"], bg: "bg0"}]: its type is an array. *)
Definition arrayTypeOp : json :=
  JObj [("type", JList [JStr "paint"]); ("bg", JStr "bg0")]%string.

(** A spec with the background tiles [sea] and [bg0], no foreground tiles,
    no layers and that entry as its only op. *)
Definition arrayTypeSpec : json :=
  JObj [("tiles",
         JObj [("background",
                JList [JObj [("id", JStr "sea"); ("name", JStr "sea");
                             ("color", JStr "#102030"); ("walkable", JBool false)];
                       JObj [("id", JStr "bg0"); ("name", JStr "bg0");
                             ("color", JStr "#101010"); ("walkable", JBool true)]]);
               ("foreground", JList [])]);
        ("layers", JObj []);
        ("ops", JList [arrayTypeOp])]%string.

(** C10, as stated, fails: an entry that is an object whose type is none of
    the three kinds (it is an array) raises no error, it runs as [paint]
    and the run returns the grid painted with [bg0], because the kind is
    compared after the coercion of the type to a string. *)
Lemma ops_entry_type_counterexample :
  Js.is_object arrayTypeOp = true
  ∧ Js.str_is (Js.get arrayTypeOp "type") "paint" = false
  ∧ Js.str_is (Js.get arrayTypeOp "type") "roads.grid" = false
  ∧ Js.str_is (Js.get arrayTypeOp "type") "stamp.scatter" = false
  ∧ (Generate (H:=example_host) "" JUndef arrayTypeSpec "seed").2
    = Ok {| out_tiles := Js.get arrayTypeSpec "tiles";
            area_width := 200; area_height := 200;
            area_cells := replicate 200 (replicate 200 (JStr "bg0", JNull)) |}.
Proof. do 4 (split; [reflexivity|]). vm_compute. reflexivity. Qed.

Lemma ops_entry_skipped_or_rejected_witness :
  let run := runOps (H:=example_host) "seed" 4 4 {["bg0"%string]} ∅ (JObj []) [] in
  let g := newGrids 4 4 (JStr "bg0") in
  (execOp (H:=example_host) "seed" 4 4 {["bg0"%string]} ∅ (JObj []) [] (JNum 3) 0 g new_sampler
   = Ok (g, new_sampler)
   ∧ run [JNum 3] 0 g new_sampler = ((JNum 3 :: (run [] 1 g new_sampler).1), (run [] 1 g new_sampler).2))
  ∧ (execOp (H:=example_host) "seed" 4 4 {["bg0"%string]} ∅ (JObj []) []
       (JObj [("type", JList [JStr "fill"])]%string) 0 g new_sampler
     = Throw (UnsupportedOp "fill" 0)
     ∧ run [JObj [("type", JList [JStr "fill"])]%string] 0 g new_sampler
       = ([JObj [("type", JList [JStr "fill"])]%string], Throw (UnsupportedOp "fill" 0)))
  ∧ execOp (H:=example_host) "seed" 4 4 {["bg0"%string]} ∅ (JObj []) []
      (JObj [("bg", JStr "bg0")]%string) 0 g new_sampler
    = Throw (UnsupportedOp "" 0)
  ∧ execOp (H:=example_host) "seed" 4 4 {["bg0"%string]} ∅ (JObj []) []
      (JObj [("type", JStr "fill")]%string) 0 g new_sampler
    = Throw (UnsupportedOp "fill" 0).
Proof.
  intros run g. split; [|split; [|split]].
  - apply (proj1 (ops_entry_skipped_or_rejected (H:=example_host) "seed" 4 4 {["bg0"%string]} ∅
                    (JObj []) [] (JNum 3) [] 0 g new_sampler)).
    reflexivity.
  - apply (proj1 (proj2 (ops_entry_skipped_or_rejected (H:=example_host) "seed" 4 4
                    {["bg0"%string]} ∅ (JObj []) []
                    (JObj [("type", JList [JStr "fill"])]%string)
                    [] 0 g new_sampler))); [reflexivity|reflexivity|discriminate..].
  - apply (proj1 (proj2 (proj2 (ops_entry_skipped_or_rejected (H:=example_host) "seed" 4 4
                    {["bg0"%string]} ∅ (JObj []) [] (JObj [("bg", JStr "bg0")]%string)
                    [] 0 g new_sampler)))); reflexivity.
  - apply (proj2 (proj2 (proj2 (ops_entry_skipped_or_rejected (H:=example_host) "seed" 4 4
                    {["bg0"%string]} ∅ (JObj []) [] (JObj [("type", JStr "fill")]%string)
                    [] 0 g new_sampler))) "fill"%string); [reflexivity|reflexivity|discriminate..].
Defined.

(** ** Reasoning about computations *)

Lemma rbind_inv {A B} (r : result A) (k : A → result B) (b : B) :
  r ≫= k = Ok b → ∃ a, r = Ok a ∧ k a = Ok b.
Proof. destruct r as [a|e]; [eauto|discriminate]. Qed.

Lemma bind_inv {A B} (m : M A) (k : A → M B) (s : sampler) (r : B * sampler) :
  (m ≫= k) s = Ok r → ∃ a s1, m s = Ok (a, s1) ∧ k a s1 = Ok r.
Proof.
  unfold mbind, M_bind. destruct (m s) as [[a s1]|e]; [eauto|discriminate].
Qed.

Lemma lift_inv {A} (r : result A) (s : sampler) (a : A) (s' : sampler) :
  lift r s = Ok (a, s') → r = Ok a ∧ s' = s.
Proof. unfold lift. destruct r; intros [= <- <-] || discriminate. done. Qed.

Lemma ret_inv {A} (a : A) (s : sampler) (a' : A) (s' : sampler) :
  ret a s = Ok (a', s') → a' = a ∧ s' = s.
Proof. by intros [= <- <-]. Qed.

Lemma assert_inv (c : bool) (msg : string) (u : unit) : assert c msg = Ok u → c = true.
Proof. unfold assert. by destruct c. Qed.

(** An invariant indexed by the loop counter holds when the loop ends. *)
Lemma for_range_ind {St : Type} (I : Z → St → Prop) (body : Z → St → M St) :
  ∀ (n : nat) (i : Z) (st : St) (s : sampler) (st' : St) (s' : sampler),
    (∀ j a s a' s', i ≤ j < i + Z.of_nat n → I j a → body j a s = Ok (a', s') → I (j + 1) a') →
    I i st →
    for_range n i body st s = Ok (st', s') →
    I (i + Z.of_nat n) st'.
Proof.
  induction n as [|n IH]; intros i st s st' s' Hbody Hi Hrun.
  - apply ret_inv in Hrun as [-> _]. by rewrite Z.add_0_r.
  - cbn [for_range] in Hrun. apply bind_inv in Hrun as (a & s1 & Hb & Hrest).
    replace (i + Z.of_nat (S n)) with (i + 1 + Z.of_nat n) by lia.
    eapply IH; [|eapply Hbody; [|exact Hi|exact Hb]; lia|exact Hrest].
    intros j b t b' t' Hj. apply Hbody. lia.
Qed.

(** An invariant that does not mention the counter. *)
Lemma for_range_preserves {St : Type} (I : St → Prop) (body : Z → St → M St)
    (n : nat) (i : Z) (st : St) (s : sampler) (st' : St) (s' : sampler) :
  (∀ j a s a' s', I a → body j a s = Ok (a', s') → I a') →
  I st → for_range n i body st s = Ok (st', s') → I st'.
Proof.
  intros Hbody Hi Hrun.
  apply (for_range_ind (λ _, I) body n i st s st' s'); eauto.
Qed.

(** ** The shape of the output *)

Section OutputShape.
Context `{Host}.
Variables (width height : Z) (whitelistExtra : string) (fallbackTiles : json).

Lemma composeRow_length g y row :
  composeRow width g y = Ok row → length row = Z.to_nat width.
Proof.
  unfold composeRow. destruct (bgGrid g !! y), (fgGrid g !! y); try discriminate.
  intros [= <-]. by rewrite length_map, length_seq.
Qed.

Lemma composeRows_shape g ys rows :
  composeRows width g ys = Ok rows →
  length rows = length ys ∧ Forall (λ row, length row = Z.to_nat width) rows.
Proof.
  revert rows. induction ys as [|y ys IH]; intros rows Hrows.
  - injection Hrows as <-. by split.
  - cbn [composeRows] in Hrows.
    apply rbind_inv in Hrows as (row & Hrow & Hrows).
    apply rbind_inv in Hrows as (rest & Hrest & [= <-]).
    destruct (IH _ Hrest) as [Hlen Hall]. split; [cbn; by rewrite Hlen|].
    constructor; [by eapply composeRow_length|done].
Qed.

(** What a run that returns an output went through. *)
Lemma generate_ok_inv spec reference out :
  (generate width height whitelistExtra fallbackTiles spec reference).2 = Ok out →
  let spec1 := prepareSpec width height fallbackTiles spec in
  let tiles := sanitizeTiles whitelistExtra (Js.get spec1 "tiles") in
  let spec2 := Js.set spec1 "tiles" tiles in
  ∃ bgIds fgIds g s,
    validateTiles (Js.get spec1 "tiles") = Ok (bgIds, fgIds)
    ∧ (runOps reference width height bgIds fgIds (specLayers spec2)
         (Noise.makeValueNoise2D (xfnv1a reference)) (specOps spec2) 0
         (newGrids width height (defaultBg tiles)) new_sampler).2 = Ok (g, s)
    ∧ composeCells width height g = Ok (area_cells out)
    ∧ out_tiles out = tiles ∧ area_width out = width ∧ area_height out = height.
Proof.
  intros Hout spec1 tiles spec2. unfold generate in Hout. fold spec1 in Hout.
  destruct (validateTiles (Js.get spec1 "tiles")) as [[bgIds fgIds]|e]; [|discriminate].
  fold tiles spec2 in Hout.
  destruct (checkLimits (specLayers spec2) (specOps spec2)); [|discriminate].
  destruct (runOps _ _ _ _ _ _ _ _ _ _ _) as [ops' r] eqn:Hrun.
  cbn [snd] in Hout.
  apply rbind_inv in Hout as ([g s] & -> & Hout).
  apply rbind_inv in Hout as (cells & Hcells & [= <-]).
  exists bgIds, fgIds, g, s. rewrite Hrun. cbn [snd out_tiles area_width area_height area_cells].
  repeat split; done.
Qed.

(** The scenario of the specification: one background tile [bg0], no
    foreground tiles, no layers and the single op
    [{type:"paint", where:null, bg:"bg0"}]. *)
Definition scenarioSpec : json :=
  JObj [("tiles",
         JObj [("background",
                JList [JObj [("id", JStr "bg0"); ("name", JStr "bg0");
                             ("color", JStr "#101010"); ("walkable", JBool true)]]);
               ("foreground", JList [])]);
        ("layers", JObj []);
        ("ops", JList [JObj [("type", JStr "paint"); ("where", JNull);
                             ("bg", JStr "bg0")]])]%string.

(** The scenario spec asking for a grid of its own: [world] is [w]. *)
Definition scenarioFor (w : json) : json := Js.set scenarioSpec "world" w.

Lemma scenario_output w reference :
  (Generate whitelistExtra fallbackTiles (scenarioFor w) reference).2
  = Ok {| out_tiles := Js.get scenarioSpec "tiles";
          area_width := 200; area_height := 200;
          area_cells := replicate 200 (replicate 200 (JStr "bg0", JNull)) |}.
Proof.
  unfold Generate, generate.
  change (prepareSpec 200 200 fallbackTiles (scenarioFor w))
    with (prepareSpec 200 200 fallbackTiles scenarioSpec).
  generalize (Noise.makeValueNoise2D (xfnv1a reference)). intros perm.
  vm_compute. reflexivity.
Qed.
End OutputShape.

(** The scenario on a requested 4 by 4 grid. *)
Definition smallWorld : json :=
  JObj [("width", JNum 4); ("height", JNum 4); ("metersPerCell", JNum 1)]%string.

(** C3, as stated, fails: for the scenario spec on a requested 4 by 4 grid
    the run returns a 200 by 200 area, not a 4 by 4 one. *)
Lemma generate_size_counterexample :
  Js.get (scenarioFor smallWorld) "world" = smallWorld
  ∧ ∃ out, (Generate (H:=example_host) "" JUndef (scenarioFor smallWorld) "seed").2 = Ok out
           ∧ area_width out = 200 ∧ area_height out = 200
           ∧ length (area_cells out) = 200%nat
           ∧ area_width out ≠ 4.
Proof.
  split; [reflexivity|]. eexists. split; [apply scenario_output|].
  cbn [area_width area_height area_cells]. rewrite length_replicate. done.
Qed.

(** C3 (amended): the output carries the grid size of the run, which is the
    constant 200 by 200 of [Generate] whatever [world] the spec asks for:
    [area.width = 200], [area.height = 200] and [cells] has exactly 200 rows
    of exactly 200 entries.  For the scenario spec (one background tile
    [bg0], no foreground tiles, no layers, the single op
    [{type:"paint", where:null, bg:"bg0"}]) the run returns, whatever the
    seed and the grid asked for, the 200 by 200 array whose every entry is
    [["bg0", null]]. *)
Theorem generate_area_shape `{Host} (whitelistExtra : string) (fallbackTiles : json) :
  (∀ spec reference out,
     (Generate whitelistExtra fallbackTiles spec reference).2 = Ok out →
     area_width out = 200 ∧ area_height out = 200
     ∧ length (area_cells out) = 200%nat
     ∧ Forall (λ row, length row = 200%nat) (area_cells out))
  ∧ (∀ world reference,
     (Generate whitelistExtra fallbackTiles (scenarioFor world) reference).2
     = Ok {| out_tiles := Js.get scenarioSpec "tiles";
             area_width := 200; area_height := 200;
             area_cells := replicate 200 (replicate 200 (JStr "bg0", JNull)) |}).
Proof.
  split; [|apply scenario_output].
  intros spec reference out Hout. unfold Generate in Hout.
  destruct (generate_ok_inv _ _ _ _ _ _ _ Hout)
    as (bgIds & fgIds & g & s & _ & _ & Hcells & _ & Hw & Hh).
  apply composeRows_shape in Hcells as [Hlen Hrows].
  rewrite length_seq in Hlen. done.
Qed.

Lemma generate_area_shape_witness :
  let out := {| out_tiles := Js.get scenarioSpec "tiles";
                area_width := 200; area_height := 200;
                area_cells := replicate 200 (replicate 200 (JStr "bg0", JNull)) |} in
  (Generate (H:=example_host) "" JUndef (scenarioFor smallWorld) "seed").2 = Ok out
  ∧ area_width out = 200 ∧ area_height out = 200
  ∧ length (area_cells out) = 200%nat
  ∧ Forall (λ row, length row = 200%nat) (area_cells out).
Proof.
  intros out.
  pose proof (proj2 (generate_area_shape (H:=example_host) "" JUndef) smallWorld "seed") as Hrun.
  split; [exact Hrun|].
  exact (proj1 (generate_area_shape (H:=example_host) "" JUndef)
           (scenarioFor smallWorld) "seed" out Hrun).
Defined.

(** ** Own properties *)

Lemma assoc_set_eq k v l : Js.assoc k (Js.assoc_set k v l) = v.
Proof.
  induction l as [|[k' v'] l IH]; cbn.
  - by rewrite String.eqb_refl.
  - destruct (String.eqb k k') eqn:E; cbn; [by rewrite String.eqb_refl|by rewrite E].
Qed.

Lemma assoc_set_ne k k' v l : k ≠ k' → Js.assoc k' (Js.assoc_set k v l) = Js.assoc k' l.
Proof.
  intros Hne. induction l as [|[k0 v0] l IH]; cbn.
  - apply String.eqb_neq in Hne. rewrite String.eqb_sym in Hne. by rewrite Hne.
  - destruct (String.eqb k k0) eqn:E; cbn.
    + apply String.eqb_eq in E as <-.
      apply String.eqb_neq in Hne. rewrite String.eqb_sym in Hne. by rewrite Hne.
    + by rewrite IH.
Qed.

Lemma get_set_ne o k k' v : k ≠ k' → Js.get (Js.set o k v) k' = Js.get o k'.
Proof. intros Hne. destruct o; cbn; try done; by apply assoc_set_ne. Qed.

Lemma get_set_eq o k v : Js.is_object o = true → Js.get (Js.set o k v) k = v.
Proof. destruct o; cbn; try done; intros _; apply assoc_set_eq. Qed.

Lemma is_object_set o k v : Js.is_object (Js.set o k v) = Js.is_object o.
Proof. by destruct o. Qed.

(** ** The id sets of the validator *)

(** The [id] fields of the tiles of a list. *)
Definition tile_ids (tiles : list json) : list json := map (λ t, Js.get t "id") tiles.

Lemma uniqIds_from_spec kind list : ∀ s s',
  uniqIds_from s list kind = Ok s' →
  ∀ id, id ∈ s' ↔ id ∈ s ∨ JStr id ∈ tile_ids list.
Proof.
  induction list as [|t list IH]; intros s s' Hs id.
  - injection Hs as <-. cbn. rewrite elem_of_nil. tauto.
  - cbn [uniqIds_from] in Hs. apply rbind_inv in Hs as (_ & _ & Hs).
    destruct (Js.get t "id") as [| | | |tid| |] eqn:Hid; try discriminate.
    apply rbind_inv in Hs as (_ & _ & Hs). apply rbind_inv in Hs as (_ & _ & Hs).
    rewrite (IH _ _ Hs id). cbn. rewrite Hid, elem_of_cons, elem_of_union, elem_of_singleton.
    split; [intros [[->|?]|?]|intros [?|[[= ->]|?]]]; tauto.
Qed.

Lemma uniqIds_spec kind list s :
  uniqIds list kind = Ok s → ∀ id, id ∈ s ↔ JStr id ∈ tile_ids list.
Proof.
  intros Hs id. rewrite (uniqIds_from_spec _ _ _ _ Hs id), elem_of_empty. tauto.
Qed.

Lemma has_id_spec ids v : has_id ids v = true ↔ ∃ id, v = JStr id ∧ id ∈ ids.
Proof.
  destruct v; cbn; try (split; [discriminate|intros (? & [=] & _)]).
  rewrite bool_decide_eq_true. split; [eauto|by intros (? & [= <-] & ?)].
Qed.

Lemma validateTiles_spec tiles bgIds fgIds :
  validateTiles tiles = Ok (bgIds, fgIds) →
  (∀ id, id ∈ bgIds ↔ JStr id ∈ tile_ids (Js.elements (Js.get tiles "background")))
  ∧ (∀ id, id ∈ fgIds ↔ JStr id ∈ tile_ids (Js.elements (Js.get tiles "foreground")))
  ∧ has_id bgIds (defaultBg tiles) = true
  ∧ Js.is_array (Js.get tiles "foreground") = true
  ∧ Js.is_object tiles = true.
Proof.
  unfold validateTiles. intros Hv.
  apply rbind_inv in Hv as (_ & Hobj%assert_inv & Hv).
  apply rbind_inv in Hv as (_ & Hne%assert_inv & Hv).
  apply rbind_inv in Hv as (_ & Hfg%assert_inv & Hv).
  apply rbind_inv in Hv as (_ & _ & Hv). apply rbind_inv in Hv as (_ & _ & Hv).
  apply rbind_inv in Hv as (b & Hb & Hv). apply rbind_inv in Hv as (f & Hf & [= <- <-]).
  split; [by apply uniqIds_spec with "background"%string|].
  split; [by apply uniqIds_spec with "foreground"%string|]. split; [|done].
  clear Hobj. apply andb_true_iff in Hne as [Harr Hlen].
  unfold defaultBg. destruct (Js.get tiles "background") as [| | | | |e named|]; try done.
  cbn in Hlen, Hb |- *. destruct e as [|t e]; [done|]. cbn.
  unfold uniqIds in Hb. cbn [uniqIds_from] in Hb.
  apply rbind_inv in Hb as (_ & _ & Hb).
  destruct (Js.get t "id") as [| | | |tid| |] eqn:Hid; try discriminate.
  apply rbind_inv in Hb as (_ & _ & Hb). apply rbind_inv in Hb as (_ & _ & Hb).
  cbn. rewrite bool_decide_eq_true.
  apply (uniqIds_from_spec _ _ _ _ Hb). left. set_solver.
Qed.

(** ** Id integrity of the grids *)

Lemma foldl_preserves {A B} (I : A → Prop) (f : A → B → A) (l : list B) (a : A) :
  (∀ a b, I a → I (f a b)) → I a → I (foldl f a l).
Proof. intros Hf. revert a. induction l; cbn; eauto. Qed.

Lemma nth_preserves {A} (P : A → Prop) (l : list A) (d : A) (i : nat) :
  Forall P l → P d → P (nth i l d).
Proof.
  intros Hl Hd. revert i. induction Hl; intros [|i]; cbn; eauto.
Qed.

Section IdIntegrity.
Context `{Host}.
Variables (reference : string) (width height : Z).
Variables (bgIds fgIds : gset string) (layers : json) (perm : list Z).

(** A background cell holds a known background id; a foreground cell holds
    null or a known foreground id. *)
Definition bg_ok (v : json) : Prop := has_id bgIds v = true.
Definition fg_ok (v : json) : Prop := v = JNull ∨ has_id fgIds v = true.

(** The first [width] cells of a row satisfy [P]. *)
Definition row_ok (P : json → Prop) (row : list json) : Prop :=
  (Z.to_nat width ≤ length row)%nat
  ∧ ∀ i, (i < Z.to_nat width)%nat → P (nth i row JUndef).

Definition grids_ok (g : grids) : Prop :=
  Forall (row_ok bg_ok) (bgGrid g) ∧ Forall (row_ok fg_ok) (fgGrid g).

Lemma arr_set_ok P row i v : P v → row_ok P row → row_ok P (arr_set row i v).
Proof.
  intros Hv [Hlen Hrow]. unfold arr_set.
  destruct (i <? 0); [done|].
  destruct (Z.to_nat i <? length row)%nat eqn:Hin.
  - apply Nat.ltb_lt in Hin. split; [by rewrite length_insert|].
    intros j Hj. rewrite nth_lookup.
    destruct (decide (j = Z.to_nat i)) as [->|Hne].
    + by rewrite list_lookup_insert_eq.
    + rewrite list_lookup_insert_ne by done. rewrite <- nth_lookup. auto.
  - split; [rewrite length_app; lia|].
    intros j Hj. rewrite app_nth1 by lia. auto.
Qed.

Lemma grid_set_ok P grid x y v grid' :
  P v → Forall (row_ok P) grid → grid_set grid x y v = Ok grid' →
  Forall (row_ok P) grid'.
Proof.
  intros Hv Hgrid. unfold grid_set. destruct (y <? 0); [discriminate|].
  destruct (grid !! Z.to_nat y) as [row|] eqn:Hrow; [|discriminate].
  intros [= <-]. apply Forall_insert; [done|].
  apply arr_set_ok; [done|]. by eapply Forall_lookup_1.
Qed.

Lemma set_bg_ok g x y v g' :
  bg_ok v → grids_ok g → set_bg g x y v = Ok g' → grids_ok g'.
Proof.
  intros Hv [Hb Hf]. unfold set_bg. intros (b & Hset & [= <-])%rbind_inv.
  split; [by eapply grid_set_ok|done].
Qed.

Lemma set_fg_ok g x y v g' :
  fg_ok v → grids_ok g → set_fg g x y v = Ok g' → grids_ok g'.
Proof.
  intros Hv [Hb Hf]. unfold set_fg. intros (f & Hset & [= <-])%rbind_inv.
  split; [done|by eapply grid_set_ok].
Qed.

Lemma requireBg_ok id ctx u : requireBg bgIds id ctx = Ok u → bg_ok id.
Proof. apply assert_inv. Qed.

Lemma requireFgOrNull_ok id ctx u : requireFgOrNull fgIds id ctx = Ok u → fg_ok id.
Proof.
  unfold requireFgOrNull, fg_ok.
  destruct id; try (intros ?%assert_inv; by right). by left.
Qed.

(** *** paint *)

Lemma paintCell_ok op y x g s g' s' :
  (Js.nullish (Js.get op "bg") = false → bg_ok (Js.get op "bg")) →
  (Js.is_undefined (Js.get op "fg") = false → fg_ok (Js.get op "fg")) →
  grids_ok g →
  paintCell reference width height layers perm op y x g s = Ok (g', s') →
  grids_ok g'.
Proof.
  intros Hbg Hfg Hg. unfold paintCell.
  intros (hit & s1 & _ & Hrest)%bind_inv.
  destruct hit; cbn [negb] in Hrest; [|by apply ret_inv in Hrest as [-> _]].
  apply bind_inv in Hrest as (g1 & s2 & Hb%lift_inv & Hf%lift_inv).
  destruct Hb as [Hb _], Hf as [Hf _].
  assert (Hg1 : grids_ok g1).
  { destruct (Js.nullish (Js.get op "bg")); cbn [negb] in Hb.
    - by injection Hb as <-.
    - eapply set_bg_ok; eauto. }
  destruct (Js.is_undefined (Js.get op "fg")); cbn [negb] in Hf.
  - by injection Hf as <-.
  - eapply set_fg_ok; eauto.
Qed.

Lemma paint_ok op g s g' s' :
  grids_ok g →
  paint reference width height bgIds fgIds layers perm op g s = Ok (g', s') →
  grids_ok g'.
Proof.
  intros Hg. unfold paint.
  intros (u1 & s1 & [Hbg _]%lift_inv & Hrest)%bind_inv.
  apply bind_inv in Hrest as (u2 & s2 & [Hfg _]%lift_inv & Hloop).
  eapply (for_range_preserves grids_ok); [|exact Hg|exact Hloop].
  intros y a t a' t' Ha Hrow.
  eapply (for_range_preserves grids_ok); [|exact Ha|exact Hrow].
  intros x b u b' u' Hb. apply paintCell_ok; [| |done].
  - intros Hn. rewrite Hn in Hbg. cbn [negb] in Hbg. by eapply requireBg_ok.
  - intros Hn. rewrite Hn in Hfg. cbn [negb] in Hfg. by eapply requireFgOrNull_ok.
Qed.

(** *** roads.grid *)

Lemma roadsCell_ok op ox spacing thickness interId interP interSeed y gy x g s g' s' :
  bg_ok (Js.get op "bg") → fg_ok interId → grids_ok g →
  roadsCell reference width height layers perm op ox spacing thickness
    interId interP interSeed y gy x g s = Ok (g', s') →
  grids_ok g'.
Proof.
  intros Hbg Hfg Hg. unfold roadsCell.
  intros (hit & s1 & _ & Hrest)%bind_inv.
  destruct hit; cbn [negb] in Hrest; [|by apply ret_inv in Hrest as [-> _]].
  destruct (negb _); [by apply ret_inv in Hrest as [-> _]|].
  apply bind_inv in Hrest as (g1 & s2 & [Hb _]%lift_inv & Hrest).
  assert (Hg1 : grids_ok g1) by (eapply set_bg_ok; eauto).
  destruct (_ && _); [|by apply ret_inv in Hrest as [-> _]].
  destruct (_ <? _)%float; [|by apply ret_inv in Hrest as [-> _]].
  apply lift_inv in Hrest as [Hf _]. eapply set_fg_ok; eauto.
Qed.

Lemma roadsGrid_ok op g s g' s' :
  grids_ok g →
  roadsGrid reference width height bgIds fgIds layers perm op g s = Ok (g', s') →
  grids_ok g'.
Proof.
  intros Hg. unfold roadsGrid.
  intros (u1 & s1 & [Hbg%requireBg_ok _]%lift_inv & Hrest)%bind_inv.
  apply bind_inv in Hrest as ([[interId interP] interSeed] & s2 & Hinter & Hloop).
  assert (Hfg : fg_ok interId).
  { destruct (Js.is_object _).
    - apply bind_inv in Hinter as (u3 & s3 & [Hfg%requireFgOrNull_ok _]%lift_inv & Hret).
      by apply ret_inv in Hret as [[= -> _ _] _].
    - apply ret_inv in Hinter as [[= -> _ _] _]. by left. }
  eapply (for_range_preserves grids_ok); [|exact Hg|exact Hloop].
  intros y a t a' t' Ha Hrow.
  eapply (for_range_preserves grids_ok); [|exact Ha|exact Hrow].
  intros x b u b' u' Hb. by apply roadsCell_ok.
Qed.

(** *** stamp.scatter *)

(** The tile references of a prefab are known ids. *)
Definition prefab_ok (pf : json) : Prop :=
  (Js.nullish (Js.get pf "bg") = false → bg_ok (Js.get pf "bg"))
  ∧ (Js.nullish (Js.get pf "fg") = false → fg_ok (Js.get pf "fg")).

Lemma validatePrefab_ok pf pf' u :
  validatePrefab bgIds fgIds pf = (pf', Ok u) → prefab_ok pf'.
Proof.
  unfold validatePrefab. destruct (negb (Js.is_object pf)); [discriminate|].
  set (pf2 := Js.set (Js.set pf "w" _) "h" _).
  destruct (_ ;; _) as [[]|e] eqn:Hchecks; [|discriminate].
  intros [= <-]. apply rbind_inv in Hchecks as (u0 & Hbg & Hfg).
  split; rewrite get_set_ne by done; intros Hn; rewrite Hn in *; cbn [negb] in *.
  - by eapply requireBg_ok.
  - by eapply requireFgOrNull_ok.
Qed.

Lemma validatePrefabs_ok prefabs : ∀ prefabs' u,
  validatePrefabs bgIds fgIds prefabs = (prefabs', Ok u) → Forall prefab_ok prefabs'.
Proof.
  induction prefabs as [|pf rest IH]; intros prefabs' u; cbn [validatePrefabs].
  - by intros [= <-].
  - destruct (validatePrefab bgIds fgIds pf) as [pf' [[]|e]] eqn:Hpf; [|discriminate].
    destruct (validatePrefabs bgIds fgIds rest) as [rest' r] eqn:Hrest.
    intros [= <- ->]. constructor; [by eapply validatePrefab_ok|by eapply IH].
Qed.

Lemma scatterPrefabs_ok op prefabs u :
  scatterPrefabs bgIds fgIds op = (prefabs, Ok u) → Forall prefab_ok prefabs.
Proof.
  unfold scatterPrefabs. destruct (_ && _); [apply validatePrefabs_ok|discriminate].
Qed.

Lemma prefab_ok_undef : prefab_ok JUndef.
Proof. split; discriminate. Qed.

Lemma pick_scan_elem items t it : pick_scan items t = Some it → it ∈ items.
Proof.
  revert t. induction items as [|a items IH]; intros t; cbn; [done|].
  destruct (_ <=? _)%float; [intros [= <-]; left|intros ?%IH; by right].
Qed.

Lemma pickWeighted_ok h items :
  Forall prefab_ok items → prefab_ok (pickWeighted h items).1.
Proof.
  intros Hitems. unfold pickWeighted.
  destruct (_ <=? _)%float; [apply nth_preserves; auto using prefab_ok_undef|].
  destruct (xfnv1a_next h) as [r h'].
  destruct (pick_scan items _) as [it|] eqn:Hscan; cbn.
  - apply pick_scan_elem in Hscan. by eapply Forall_forall in Hitems.
  - apply nth_preserves; auto using prefab_ok_undef.
Qed.

Lemma stampBg_ok g x0 y0 w h v g' :
  bg_ok v → grids_ok g → stampBg g x0 y0 w h v = Ok g' → grids_ok g'.
Proof.
  intros Hv Hg. unfold stampBg. intros Hfold.
  cut (∀ a, foldl (λ r y, foldl (λ r x, g ← r; set_bg g x y v) r (span x0 w)) (Ok g)
              (span y0 h) = Ok a → grids_ok a); [eauto|].
  apply (foldl_preserves (λ r, ∀ a, r = Ok a → grids_ok a)); [|by intros a [= <-]].
  intros r y Hr. apply (foldl_preserves (λ r, ∀ a, r = Ok a → grids_ok a)); [|done].
  intros r' x Hr' a (b & -> & Hset)%rbind_inv.
  eapply set_bg_ok; [exact Hv|by apply Hr'|exact Hset].
Qed.

Lemma scatterAttempt_ok where_ prefabs st s st' s' :
  Forall prefab_ok prefabs → grids_ok (sc_grids st) →
  scatterAttempt reference width height layers perm where_ prefabs st s = Ok (st', s') →
  grids_ok (sc_grids st').
Proof.
  intros Hpf Hg. unfold scatterAttempt.
  pose proof (pickWeighted_ok (sc_rng st) prefabs Hpf) as [Hbg Hfg].
  destruct (pickWeighted (sc_rng st) prefabs) as [pf rng]. cbn [fst] in Hbg, Hfg.
  destruct (xfnv1a_next rng) as [r1 rng1]. destruct (xfnv1a_next rng1) as [r2 rng2].
  intros (hit & s1 & _ & Hrest)%bind_inv.
  destruct hit; cbn [negb] in Hrest; [|by apply ret_inv in Hrest as [-> _]].
  destruct (negb (canPlace _ _ _ _ _ _ _)); [by apply ret_inv in Hrest as [-> _]|].
  apply bind_inv in Hrest as (g1 & s2 & [Hb _]%lift_inv & Hrest).
  apply bind_inv in Hrest as (g2 & s3 & [Hf _]%lift_inv & Hret).
  apply ret_inv in Hret as [-> _]. cbn [sc_grids].
  assert (Hg1 : grids_ok g1).
  { destruct (Js.nullish (Js.get pf "bg")); cbn [negb] in Hb.
    - by injection Hb as <-.
    - eapply stampBg_ok; eauto. }
  destruct (Js.nullish (Js.get pf "fg")); cbn [negb] in Hf.
  - by injection Hf as <-.
  - eapply set_fg_ok; eauto.
Qed.

Lemma scatterLoop_ok where_ prefabs count : ∀ n st s st' s',
  Forall prefab_ok prefabs → grids_ok (sc_grids st) →
  scatterLoop reference width height layers perm n count where_ prefabs st s = Ok (st', s') →
  grids_ok (sc_grids st').
Proof.
  induction n as [|n IH]; intros st s st' s' Hpf Hg; cbn [scatterLoop].
  - by intros [-> _]%ret_inv.
  - destruct (_ <? _); [|by intros [-> _]%ret_inv].
    intros (st1 & s1 & Hstep & Hrest)%bind_inv.
    eapply IH; [done| |exact Hrest]. by eapply scatterAttempt_ok.
Qed.

Lemma stampScatter_ok op g s g' s' :
  grids_ok g →
  stampScatter reference width height bgIds fgIds layers perm op g s = Ok (g', s') →
  grids_ok g'.
Proof.
  intros Hg. unfold stampScatter.
  destruct (scatterPrefabs bgIds fgIds op) as [prefabs checked] eqn:Hpf.
  intros (u1 & s1 & [-> _]%lift_inv & Hrest)%bind_inv.
  apply bind_inv in Hrest as (st & s2 & Hrun & [-> _]%ret_inv).
  eapply scatterLoop_ok; [by eapply scatterPrefabs_ok| |exact Hrun]. done.
Qed.

(** *** The loop over the ops *)

Lemma execOp_ok op i g s g' s' :
  grids_ok g →
  execOp reference width height bgIds fgIds layers perm op i g s = Ok (g', s') →
  grids_ok g'.
Proof.
  intros Hg. unfold execOp.
  destruct (negb (Js.is_object op)); [by intros [-> _]%ret_inv|].
  destruct (String.eqb _ "paint"); [by apply paint_ok|].
  destruct (String.eqb _ "roads.grid"); [by apply roadsGrid_ok|].
  destruct (String.eqb _ "stamp.scatter"); [by apply stampScatter_ok|].
  discriminate.
Qed.

Lemma runOps_ok ops : ∀ i g s g' s',
  grids_ok g →
  (runOps reference width height bgIds fgIds layers perm ops i g s).2 = Ok (g', s') →
  grids_ok g'.
Proof.
  induction ops as [|op ops IH]; intros i g s g' s' Hg; cbn [runOps].
  - by intros [= <- _].
  - destruct (execOp _ _ _ _ _ _ _ op i g s) as [[g1 s1]|e] eqn:Hop; [|discriminate].
    destruct (runOps _ _ _ _ _ _ _ ops (i + 1) g1 s1) as [rest' r] eqn:Hrest.
    cbn [snd]. intros ->. eapply (IH (i + 1) g1 s1); [by eapply execOp_ok|].
    by rewrite Hrest.
Qed.

Lemma newGrids_ok v : bg_ok v → grids_ok (newGrids width height v).
Proof.
  intros Hv. split; cbn; apply Forall_replicate; split;
    rewrite ?length_replicate; try done; intros i Hi;
    rewrite nth_lookup, lookup_replicate_2 by done; [done|by left].
Qed.

Lemma composeCells_ok g cells :
  grids_ok g → composeCells width height g = Ok cells →
  Forall (Forall (λ c : json * json, bg_ok c.1 ∧ fg_ok c.2)) cells.
Proof.
  intros [Hb Hf]. unfold composeCells. generalize (seq 0 (Z.to_nat height)).
  intros ys. revert cells. induction ys as [|y ys IH]; intros cells; cbn [composeRows].
  - by intros [= <-].
  - intros (row & Hrow & Hrest)%rbind_inv.
    apply rbind_inv in Hrest as (rows & Hrows & [= <-]).
    constructor; [|by apply IH]. unfold composeRow in Hrow.
    destruct (bgGrid g !! y) as [rowBg|] eqn:Hy1; [|discriminate].
    destruct (fgGrid g !! y) as [rowFg|] eqn:Hy2; [|discriminate].
    injection Hrow as <-. apply Forall_map, Forall_forall.
    intros x [_ Hx]%elem_of_seq. cbn in Hx.
    destruct (Forall_lookup_1 _ _ _ _ Hb Hy1) as [_ Hbg].
    destruct (Forall_lookup_1 _ _ _ _ Hf Hy2) as [_ Hfg].
    split; cbn; [by apply Hbg|].
    specialize (Hfg x Hx). destruct (nth x rowFg JUndef); cbn; try done. by left.
Qed.

End IdIntegrity.

Section Sanitize.
Variable whitelistExtra : string.

Lemma sanitizeSymbol_id t : Js.get (sanitizeSymbol whitelistExtra t) "id" = Js.get t "id".
Proof.
  unfold sanitizeSymbol. destruct (negb (Js.truthy t)); [done|].
  destruct (Js.get t "symbol") as [| | | |[|ch rest]| |]; try done.
  destruct (negb (allowed whitelistExtra ch)); [by rewrite get_set_ne|].
  destruct (1 <? _); [by rewrite get_set_ne|done].
Qed.

Lemma sanitizeTiles_background tiles :
  Js.get (sanitizeTiles whitelistExtra tiles) "background" = Js.get tiles "background".
Proof.
  unfold sanitizeTiles. destruct (Js.get tiles "foreground"); try done.
  by rewrite get_set_ne.
Qed.

Lemma sanitizeTiles_foreground_ids tiles :
  Js.is_object tiles = true →
  tile_ids (Js.elements (Js.get (sanitizeTiles whitelistExtra tiles) "foreground"))
  = tile_ids (Js.elements (Js.get tiles "foreground")).
Proof.
  intros Hobj. unfold sanitizeTiles.
  destruct (Js.get tiles "foreground") as [| | | | |e named|] eqn:Hfg; rewrite ?Hfg; try done.
  rewrite get_set_eq by done. cbn. unfold tile_ids. rewrite map_map.
  apply map_ext. intros t. apply sanitizeSymbol_id.
Qed.
End Sanitize.

(** A cell holds the id of a background tile of the output and either null
    or the id of a foreground tile of the output. *)
Definition cell_ok (tiles : json) (c : json * json) : Prop :=
  (∃ id, c.1 = JStr id ∧ JStr id ∈ tile_ids (Js.elements (Js.get tiles "background")))
  ∧ (c.2 = JNull
     ∨ ∃ id, c.2 = JStr id ∧ JStr id ∈ tile_ids (Js.elements (Js.get tiles "foreground"))).

(** C2: in every output, the background id of every cell is the id of one of
    the background tiles and its foreground id is null or the id of one of
    the foreground tiles (the ids are those of the validated tiles, which the
    output carries). *)
Theorem generate_id_integrity `{Host} (width height : Z) (whitelistExtra : string)
    (fallbackTiles spec : json) (reference : string) (out : WorldOutput) :
  (generate width height whitelistExtra fallbackTiles spec reference).2 = Ok out →
  Forall (Forall (cell_ok (out_tiles out))) (area_cells out).
Proof.
  intros Hout.
  destruct (generate_ok_inv _ _ _ _ _ _ _ Hout)
    as (bgIds & fgIds & g & s & Hv & Hrun & Hcells & Htiles & _ & _).
  destruct (validateTiles_spec _ _ _ Hv) as (Hbg & Hfg & Hdef & _ & Hobj).
  assert (Hg : grids_ok width bgIds fgIds g).
  { eapply runOps_ok; [|exact Hrun]. apply newGrids_ok.
    unfold bg_ok, defaultBg. rewrite sanitizeTiles_background. exact Hdef. }
  pose proof (composeCells_ok _ _ _ _ _ _ Hg Hcells) as Hok.
  rewrite Htiles. eapply Forall_impl; [exact Hok|].
  intros row Hrow. eapply Forall_impl; [exact Hrow|].
  intros [bg fg] [Hb Hf]. cbn in Hb, Hf. split; cbn.
  - apply has_id_spec in Hb as (id & -> & Hid). exists id. split; [done|].
    rewrite sanitizeTiles_background. by apply Hbg.
  - destruct Hf as [->|Hf]; [by left|right].
    apply has_id_spec in Hf as (id & -> & Hid). exists id. split; [done|].
    rewrite sanitizeTiles_foreground_ids by done. by apply Hfg.
Qed.

(** A spec that exercises the three operations. *)
Definition demoSpec : json :=
  JObj [("tiles",
         JObj [("background",
                JList [JObj [("id", JStr "bg0"); ("name", JStr "ground");
                             ("color", JStr "#101010"); ("walkable", JBool true)];
                       JObj [("id", JStr "road"); ("name", JStr "road");
                             ("color", JStr "#808080"); ("walkable", JBool true)]]);
               ("foreground",
                JList [JObj [("id", JStr "tree"); ("name", JStr "tree");
                             ("symbol", JStr "T"); ("color", JStr "#00aa00");
                             ("walkable", JBool false)]])]);
        ("layers", JObj [("n", JObj [("type", JStr "fbm"); ("scale", JNum 0.25)])]);
        ("ops",
         JList [JObj [("type", JStr "paint");
                      ("where", JObj [("layerGt", JList [JStr "n"; JNum 0.5])]);
                      ("fg", JStr "tree")];
                JObj [("type", JStr "roads.grid"); ("bg", JStr "road");
                      ("spacing", JNum 4); ("thickness", JNum 1)];
                JObj [("type", JStr "stamp.scatter"); ("count", JNum 3);
                      ("prefabs", JList [JObj [("w", JNum 2); ("h", JNum 2);
                                               ("bg", JStr "bg0"); ("fg", JStr "tree")]])]])]%string.

Lemma generate_id_integrity_witness :
  match (generate (H:=example_host) 8 8 "" JUndef demoSpec "seed").2 with
  | Ok out => Forall (Forall (cell_ok (out_tiles out))) (area_cells out)
  | Throw _ => False
  end.
Proof.
  destruct (generate (H:=example_host) 8 8 "" JUndef demoSpec "seed").2 as [out|e] eqn:E.
  - exact (generate_id_integrity (H:=example_host) 8 8 "" JUndef demoSpec "seed" out E).
  - vm_compute in E. discriminate E.
Defined.

(** ** Cells of a grid *)

(** [grid[y][x]] *)
Definition cell_at (grid : list (list json)) (x y : Z) : json :=
  nth (Z.to_nat x) (nth (Z.to_nat y) grid []) JUndef.

(** A grid as allocated: [height] rows of [width] cells. *)
Definition wf_grid (width height : Z) (grid : list (list json)) : Prop :=
  length grid = Z.to_nat height ∧ Forall (λ row, length row = Z.to_nat width) grid.

Lemma wf_newGrids width height v :
  wf_grid width height (bgGrid (newGrids width height v))
  ∧ wf_grid width height (fgGrid (newGrids width height v)).
Proof.
  split; (split; [apply length_replicate|apply Forall_replicate, length_replicate]).
Qed.

Lemma grid_set_spec width height grid x y v :
  wf_grid width height grid → 0 ≤ x < width → 0 ≤ y < height →
  ∃ grid', grid_set grid x y v = Ok grid'
    ∧ wf_grid width height grid'
    ∧ ∀ x' y', 0 ≤ x' → 0 ≤ y' →
        cell_at grid' x' y' = if (x' =? x) && (y' =? y) then v else cell_at grid x' y'.
Proof.
  intros [Hlen Hrows] Hx Hy. unfold grid_set.
  destruct (y <? 0) eqn:Hy0; [lia|].
  destruct (lookup_lt_is_Some_2 grid (Z.to_nat y)) as [row Hrow]; [lia|].
  rewrite Hrow. eexists. split; [done|].
  assert (Hrl : length row = Z.to_nat width) by (by eapply Forall_lookup_1 in Hrows).
  assert (Hset : arr_set row x v = <[Z.to_nat x := v]> row).
  { unfold arr_set. destruct (x <? 0) eqn:Hx0; [lia|].
    destruct (Z.to_nat x <? length row)%nat eqn:Hin; [done|].
    apply Nat.ltb_ge in Hin. lia. }
  rewrite Hset. split.
  - split; [by rewrite length_insert|].
    apply Forall_insert; [done|]. by rewrite length_insert.
  - intros x' y' Hx' Hy'. unfold cell_at.
    destruct (y' =? y) eqn:Ey.
    + apply Z.eqb_eq in Ey as ->. rewrite !(nth_lookup _ (Z.to_nat y)).
      rewrite list_lookup_insert_eq, Hrow by lia. cbn.
      destruct (x' =? x) eqn:Ex; cbn.
      * apply Z.eqb_eq in Ex as ->. rewrite nth_lookup, list_lookup_insert_eq by lia. done.
      * apply Z.eqb_neq in Ex. rewrite !nth_lookup, list_lookup_insert_ne by lia. done.
    + apply Z.eqb_neq in Ey. rewrite andb_false_r.
      rewrite !(nth_lookup _ (Z.to_nat y')), list_lookup_insert_ne by lia. done.
Qed.

(** [((v - o) % spacing + spacing) % spacing] is the non-negative remainder. *)
Lemma wrap_mod v o spacing : 0 < spacing → wrap v o spacing = (v - o) mod spacing.
Proof.
  intros Hs. unfold wrap. set (a := v - o).
  pose proof (Z.rem_bound_abs a spacing ltac:(lia)) as Hb.
  assert (Hr : - spacing < Z.rem a spacing < spacing) by lia.
  rewrite Z.rem_mod_nonneg by lia.
  replace (Z.rem a spacing + spacing) with (Z.rem a spacing + 1 * spacing) by lia.
  rewrite Z.mod_add by lia.
  rewrite (Z.quot_rem' a spacing) at 2.
  rewrite Z.add_comm, Z.mul_comm, Z.mod_add by lia. done.
Qed.

(** A loop whose body always succeeds and leaves the sampler alone. *)
Lemma for_range_total {St : Type} (I : Z → St → Prop) (body : Z → St → M St) (s : sampler) :
  ∀ (n : nat) (i : Z) (st : St),
    (∀ j a, i ≤ j < i + Z.of_nat n → I j a → ∃ a', body j a s = Ok (a', s) ∧ I (j + 1) a') →
    I i st →
    ∃ st', for_range n i body st s = Ok (st', s) ∧ I (i + Z.of_nat n) st'.
Proof.
  induction n as [|n IH]; intros i st Hbody Hi.
  - exists st. rewrite Z.add_0_r. done.
  - destruct (Hbody i st ltac:(lia) Hi) as (a & Ha & Hia).
    destruct (IH (i + 1) a) as (st' & Hrun & Hst'); [|done|].
    { intros j b Hj. apply Hbody. lia. }
    exists st'. split.
    + cbn [for_range]. unfold mbind, M_bind. by rewrite Ha.
    + by replace (i + Z.of_nat (S n)) with (i + 1 + Z.of_nat n) by lia.
Qed.

(** ** roads.grid *)

Section Roads.
Context `{Host}.
Variables (reference : string) (width height : Z).
Variables (bgIds fgIds : gset string) (layers : json) (perm : list Z).

Lemma predTrue_absent pred x y s :
  Js.truthy pred = false →
  predTrue' reference width height layers perm pred x y s = Ok (true, s).
Proof.
  intros Hp. unfold predTrue', predTrue. cbn [predTrue_fuel]. by rewrite Hp.
Qed.

(** The cell is on a road line. *)
Definition on_road (ox oy spacing thickness x y : Z) : bool :=
  (wrap x ox spacing <? thickness) || (wrap y oy spacing <? thickness).

Definition wf_grids (g : grids) : Prop :=
  wf_grid width height (bgGrid g) ∧ wf_grid width height (fgGrid g).

Lemma roadsCell_spec op ox oy spacing thickness interId interP interSeed x y g s :
  Js.truthy (Js.get op "where") = false →
  wf_grids g → 0 ≤ x < width → 0 ≤ y < height →
  ∃ g', roadsCell reference width height layers perm op ox spacing thickness
          interId interP interSeed y (wrap y oy spacing) x g s = Ok (g', s)
    ∧ wf_grids g'
    ∧ ∀ x' y', 0 ≤ x' → 0 ≤ y' →
        cell_at (bgGrid g') x' y'
        = if (x' =? x) && (y' =? y) && on_road ox oy spacing thickness x y
          then Js.get op "bg" else cell_at (bgGrid g) x' y'.
Proof.
  intros Hw [Hb Hf] Hx Hy. unfold roadsCell, mbind, M_bind.
  rewrite predTrue_absent by done. cbn [negb]. fold (on_road ox oy spacing thickness x y).
  destruct (on_road ox oy spacing thickness x y); cbn [negb].
  - destruct (grid_set_spec width height (bgGrid g) x y (Js.get op "bg") Hb Hx Hy)
      as (b' & Hset & Hwf & Hcell).
    unfold set_bg. rewrite Hset. cbn.
    destruct (_ && _).
    + destruct (_ <? _)%float.
      * destruct (grid_set_spec width height (fgGrid g) x y interId Hf Hx Hy)
          as (f' & Hsetf & Hwff & _).
        unfold set_fg. cbn. rewrite Hsetf. cbn. eexists. split; [done|].
        split; [done|]. cbn [bgGrid]. intros x' y' Hx' Hy'. rewrite Hcell by done.
        by rewrite andb_true_r.
      * eexists. split; [done|]. split; [done|]. cbn [bgGrid]. intros x' y' Hx' Hy'.
        rewrite Hcell by done. by rewrite andb_true_r.
    + eexists. split; [done|]. split; [done|]. cbn [bgGrid]. intros x' y' Hx' Hy'.
      rewrite Hcell by done. by rewrite andb_true_r.
  - exists g. split; [done|]. split; [done|]. intros x' y' _ _. by rewrite andb_false_r.
Qed.

(** The two loops of [roads.grid] without a gate predicate: they end, and
    every cell on a road line holds [op.bg], every other cell what it held. *)
Lemma roadsLoops_spec op ox oy spacing thickness interId interP interSeed g s :
  Js.truthy (Js.get op "where") = false →
  wf_grids g →
  ∃ g', for_range (Z.to_nat height) 0
          (λ y g, for_range (Z.to_nat width) 0
                    (roadsCell reference width height layers perm op ox spacing thickness
                       interId interP interSeed y (wrap y oy spacing)) g) g s
        = Ok (g', s)
    ∧ wf_grids g'
    ∧ ∀ x y, 0 ≤ x < width → 0 ≤ y < height →
        cell_at (bgGrid g') x y
        = if on_road ox oy spacing thickness x y
          then Js.get op "bg" else cell_at (bgGrid g) x y.
Proof.
  intros Hw Hg.
  set (F := λ x y, on_road ox oy spacing thickness x y).
  destruct (for_range_total
    (λ j a, wf_grids a ∧ ∀ x y, 0 ≤ x < width → 0 ≤ y →
       cell_at (bgGrid a) x y
       = if (y <? j) && F x y then Js.get op "bg" else cell_at (bgGrid g) x y)
    (λ y g, for_range (Z.to_nat width) 0
              (roadsCell reference width height layers perm op ox spacing thickness
                 interId interP interSeed y (wrap y oy spacing)) g)
    s (Z.to_nat height) 0 g) as (g' & Hrun & Hg' & Hcells).
  - intros y a Hy [Ha Hcell].
    destruct (for_range_total
      (λ j b, wf_grids b ∧ ∀ x' y', 0 ≤ x' → 0 ≤ y' →
         cell_at (bgGrid b) x' y'
         = if (y' =? y) && (x' <? j) && F x' y' then Js.get op "bg"
           else cell_at (bgGrid a) x' y')
      (roadsCell reference width height layers perm op ox spacing thickness
         interId interP interSeed y (wrap y oy spacing))
      s (Z.to_nat width) 0 a) as (b & Hrow & Hb & Hrowcells).
    + intros x b Hx [Hb Hbc].
      destruct (roadsCell_spec op ox oy spacing thickness interId interP interSeed
                  x y b s Hw Hb) as (b' & Hstep & Hb' & Hstepc); [lia..|].
      exists b'. split; [done|]. split; [done|].
      intros x' y' Hx' Hy'. rewrite Hstepc, Hbc by done. unfold F.
      destruct (x' =? x) eqn:Ex, (y' =? y) eqn:Ey; cbn;
        repeat match goal with
               | E : (_ =? _) = true |- _ => apply Z.eqb_eq in E; subst
               | E : (_ =? _) = false |- _ => apply Z.eqb_neq in E
               end.
      * replace (x <? x + 1) with true by lia. replace (x <? x) with false by lia.
        cbn. by destruct (on_road _ _ _ _ _ _).
      * done.
      * replace (x' <? x + 1) with (x' <? x) by lia. done.
      * done.
    + split; [done|]. intros x' y' Hx' Hy'. by replace (x' <? 0) with false by lia; rewrite andb_false_r.
    + exists b. split; [done|]. split; [done|].
      intros x' y' Hx' Hy'. rewrite Hrowcells, Hcell by lia.
      rewrite Z2Nat.id by lia. replace (x' <? 0 + width) with true by lia.
      rewrite andb_true_r.
      destruct (y' =? y) eqn:Ey; cbn.
      * apply Z.eqb_eq in Ey as ->. replace (y <? y + 1) with true by lia.
        replace (y <? y) with false by lia. cbn. by destruct (F x' y).
      * apply Z.eqb_neq in Ey. by replace (y' <? y + 1) with (y' <? y) by lia.
  - split; [done|]. intros x y Hx Hy. by replace (y <? 0) with false by lia.
  - exists g'. split; [done|]. split; [done|].
    intros x y Hx Hy. rewrite Hcells by lia.
    rewrite Z2Nat.id by lia. by replace (y <? 0 + height) with true by lia.
Qed.

End Roads.

(** C7: a [roads.grid] op with spacing 20, thickness 2, origin [0,0] and no
    gate predicate sets to [op.bg] exactly the cells [(x, y)] of the grid
    with [x mod 20 < 2] or [y mod 20 < 2] and leaves the background of every
    other cell as it was; the op runs to its end when [op.bg] is a known
    background id and there is no marker for the intersections. *)
Theorem roads_grid_periodicity `{Host} (reference : string) (width height : Z)
    (bgIds fgIds : gset string) (layers : json) (perm : list Z)
    (op : json) (g : grids) (s : sampler) :
  Js.truthy (Js.get op "where") = false →
  Js.get op "spacing" = JNum 20 →
  Js.get op "thickness" = JNum 2 →
  Js.get op "origin" = JList [JNum 0; JNum 0] →
  wf_grids width height g →
  (∀ g' s',
     roadsGrid reference width height bgIds fgIds layers perm op g s = Ok (g', s') →
     ∀ x y, 0 ≤ x < width → 0 ≤ y < height →
       cell_at (bgGrid g') x y
       = if (x mod 20 <? 2) || (y mod 20 <? 2)
         then Js.get op "bg" else cell_at (bgGrid g) x y)
  ∧ (has_id bgIds (Js.get op "bg") = true →
     Js.is_object (Js.get op "fgAtIntersections") = false →
     ∃ g', roadsGrid reference width height bgIds fgIds layers perm op g s = Ok (g', s)).
Proof.
  intros Hw Hsp Hth Hor Hg.
  assert (Hon : ∀ x y, on_road 0 0 20 2 x y = (x mod 20 <? 2) || (y mod 20 <? 2)).
  { intros x y. unfold on_road. rewrite !wrap_mod by lia. by rewrite !Z.sub_0_r. }
  split.
  - intros g' s' Hrun x y Hx Hy. unfold roadsGrid in Hrun.
    rewrite Hsp, Hth, Hor in Hrun.
    apply bind_inv in Hrun as (u & s1 & [_ ->]%lift_inv & Hrun).
    apply bind_inv in Hrun as ([[interId interP] interSeed] & s2 & Hinter & Hloop).
    assert (s2 = s) as ->.
    { destruct (Js.is_object _).
      - apply bind_inv in Hinter as (u' & s3 & [_ ->]%lift_inv & Hret).
        by apply ret_inv in Hret as [_ ->].
      - by apply ret_inv in Hinter as [_ ->]. }
    destruct (roadsLoops_spec reference width height layers perm op
                0 0 20 2 interId interP interSeed g s Hw Hg) as (g'' & Hrun' & _ & Hcells).
    change (for_range (Z.to_nat height) 0
              (λ y g, for_range (Z.to_nat width) 0
                        (roadsCell reference width height layers perm op 0 20 2
                           interId interP interSeed y (wrap y 0 20)) g) g s
            = Ok (g', s')) in Hloop.
    rewrite Hrun' in Hloop. injection Hloop as -> _.
    rewrite Hcells by done. by rewrite Hon.
  - intros Hbg Hno. unfold roadsGrid. rewrite Hsp, Hth, Hor, Hno.
    unfold requireBg, mbind, M_bind. rewrite Hbg. cbn [assert lift ret mret M_ret].
    destruct (roadsLoops_spec reference width height layers perm op
                0 0 20 2 JNull 0%float "" g s Hw Hg) as (g'' & Hrun' & _ & _).
    exists g''. etransitivity; [|exact Hrun']. reflexivity.
Qed.

Definition roadsOp : json :=
  JObj [("type", JStr "roads.grid"); ("bg", JStr "road"); ("spacing", JNum 20);
        ("thickness", JNum 2); ("origin", JList [JNum 0; JNum 0])]%string.

Lemma roads_grid_periodicity_witness :
  let g := newGrids 24 24 (JStr "bg0") in
  let run := roadsGrid (H:=example_host) "seed" 24 24 {["bg0"; "road"]}%string ∅
               (JObj []) [] roadsOp g new_sampler in
  match run with
  | Ok (g', _) =>
      ∀ x y, 0 ≤ x < 24 → 0 ≤ y < 24 →
        cell_at (bgGrid g') x y
        = if (x mod 20 <? 2) || (y mod 20 <? 2) then JStr "road" else cell_at (bgGrid g) x y
  | Throw _ => False
  end
  ∧ ∃ g', run = Ok (g', new_sampler).
Proof.
  intros g run.
  assert (Hwf : wf_grids 24 24 g) by apply wf_newGrids.
  pose proof (roads_grid_periodicity (H:=example_host) "seed" 24 24
                {["bg0"; "road"]}%string ∅ (JObj []) [] roadsOp g new_sampler
                eq_refl eq_refl eq_refl eq_refl Hwf) as [Hcells Htotal].
  split.
  - subst run. destruct (roadsGrid _ _ _ _ _ _ _ _ _ _) as [[g' s']|e] eqn:E.
    + exact (Hcells g' s' eq_refl).
    + destruct (Htotal eq_refl eq_refl) as [g' Hg']. discriminate Hg'.
  - exact (Htotal eq_refl eq_refl).
Defined.

(** ** stamp.scatter: placements do not overlap *)

(** The cell [(x, y)] lies in the footprint of a placement. *)
Definition covers (p : placement) (x y : Z) : Prop :=
  p_x p ≤ x < p_x p + p_w p ∧ p_y p ≤ y < p_y p + p_h p.

Definition disjoint (p q : placement) : Prop := ∀ x y, ¬ (covers p x y ∧ covers q x y).

Fixpoint pairwise_disjoint (l : list placement) : Prop :=
  match l with
  | [] => True
  | p :: rest => Forall (disjoint p) rest ∧ pairwise_disjoint rest
  end.

Lemma disjoint_sym p q : disjoint p q → disjoint q p.
Proof. unfold disjoint. intros Hd x y [Hq Hp]. by apply (Hd x y). Qed.

Lemma pairwise_disjoint_lookup l : pairwise_disjoint l →
  ∀ i j p q, i ≠ j → l !! i = Some p → l !! j = Some q → disjoint p q.
Proof.
  induction l as [|a l IH]; intros Hl i j p q Hij Hi Hj; [done|].
  destruct Hl as [Ha Hl]. destruct i as [|i], j as [|j]; cbn in Hi, Hj.
  - done.
  - injection Hi as <-. eapply Forall_lookup_1 in Ha; eauto.
  - injection Hj as <-. apply disjoint_sym. eapply Forall_lookup_1 in Ha; eauto.
  - apply (IH Hl i j); auto.
Qed.

Lemma elem_of_span start n x : x ∈ span start n ↔ start ≤ x < start + n.
Proof.
  unfold span. rewrite list_elem_of_fmap. split.
  - intros (i & -> & [_ Hi]%elem_of_seq). lia.
  - intros Hx. exists (Z.to_nat (x - start)). split; [lia|].
    apply elem_of_seq. lia.
Qed.

Lemma occ_get_set occ i j :
  0 ≤ i < Z.of_nat (length occ) →
  occ_get (occ_set occ i) j = (j =? i) || occ_get occ j.
Proof.
  intros Hi. unfold occ_get, occ_set.
  replace (i <? 0) with false by lia.
  destruct (j <? 0) eqn:Hj; [by replace (j =? i) with false by lia|].
  destruct (j =? i) eqn:E; cbn.
  - apply Z.eqb_eq in E as ->. rewrite list_lookup_insert_eq by lia. done.
  - apply Z.eqb_neq in E. rewrite list_lookup_insert_ne by lia. done.
Qed.

Lemma length_occ_set occ i : length (occ_set occ i) = length occ.
Proof. unfold occ_set. destruct (i <? 0); [done|apply length_insert]. Qed.

Section Scatter.
Context `{Host}.
Variables (reference : string) (width height : Z).
Variables (layers : json) (perm : list Z).

(** The index of a cell in [occ]. *)
Definition occ_index (x y : Z) : Z := y * width + x.

Lemma markRow_spec y xs : ∀ occ,
  (∀ x, x ∈ xs → 0 ≤ occ_index x y < Z.of_nat (length occ)) →
  let occ' := fold_left (λ occ x, occ_set occ (y * width + x)) xs occ in
  length occ' = length occ
  ∧ ∀ j, occ_get occ' j = existsb (λ x, j =? occ_index x y) xs || occ_get occ j.
Proof.
  induction xs as [|x xs IH]; intros occ Hin; cbn; [done|].
  destruct (IH (occ_set occ (y * width + x))) as [Hlen Hget].
  { intros x' Hx'. rewrite length_occ_set. apply Hin. by right. }
  split; [by rewrite Hlen, length_occ_set|].
  intros j. rewrite Hget, occ_get_set by (apply Hin; left).
  unfold occ_index. by destruct (j =? _), (existsb _ _).
Qed.

Lemma markPlace_spec occ x0 y0 w h :
  (∀ x y, x0 ≤ x < x0 + w → y0 ≤ y < y0 + h → 0 ≤ occ_index x y < Z.of_nat (length occ)) →
  length (markPlace width occ x0 y0 w h) = length occ
  ∧ ∀ j, occ_get (markPlace width occ x0 y0 w h) j
         = existsb (λ y, existsb (λ x, j =? occ_index x y) (span x0 w)) (span y0 h)
           || occ_get occ j.
Proof.
  unfold markPlace. intros Hin.
  assert (Hys : ∀ y, y ∈ span y0 h → y0 ≤ y < y0 + h) by (intros y; apply elem_of_span).
  revert occ Hin. induction (span y0 h) as [|y ys IH]; intros occ Hin; cbn; [done|].
  destruct (markRow_spec y (span x0 w) occ) as [Hlen Hget].
  { intros x Hx%elem_of_span. apply Hin; [done|]. apply Hys. by left. }
  destruct (IH (λ y' Hy', Hys y' (list_elem_of_further _ _ _ Hy'))
               (fold_left (λ occ x, occ_set occ (y * width + x)) (span x0 w) occ))
    as [Hlen' Hget'].
  { intros x' y' Hx' Hy'. rewrite Hlen. by apply Hin. }
  split; [by rewrite Hlen', Hlen|].
  intros j. rewrite Hget', Hget. by rewrite orb_assoc, (orb_comm (existsb _ ys)).
Qed.

Lemma canPlace_true occ x0 y0 w h :
  canPlace width height occ x0 y0 w h = true →
  0 ≤ x0 ∧ 0 ≤ y0 ∧ x0 + w ≤ width ∧ y0 + h ≤ height
  ∧ ∀ x y, x0 ≤ x < x0 + w → y0 ≤ y < y0 + h → occ_get occ (occ_index x y) = false.
Proof.
  unfold canPlace.
  destruct (_ || _) eqn:Hb; [discriminate|].
  apply orb_false_iff in Hb as [Hb H4]. apply orb_false_iff in Hb as [Hb H3].
  apply orb_false_iff in Hb as [H1 H2].
  intros Hall. repeat (split; [lia|]).
  intros x y Hx Hy. rewrite forallb_forall in Hall.
  specialize (Hall y (proj1 (list_elem_of_In _ _) (proj2 (elem_of_span _ _ _) Hy))).
  rewrite forallb_forall in Hall.
  specialize (Hall x (proj1 (list_elem_of_In _ _) (proj2 (elem_of_span _ _ _) Hx))).
  by apply negb_true_iff in Hall.
Qed.

(** What the attempt loop keeps true. *)
Record scatter_inv (st : scatter_state) : Prop := {
  inv_occ_length : length (sc_occ st) = Z.to_nat (width * height);
  inv_marked : ∀ p x y, p ∈ sc_log st → covers p x y →
                 0 ≤ x < width ∧ 0 ≤ y < height
                 ∧ occ_get (sc_occ st) (occ_index x y) = true;
  inv_disjoint : pairwise_disjoint (sc_log st);
  inv_placed : sc_placed st = Z.of_nat (length (sc_log st));
  inv_attempts : sc_placed st ≤ sc_attempt st
}.

Lemma scatterAttempt_cases where_ prefabs st s st' s' :
  scatterAttempt reference width height layers perm where_ prefabs st s = Ok (st', s') →
  sc_attempt st' = sc_attempt st + 1
  ∧ ((sc_occ st' = sc_occ st ∧ sc_log st' = sc_log st ∧ sc_placed st' = sc_placed st)
     ∨ ∃ x0 y0 w h,
         canPlace width height (sc_occ st) x0 y0 w h = true
         ∧ sc_occ st' = markPlace width (sc_occ st) x0 y0 w h
         ∧ sc_log st' = Placement x0 y0 w h :: sc_log st
         ∧ sc_placed st' = sc_placed st + 1).
Proof.
  unfold scatterAttempt.
  destruct (pickWeighted (sc_rng st) prefabs) as [pf rng].
  destruct (xfnv1a_next rng) as [r1 rng1]. destruct (xfnv1a_next rng1) as [r2 rng2].
  intros (hit & s1 & _ & Hrest)%bind_inv.
  destruct hit; cbn [negb] in Hrest; [|apply ret_inv in Hrest as [-> _]; cbn; auto].
  destruct (canPlace _ _ _ _ _ _ _) eqn:Hcan; cbn [negb] in Hrest;
    [|apply ret_inv in Hrest as [-> _]; cbn; auto].
  apply bind_inv in Hrest as (g1 & s2 & _ & Hrest).
  apply bind_inv in Hrest as (g2 & s3 & _ & Hret).
  apply ret_inv in Hret as [-> _]. cbn. split; [done|]. right. eauto 10.
Qed.

Lemma cell_index_range x y :
  0 ≤ x < width → 0 ≤ y < height → 0 ≤ occ_index x y < width * height.
Proof. unfold occ_index. nia. Qed.

Lemma scatterAttempt_inv where_ prefabs st s st' s' :
  scatter_inv st →
  scatterAttempt reference width height layers perm where_ prefabs st s = Ok (st', s') →
  scatter_inv st'.
Proof.
  intros [Hlen Hmarked Hdisj Hplaced Hatt] Hstep.
  apply scatterAttempt_cases in Hstep
    as [Ha [(Ho & Hl & Hp)|(x0 & y0 & w & h & Hcan & Ho & Hl & Hp)]].
  - split; rewrite ?Ho, ?Hl, ?Hp; try done.
    lia.
  - apply canPlace_true in Hcan as (Hx0 & Hy0 & Hxw & Hyh & Hfree).
    destruct (markPlace_spec (sc_occ st) x0 y0 w h) as [Hlen' Hget].
    { intros x y Hx Hy. rewrite Hlen.
      pose proof (cell_index_range x y ltac:(lia) ltac:(lia)). lia. }
    split; rewrite ?Ho, ?Hl, ?Hp.
    + by rewrite Hlen'.
    + intros p x y [->|Hin]%elem_of_cons Hc.
      * destruct Hc as [Hx Hy]. cbn in Hx, Hy. repeat (split; [lia|]).
        rewrite Hget. apply orb_true_iff. left.
        apply existsb_exists. exists y. split; [by apply list_elem_of_In, elem_of_span|].
        apply existsb_exists. exists x. split; [by apply list_elem_of_In, elem_of_span|].
        apply Z.eqb_refl.
      * destruct (Hmarked p x y Hin Hc) as (Hx & Hy & Hocc). repeat (split; [done|]).
        rewrite Hget, Hocc. apply orb_true_r.
    + split; [|done]. apply Forall_forall. intros q Hq x y [[Hx Hy] Hcq]. cbn in Hx, Hy.
      destruct (Hmarked q x y Hq Hcq) as (_ & _ & Hocc).
      rewrite Hfree in Hocc by done. discriminate.
    + cbn [length]. lia.
    + lia.
Qed.

Lemma scatterLoop_inv where_ prefabs count : ∀ n st s st' s',
  scatter_inv st → sc_placed st ≤ count →
  scatterLoop reference width height layers perm n count where_ prefabs st s = Ok (st', s') →
  scatter_inv st' ∧ sc_placed st' ≤ count
  ∧ sc_attempt st' ≤ sc_attempt st + Z.of_nat n.
Proof.
  induction n as [|n IH]; intros st s st' s' Hinv Hc; cbn [scatterLoop].
  - intros [-> _]%ret_inv. split; [done|split; [done|lia]].
  - destruct (sc_placed st <? count) eqn:Hlt; [|intros [-> _]%ret_inv; split; [done|split; [done|lia]]].
    intros (st1 & s1 & Hstep & Hrest)%bind_inv.
    pose proof (scatterAttempt_inv _ _ _ _ _ _ Hinv Hstep) as Hinv1.
    apply scatterAttempt_cases in Hstep as [Ha Hcases].
    destruct (IH st1 s1 st' s' Hinv1) as (Hinv' & Hc' & Hatt'); [|exact Hrest|].
    + destruct Hcases as [(_ & _ & ->)|(? & ? & ? & ? & _ & _ & _ & ->)]; lia.
    + split; [done|split; [done|lia]].
Qed.

End Scatter.

(** C6: when the attempt loop of a [stamp.scatter] op ends, the footprints
    of the placements it made are pairwise disjoint, and the number of
    placements ([placed]) is at most the target [count] of the op and at
    most the number of attempts made, itself at most [maxAttempts]. *)
Theorem scatter_no_overlap `{Host} (reference : string) (width height : Z)
    (layers : json) (perm : list Z) (op : json) (prefabs : list json)
    (g : grids) (s : sampler) (st : scatter_state) (s' : sampler) :
  scatterRun reference width height layers perm op prefabs g s = Ok (st, s') →
  (∀ i j p q, i ≠ j → sc_log st !! i = Some p → sc_log st !! j = Some q →
     ∀ x y, ¬ (covers p x y ∧ covers q x y))
  ∧ Z.of_nat (length (sc_log st)) = sc_placed st
  ∧ sc_placed st ≤ scatterCount op
  ∧ sc_placed st ≤ sc_attempt st
  ∧ sc_attempt st ≤ scatterMaxAttempts op.
Proof.
  unfold scatterRun. intros Hrun.
  assert (Hc : 1 ≤ scatterCount op) by (unfold scatterCount, safeInt; lia).
  assert (Hm : 1 ≤ scatterMaxAttempts op) by (unfold scatterMaxAttempts, safeInt; lia).
  eapply scatterLoop_inv in Hrun as ([Hlen Hmarked Hdisj Hplaced Hatt] & Hcount & Hattempts).
  - split; [by apply pairwise_disjoint_lookup|].
    cbn [sc_attempt] in Hattempts. lia.
  - split; cbn; [by rewrite length_replicate| |done..]. by intros p x y ?%elem_of_nil.
  - cbn. lia.
Qed.

Definition scatterOp : json :=
  JObj [("type", JStr "stamp.scatter"); ("count", JNum 6); ("maxAttempts", JNum 40);
        ("prefabs", JList [JObj [("w", JNum 3); ("h", JNum 2); ("fg", JStr "tree")];
                           JObj [("w", JNum 2); ("h", JNum 3); ("bg", JStr "bg0")]])]%string.

Lemma scatter_no_overlap_witness :
  match scatterRun (H:=example_host) "seed" 8 8 (JObj []) [] scatterOp
          (scatterPrefabs (H:=example_host) {["bg0"%string]} {["tree"%string]} scatterOp).1
          (newGrids 8 8 (JStr "bg0")) new_sampler with
  | Ok (st, _) =>
      (∀ i j p q, i ≠ j → sc_log st !! i = Some p → sc_log st !! j = Some q →
         ∀ x y, ¬ (covers p x y ∧ covers q x y))
      ∧ Z.of_nat (length (sc_log st)) = sc_placed st
      ∧ sc_placed st ≤ 6
      ∧ sc_placed st ≤ sc_attempt st
      ∧ sc_attempt st ≤ 40
  | Throw _ => False
  end.
Proof.
  destruct (scatterRun _ _ _ _ _ _ _ _ _) as [[st s']|e] eqn:E.
  - exact (scatter_no_overlap (H:=example_host) "seed" 8 8 (JObj []) [] scatterOp
             _ _ _ st s' E).
  - vm_compute in E. discriminate E.
Defined.

(** ** Cycles of combine references *)

(** The layer an operand of [combine] refers to, if it is a reference. *)
Definition operand_ref `{Host} (operand : json) : option string :=
  if Js.truthy (Js.get_opt operand "ref")
  then Some (Js.to_string (Js.get operand "ref")) else None.

(** The layer named [n] is defined and is a [combine] layer. *)
Definition is_combine `{Host} (layers : json) (n : string) : Prop :=
  Js.truthy (layer_def layers (JStr n)) = true
  ∧ Js.str_is (Js.get (layer_def layers (JStr n)) "type") "combine" = true.

(** The [combine] layer [n] has an operand that refers to the layer [m]. *)
Definition refers `{Host} (layers : json) (n m : string) : Prop :=
  is_combine layers n
  ∧ (operand_ref (Js.get (layer_def layers (JStr n)) "a") = Some m
     ∨ operand_ref (Js.get (layer_def layers (JStr n)) "b") = Some m).

(** [n] references itself, directly or through a chain of references. *)
Definition on_cycle `{Host} (layers : json) (n : string) : Prop := tc (refers layers) n n.

(** The key [name@x,y] of the set [visiting]. *)
Definition key_of (x y : Z) (n : string) : string :=
  n ++ "@" ++ Num.string_of_Z x ++ "," ++ Num.string_of_Z y.

(** [def.type] is one of the six layer types. *)
Definition supported_type (type : json) : bool :=
  Js.str_is type "const" || Js.str_is type "fbm" || Js.str_is type "valueNoise"
  || Js.str_is type "radialGradient" || Js.str_is type "shape" || Js.str_is type "combine".

(** Every defined layer has a supported type, its references name defined
    layers, and its shape, if it is a shape layer, can be tested. *)
Definition well_formed `{Host} (layers : json) : Prop :=
  ∀ n, let def := layer_def layers (JStr n) in
    Js.truthy def = true →
    supported_type (Js.get def "type") = true
    ∧ (Js.str_is (Js.get def "type") "shape" = true →
       ∀ x y, ∃ b, shapeContains (Js.get def "shape") x y = Ok b)
    ∧ ∀ m, refers layers n m → Js.truthy (layer_def layers (JStr m)) = true.

(** The error is the layer-cycle error, or the fuel of the model ran out. *)
Definition cycle_error (e : error) : Prop := e = OutOfFuel ∨ ∃ n, e = LayerCycle n.

Lemma add_delete_key (k : string) (V : gset string) : k ∉ V → ({[k]} ∪ V) ∖ {[k]} = V.
Proof. set_solver. Qed.

Section Cycles.
Context `{Host}.
Variables (seed : string) (width height : Z) (layers : json) (perm : list Z).
Variables (x y : Z).

Local Abbreviation sample := (λ fuel ref, sampleLayer_fuel seed width height layers perm fuel ref x y).
Local Abbreviation out := (layerOut seed width height perm).

Lemma layer_def_to_string name :
  layer_def layers name = layer_def layers (JStr (Js.to_string name)).
Proof. done. Qed.

Lemma visit_key_of name : visit_key name x y = key_of x y (Js.to_string name).
Proof. done. Qed.

Lemma layerOffset_ok k s :
  ∃ v s', layerOffset seed k s = Ok (v, s') ∧ visiting s' = visiting s.
Proof.
  unfold layerOffset, mbind, M_bind, get_state.
  destruct (map_get (seedOffsets s) k) as [v|].
  - exists v, s. split; reflexivity.
  - eexists _, _. split; reflexivity.
Qed.

Lemma layerOffset_visiting k v s s' :
  layerOffset seed k s = Ok (v, s') → visiting s' = visiting s.
Proof.
  destruct (layerOffset_ok k s) as (v0 & s0 & -> & Hs). by intros [= _ <-].
Qed.

(** A call that returns leaves [visiting] as it found it. *)
Definition restores (f : json → M float) : Prop :=
  ∀ ref s v s', f ref s = Ok (v, s') → visiting s' = visiting s.

Lemma layerOut_visiting f def name key s v s' :
  restores f → out f def name x y key s = Ok (v, s') → visiting s' = visiting s.
Proof.
  intros Hf. unfold layerOut.
  destruct (Js.str_is _ "fbm").
  { intros ([ox oy] & s1 & Ho & Hret)%bind_inv.
    apply layerOffset_visiting in Ho. by apply ret_inv in Hret as [_ ->]. }
  destruct (Js.str_is _ "valueNoise").
  { intros ([ox oy] & s1 & Ho & Hret)%bind_inv.
    apply layerOffset_visiting in Ho. by apply ret_inv in Hret as [_ ->]. }
  destruct (Js.str_is _ "radialGradient"); [by intros [_ ->]%ret_inv|].
  destruct (Js.str_is _ "shape").
  { intros (b & s1 & [_ ->]%lift_inv & [_ ->]%ret_inv)%bind_inv. done. }
  destruct (Js.str_is _ "combine"); [|discriminate].
  intros (a & s1 & Ha & Hrest)%bind_inv.
  apply bind_inv in Hrest as (b & s2 & Hb & [_ ->]%ret_inv).
  assert (visiting s1 = visiting s) as <-.
  { destruct (Js.truthy (Js.get_opt (Js.get def "a") "ref"));
      [by eapply Hf|by apply ret_inv in Ha as [_ ->]]. }
  destruct (Js.truthy (Js.get_opt (Js.get def "b") "ref"));
    [by eapply Hf|by apply ret_inv in Hb as [_ ->]].
Qed.

(** What a call of [sampleLayer] that returns went through. *)
Lemma sampleLayer_ok_inv fuel name s v s' :
  sample (S fuel) name s = Ok (v, s') →
  Js.truthy (layer_def layers name) = true
  ∧ ((Js.str_is (Js.get (layer_def layers name) "type") "const" = true
      ∧ visiting s' = visiting s)
     ∨ (Js.str_is (Js.get (layer_def layers name) "type") "const" = false
        ∧ (visit_key name x y ∉ visiting s)
        ∧ ∃ o s1 s2,
            visiting s1 = {[visit_key name x y]} ∪ visiting s
            ∧ out (sample fuel) (layer_def layers name) name x y (visit_key name x y) s1
              = Ok (o, s2)
            ∧ visiting s' = visiting s2 ∖ {[visit_key name x y]})).
Proof.
  cbn [sampleLayer_fuel].
  destruct (Js.truthy (layer_def layers name)); cbn [negb]; [|discriminate].
  intros Hrun. split; [done|].
  destruct (Js.str_is _ "const").
  - left. split; [done|]. unfold mbind, M_bind, get_state in Hrun.
    destruct (map_get (cacheConst s) name); by injection Hrun as _ <-.
  - right. split; [done|]. unfold mbind at 1, M_bind at 1, get_state in Hrun.
    destruct (bool_decide _) eqn:Hin; [discriminate|].
    apply bool_decide_eq_false in Hin. split; [done|].
    apply bind_inv in Hrun as (u & s1 & [= _ <-] & Hrun).
    apply bind_inv in Hrun as (o & s2 & Hout & Hrun).
    apply bind_inv in Hrun as (u' & s3 & [= _ <-] & [_ ->]%ret_inv).
    eexists o, _, s2. split; [|split; [exact Hout|done]]. done.
Qed.

Lemma sampleLayer_restores fuel : restores (sample fuel).
Proof.
  induction fuel as [|fuel IH]; intros name s v s' Hrun; [discriminate|].
  apply sampleLayer_ok_inv in Hrun
    as (_ & [[_ Hv]|(_ & Hnew & o & s1 & s2 & Hs1 & Hout & Hs')]); [done|].
  apply layerOut_visiting in Hout; [|exact IH].
  rewrite Hs', Hout, Hs1. by apply add_delete_key.
Qed.

(** The nested calls behind a [combine] layer that returns. *)
Lemma layerOut_combine_inv f def name key s o s' :
  restores f →
  Js.str_is (Js.get def "type") "combine" = true →
  out f def name x y key s = Ok (o, s') →
  ∀ m, operand_ref (Js.get def "a") = Some m ∨ operand_ref (Js.get def "b") = Some m →
    ∃ ref s1 v s2, Js.to_string ref = m ∧ visiting s1 = visiting s
                   ∧ f ref s1 = Ok (v, s2).
Proof.
  intros Hf Hty. unfold layerOut.
  destruct (Js.get def "type") as [| | | |ty| |]; try discriminate.
  cbn in Hty. apply String.eqb_eq in Hty as ->. cbn.
  intros (a & s1 & Ha & Hrest)%bind_inv.
  apply bind_inv in Hrest as (b & s2 & Hb & _).
  assert (Hs1 : visiting s1 = visiting s).
  { destruct (Js.truthy (Js.get_opt (Js.get def "a") "ref"));
      [by eapply Hf|by apply ret_inv in Ha as [_ ->]]. }
  unfold operand_ref. intros m [Hm|Hm].
  - destruct (Js.truthy (Js.get_opt (Js.get def "a") "ref")); [|discriminate].
    injection Hm as <-. by exists (Js.get (Js.get def "a") "ref"), s, a, s1.
  - destruct (Js.truthy (Js.get_opt (Js.get def "b") "ref")); [|discriminate].
    injection Hm as <-. by exists (Js.get (Js.get def "b") "ref"), s1, b, s2.
Qed.

Lemma refers_is_combine n m : refers layers n m → is_combine layers n.
Proof. by intros [? _]. Qed.

Lemma tc_refers_is_combine n m : tc (refers layers) n m → is_combine layers n.
Proof. intros Htc. destruct Htc as [? ? Hr|? ? ? Hr _]; by eapply refers_is_combine. Qed.

(** A call that returns met no key of a layer reachable from its own. *)
Lemma sampleLayer_ok_unvisited fuel : ∀ name s v s',
  sample fuel name s = Ok (v, s') →
  (is_combine layers (Js.to_string name) → key_of x y (Js.to_string name) ∉ visiting s)
  ∧ ∀ m, tc (refers layers) (Js.to_string name) m → is_combine layers m →
      key_of x y m ∉ ({[key_of x y (Js.to_string name)]} ∪ visiting s : gset string).
Proof.
  induction fuel as [|fuel IH]; intros name s v s' Hrun; [discriminate|].
  apply sampleLayer_ok_inv in Hrun
    as (Hdef & [[Hconst _]|(Hnc & Hnew & o & s1 & s2 & Hs1 & Hout & _)]).
  - assert (Hno : ¬ is_combine layers (Js.to_string name)).
    { intros [_ Hc]. rewrite <- layer_def_to_string in Hc.
      destruct (Js.get (layer_def layers name) "type"); try discriminate.
      cbn in Hconst, Hc. apply String.eqb_eq in Hconst as ->. discriminate. }
    split; [done|]. by intros m ?%tc_refers_is_combine.
  - split; [done|]. intros m Htc Hm.
    assert (Hstep : ∃ m1, refers layers (Js.to_string name) m1
                          ∧ (m1 = m ∨ tc (refers layers) m1 m)).
    { destruct Htc as [? ? Hr|? m1 ? Hr Htc]; eauto. }
    destruct Hstep as (m1 & [[_ Hc] Hops] & Hm1).
    rewrite <- layer_def_to_string in Hc, Hops.
    destruct (layerOut_combine_inv _ _ _ _ _ _ _ (sampleLayer_restores fuel) Hc Hout m1 Hops)
      as (ref & s1' & v1 & s2' & <- & Hs1' & Hcall).
    destruct (IH _ _ _ _ Hcall) as [Hself Hreach].
    rewrite Hs1', Hs1 in Hself, Hreach. rewrite visit_key_of in Hself, Hreach.
    destruct Hm1 as [<-|Htc'].
    + by apply Hself.
    + specialize (Hreach m Htc' Hm). intros Hin. apply Hreach.
      apply elem_of_union. by right.
Qed.

(** A layer on a cycle never samples to a value. *)
Lemma on_cycle_no_value fuel n s v s' :
  on_cycle layers n → sample fuel (JStr n) s ≠ Ok (v, s').
Proof.
  intros Hcycle Hrun.
  destruct (sampleLayer_ok_unvisited fuel _ _ _ _ Hrun) as [_ Hreach].
  apply (Hreach n Hcycle (tc_refers_is_combine _ _ Hcycle)).
  apply elem_of_union. left. by apply elem_of_singleton.
Qed.

End Cycles.

(** *** The evaluation ends *)

Lemma size_list_to_set_le (l : list string) : (size (list_to_set l : gset string) ≤ length l)%nat.
Proof.
  induction l as [|a l IH]; cbn; [by rewrite size_empty|].
  rewrite size_union_alt, size_singleton.
  assert (size (list_to_set l ∖ {[a]} : gset string) ≤ size (list_to_set l : gset string))%nat
    by (apply subseteq_size; set_solver).
  lia.
Qed.

Lemma assoc_defined k l : Js.assoc k l ≠ JUndef → k ∈ l.*1.
Proof.
  induction l as [|[k' v] l IH]; cbn; [done|].
  destruct (String.eqb k k') eqn:E.
  - apply String.eqb_eq in E as ->. intros _. left.
  - intros ?%IH. by right.
Qed.

Lemma pointInPoly_from_throw `{Host} pts : ∀ prev px py inside e,
  pointInPoly_from pts prev px py inside = Throw e → e ≠ OutOfFuel.
Proof.
  induction pts as [|p pts IH]; intros prev px py inside e; cbn [pointInPoly_from]; [done|].
  unfold Js.index_checked.
  destruct (Js.nullish p); [by intros [= <-]|].
  destruct (Js.nullish prev); [by intros [= <-]|]. cbn. apply IH.
Qed.

Lemma shapeContains_throw `{Host} shape x y e :
  shapeContains shape x y = Throw e → e ≠ OutOfFuel.
Proof.
  unfold shapeContains.
  repeat match goal with
         | |- context [if ?c then _ else _] => destruct c; try discriminate
         end.
  unfold pointInPoly. apply pointInPoly_from_throw.
Qed.

Section Termination.
Context `{Host}.
Variables (seed : string) (width height : Z) (layers : json) (perm : list Z).
Variables (x y : Z).

Local Abbreviation sample := (λ fuel ref, sampleLayer_fuel seed width height layers perm fuel ref x y).
Local Abbreviation out := (layerOut seed width height perm).

(** The keys that the layers of the mapping can put into [visiting]. *)
Definition layer_keys : gset string :=
  list_to_set (key_of x y <$> (Js.own_props layers).*1).

Lemma size_layer_keys : (size layer_keys ≤ length (Js.own_props layers))%nat.
Proof.
  unfold layer_keys. etransitivity; [apply size_list_to_set_le|].
  by rewrite !length_fmap.
Qed.

Lemma is_combine_key n : is_combine layers n → key_of x y n ∈ layer_keys.
Proof.
  intros [Hdef Hty]. unfold layer_keys. apply elem_of_list_to_set, list_elem_of_fmap.
  exists n. split; [done|]. unfold layer_def in Hdef, Hty.
  destruct (Js.nullish layers); [done|]. cbn in Hdef, Hty.
  apply assoc_defined. unfold Js.lookup in Hdef, Hty.
  destruct layers as [| | | | |e named|props]; try done;
    [destruct (String.eqb n "length"); [done|]|];
    by intros Hn; rewrite Hn in Hdef.
Qed.

(** An error raised while [out] is computed comes from a nested call, from
    a shape or from the type of the layer. *)
Lemma layerOut_throw f def name key s e :
  restores f →
  (Js.str_is (Js.get def "type") "combine" = true →
   ∀ ref s1 e, visiting s1 = visiting s → f ref s1 = Throw e → e ≠ OutOfFuel) →
  out f def name x y key s = Throw e → e ≠ OutOfFuel.
Proof.
  intros Hf Hsub. unfold layerOut, mbind, M_bind.
  destruct (Js.str_is _ "fbm").
  { destruct (layerOffset_ok seed (Js.or_else (Js.get def "seed") name) s)
      as ([ox oy] & s0 & -> & _). discriminate. }
  destruct (Js.str_is _ "valueNoise").
  { destruct (layerOffset_ok seed (Js.or_else (Js.get def "seed") name) s)
      as ([ox oy] & s0 & -> & _). discriminate. }
  destruct (Js.str_is _ "radialGradient"); [discriminate|].
  destruct (Js.str_is _ "shape").
  { unfold lift. destruct (shapeContains _ _ _) eqn:Hs; [discriminate|].
    intros [= <-]. by eapply shapeContains_throw. }
  destruct (Js.str_is _ "combine"); [|by intros [= <-]].
  specialize (Hsub eq_refl).
  destruct (Js.truthy (Js.get_opt (Js.get def "a") "ref")).
  - destruct (f (Js.get (Js.get def "a") "ref") s) as [[a s1]|ea] eqn:Ha;
      [|intros [= <-]; by eapply Hsub].
    apply Hf in Ha.
    destruct (Js.truthy (Js.get_opt (Js.get def "b") "ref")); [|discriminate].
    destruct (f (Js.get (Js.get def "b") "ref") s1) as [[b s2]|eb] eqn:Hb;
      [discriminate|intros [= <-]; by eapply Hsub].
  - cbn. destruct (Js.truthy (Js.get_opt (Js.get def "b") "ref")); [|discriminate].
    destruct (f (Js.get (Js.get def "b") "ref") s) as [[b s2]|eb] eqn:Hb;
      [discriminate|intros [= <-]; by eapply Hsub].
Qed.

(** With more fuel than there are keys left to visit, the fuel does not
    run out. *)
Lemma sampleLayer_fuel_enough fuel : ∀ name s e,
  visiting s ⊆ layer_keys →
  (size layer_keys < size (visiting s) + fuel)%nat →
  sample fuel name s = Throw e → e ≠ OutOfFuel.
Proof.
  induction fuel as [|fuel IH]; intros name s e Hsub Hsize.
  - apply subseteq_size in Hsub. lia.
  - cbn [sampleLayer_fuel].
    destruct (Js.truthy (layer_def layers name)) eqn:Hdef; cbn [negb]; [|by intros [= <-]].
    destruct (Js.str_is _ "const") eqn:Hconst.
    { unfold mbind, M_bind, get_state. destruct (map_get _ _); discriminate. }
    unfold mbind at 1, M_bind at 1, get_state.
    destruct (bool_decide _) eqn:Hin; [by intros [= <-]|].
    apply bool_decide_eq_false in Hin.
    unfold mbind, M_bind, visiting_add, visiting_delete, modify.
    destruct (layerOut _ _ _ _ _ _ _ _ _ _ _) as [[o s2]|e'] eqn:Hout; [discriminate|].
    intros [= <-]. eapply layerOut_throw; [apply sampleLayer_restores| |exact Hout].
    intros Hc ref s1 e1 Hs1. cbn [visiting] in Hs1.
    assert (Hkey : visit_key name x y ∈ layer_keys).
    { apply is_combine_key. split; by rewrite <- layer_def_to_string. }
    apply IH.
    + rewrite Hs1. apply union_subseteq. split; [by apply singleton_subseteq_l|done].
    + rewrite Hs1, size_union by (by apply disjoint_singleton_l).
      rewrite size_singleton. lia.
Qed.

Lemma sampleLayer_terminates so cc name e :
  sampleLayer seed width height layers perm name x y (idle so cc) = Throw e →
  e ≠ OutOfFuel.
Proof.
  unfold sampleLayer. apply sampleLayer_fuel_enough; cbn.
  - apply empty_subseteq.
  - rewrite size_empty. pose proof size_layer_keys. lia.
Qed.

End Termination.

(** *** Well-formed mappings raise no other error *)

Section WellFormed.
Context `{Host}.
Variables (seed : string) (width height : Z) (layers : json) (perm : list Z).
Variables (x y : Z).
Hypothesis Hwf : well_formed layers.

Local Abbreviation sample := (λ fuel ref, sampleLayer_fuel seed width height layers perm fuel ref x y).
Local Abbreviation out := (layerOut seed width height perm).

Lemma layerOut_throw_wf f name key s e :
  Js.truthy (layer_def layers name) = true →
  Js.str_is (Js.get (layer_def layers name) "type") "const" = false →
  (∀ ref s1 e, Js.truthy (layer_def layers ref) = true → f ref s1 = Throw e → cycle_error e) →
  out f (layer_def layers name) name x y key s = Throw e → cycle_error e.
Proof.
  intros Hdef Hnc Hsub.
  destruct (Hwf (Js.to_string name) Hdef) as (Hty & Hshape & Hrefs).
  change (layer_def layers (JStr (Js.to_string name))) with (layer_def layers name)
    in Hty, Hshape, Hrefs.
  unfold layerOut, mbind, M_bind. unfold supported_type in Hty.
  destruct (Js.str_is _ "fbm").
  { destruct (layerOffset_ok seed (Js.or_else (Js.get (layer_def layers name) "seed") name) s)
      as ([ox oy] & s0 & -> & _). discriminate. }
  destruct (Js.str_is _ "valueNoise").
  { destruct (layerOffset_ok seed (Js.or_else (Js.get (layer_def layers name) "seed") name) s)
      as ([ox oy] & s0 & -> & _). discriminate. }
  destruct (Js.str_is _ "radialGradient"); [discriminate|].
  destruct (Js.str_is _ "shape").
  { destruct (Hshape eq_refl x y) as [b ->]. discriminate. }
  destruct (Js.str_is _ "combine") eqn:Hc;
    [|rewrite Hnc in Hty; discriminate Hty].
  assert (Hcomb : is_combine layers (Js.to_string name)) by (split; [exact Hdef|exact Hc]).
  assert (Ha : Js.truthy (Js.get_opt (Js.get (layer_def layers name) "a") "ref") = true →
               Js.truthy (layer_def layers (Js.get (Js.get (layer_def layers name) "a") "ref"))
               = true).
  { intros Ht. apply (Hrefs (Js.to_string (Js.get (Js.get (layer_def layers name) "a") "ref"))).
    split; [exact Hcomb|]. left. unfold operand_ref.
    change (layer_def layers (JStr (Js.to_string name))) with (layer_def layers name).
    rewrite Ht. reflexivity. }
  assert (Hb : Js.truthy (Js.get_opt (Js.get (layer_def layers name) "b") "ref") = true →
               Js.truthy (layer_def layers (Js.get (Js.get (layer_def layers name) "b") "ref"))
               = true).
  { intros Ht. apply (Hrefs (Js.to_string (Js.get (Js.get (layer_def layers name) "b") "ref"))).
    split; [exact Hcomb|]. right. unfold operand_ref.
    change (layer_def layers (JStr (Js.to_string name))) with (layer_def layers name).
    rewrite Ht. reflexivity. }
  destruct (Js.truthy (Js.get_opt (Js.get (layer_def layers name) "a") "ref")).
  - destruct (f (Js.get (Js.get (layer_def layers name) "a") "ref") s) as [[a s1]|ea] eqn:Ea;
      [|intros [= <-]; exact (Hsub _ _ _ (Ha eq_refl) Ea)].
    destruct (Js.truthy (Js.get_opt (Js.get (layer_def layers name) "b") "ref"));
      [|discriminate].
    destruct (f (Js.get (Js.get (layer_def layers name) "b") "ref") s1) as [[b s2]|eb] eqn:Eb;
      [discriminate|intros [= <-]; exact (Hsub _ _ _ (Hb eq_refl) Eb)].
  - cbn. destruct (Js.truthy (Js.get_opt (Js.get (layer_def layers name) "b") "ref"));
      [|discriminate].
    destruct (f (Js.get (Js.get (layer_def layers name) "b") "ref") s) as [[b s2]|eb] eqn:Eb;
      [discriminate|intros [= <-]; exact (Hsub _ _ _ (Hb eq_refl) Eb)].
Qed.

Lemma sampleLayer_throw_wf fuel : ∀ name s e,
  Js.truthy (layer_def layers name) = true →
  sample fuel name s = Throw e → cycle_error e.
Proof.
  induction fuel as [|fuel IH]; intros name s e Hdef; [intros [= <-]; by left|].
  cbn [sampleLayer_fuel]. rewrite Hdef. cbn [negb].
  destruct (Js.str_is _ "const") eqn:Hnc.
  { unfold mbind, M_bind, get_state. destruct (map_get _ _); discriminate. }
  unfold mbind at 1, M_bind at 1, get_state.
  destruct (bool_decide _); [intros [= <-]; right; eauto|].
  unfold mbind, M_bind, visiting_add, visiting_delete, modify.
  destruct (layerOut _ _ _ _ _ _ _ _ _ _ _) as [[o s2]|e'] eqn:Hout; [discriminate|].
  intros [= <-]. eapply layerOut_throw_wf; [exact Hdef|exact Hnc| |exact Hout].
  intros ref s1 e1. apply IH.
Qed.

End WellFormed.

(** The layer [{type:"combine", a:{ref:"ghost"}, b:{ref:"loop"}}] named
    [loop]: it refers to itself through [b] and to an undefined layer
    through [a]. *)
Definition ghostLoop : json :=
  JObj [("loop", JObj [("type", JStr "combine"); ("a", JObj [("ref", JStr "ghost")]);
                       ("b", JObj [("ref", JStr "loop")])])]%string.

(** The layer [{type:"combine", a:{ref:"loop"}}] named [loop]. *)
Definition selfLoop : json :=
  JObj [("loop", JObj [("type", JStr "combine"); ("a", JObj [("ref", JStr "loop")])])]%string.

(** C4, as stated, fails: a layer that references itself through its second
    operand and an undefined layer through its first raises the unknown-layer
    error, not the layer-cycle error. *)
Lemma layer_cycle_counterexample :
  on_cycle (H:=example_host) ghostLoop "loop"
  ∧ run_value (sampleLayer (H:=example_host) "seed" 200 200 ghostLoop [] (JStr "loop") 0 0)
              (idle [] [])
    = Throw (UnknownLayer "ghost").
Proof.
  split; [|vm_compute; reflexivity].
  apply tc_once. split; [split; reflexivity|]. right. reflexivity.
Qed.

(** C4 (amended): sampling a layer that references itself, directly or
    through a chain of combine references, at any coordinate raises an error:
    it neither returns a value nor loops (the fuel of the model is never
    exhausted), and so does a predicate that tests the layer.  The error is
    the layer-cycle error when the mapping is well formed (every defined
    layer has a supported type, every reference names a defined layer, shape
    layers can be tested) and plain (no object of it has a property named
    [toString], so that every coercion succeeds); otherwise the error of an
    operand or of a coercion evaluated before the cycle closes may be raised
    instead. *)
Theorem layer_cycle_raises `{Host} (seed : string) (width height : Z) (layers : json)
    (perm : list Z) (n : string) (x y : Z) so cc :
  on_cycle layers n →
  ∃ e, sampleLayer seed width height layers perm (JStr n) x y (idle so cc) = Throw e
       ∧ e ≠ OutOfFuel
       ∧ (well_formed layers → Js.plain layers = true → ∃ m, e = LayerCycle m)
       ∧ ∀ t, predTrue seed width height layers perm
                (JObj [("layerGt", JList [JStr n; t])]%string) x y (idle so cc)
              = Throw e.
Proof.
  intros Hcycle.
  destruct (sampleLayer seed width height layers perm (JStr n) x y (idle so cc))
    as [[v s']|e] eqn:Hrun.
  { exfalso. unfold sampleLayer in Hrun.
    exact (on_cycle_no_value seed width height layers perm x y _ n _ v s' Hcycle Hrun). }
  exists e. split; [reflexivity|].
  assert (He : e ≠ OutOfFuel).
  { exact (sampleLayer_terminates seed width height layers perm x y so cc _ e Hrun). }
  split; [exact He|]. split.
  - intros Hwf _. unfold sampleLayer in Hrun.
    destruct (sampleLayer_throw_wf seed width height layers perm x y Hwf _ (JStr n) _ e
                (proj1 (tc_refers_is_combine _ _ _ Hcycle)) Hrun) as [->|Hc].
    + exfalso. by apply He.
    + exact Hc.
  - intros t. unfold predTrue. cbn [predTrue_fuel].
    cbv beta iota zeta delta [Js.truthy Js.get Js.assoc String.eqb Ascii.eqb Bool.eqb negb
                                Js.is_array Js.iterate].
    unfold mbind, M_bind, lift. cbn [nth]. by rewrite Hrun.
Qed.

Lemma selfLoop_well_formed : well_formed (H:=example_host) selfLoop.
Proof.
  intros n def Hdef.
  assert (Hn : n = "loop"%string).
  { unfold def, layer_def in Hdef. cbn in Hdef.
    destruct (String.eqb n "loop") eqn:E; [by apply String.eqb_eq|discriminate]. }
  subst n. split; [reflexivity|]. split; [discriminate|].
  intros m [_ [Hm|Hm]]; cbn in Hm; [|discriminate].
  injection Hm as <-. reflexivity.
Qed.

Lemma layer_cycle_raises_witness :
  ∃ m, sampleLayer (H:=example_host) "seed" 200 200 selfLoop [] (JStr "loop") 3 4 (idle [] [])
       = Throw (LayerCycle m)
       ∧ ∀ t, predTrue (H:=example_host) "seed" 200 200 selfLoop []
                (JObj [("layerGt", JList [JStr "loop"; t])]%string) 3 4 (idle [] [])
              = Throw (LayerCycle m).
Proof.
  destruct (layer_cycle_raises (H:=example_host) "seed" 200 200 selfLoop [] "loop" 3 4 [] [])
    as (e & Hrun & _ & Hwf & Hpred).
  { apply tc_once. split; [split; reflexivity|]. left. reflexivity. }
  destruct (Hwf selfLoop_well_formed eq_refl) as [m ->].
  exists m. split; [exact Hrun|exact Hpred].
Defined.

(** ** A second run on the same spec object *)

(** *** Stores that change nothing *)

Lemma assoc_set_id k v l : Js.assoc k l = v → v ≠ JUndef → Js.assoc_set k v l = l.
Proof.
  intros Hk Hv. induction l as [|[k' v'] l IH]; cbn in *; [congruence|].
  destruct (String.eqb k k') eqn:E.
  - apply String.eqb_eq in E. congruence.
  - by rewrite IH.
Qed.

Lemma set_id o k v : Js.get o k = v → v ≠ JUndef → Js.set o k v = o.
Proof.
  destruct o; cbn; try done; intros Hk Hv; by rewrite assoc_set_id.
Qed.

Lemma assoc_set_set k v v' l :
  Js.assoc_set k v (Js.assoc_set k v' l) = Js.assoc_set k v l.
Proof.
  induction l as [|[k' w] l IH]; cbn.
  - by rewrite String.eqb_refl.
  - destruct (String.eqb k k') eqn:E; cbn; [by rewrite String.eqb_refl|by rewrite E, IH].
Qed.

Lemma set_set o k v v' : Js.set (Js.set o k v') k v = Js.set o k v.
Proof. destruct o; cbn; try done; by rewrite assoc_set_set. Qed.

Lemma get_is_object o k : Js.get o k ≠ JUndef → Js.is_object o = true.
Proof. by destruct o. Qed.

(** *** The clamped fields of a prefab *)

Lemma safeInt_range n d lo hi : lo ≤ hi → lo ≤ safeInt n d lo hi ≤ hi.
Proof. unfold safeInt. lia. Qed.

Lemma safeInt_of_Z_small k :
  1 ≤ k ≤ 200 → safeInt (JNum (Num.of_Z k)) 1 1 200 = k.
Proof.
  intros Hk.
  assert (Hall : forallb (λ n, safeInt (JNum (Num.of_Z (Z.of_nat n))) 1 1 200 =? Z.of_nat n)
                   (seq 1 200) = true) by (vm_compute; reflexivity).
  rewrite forallb_forall in Hall.
  specialize (Hall (Z.to_nat k)). rewrite Z2Nat.id in Hall by lia.
  apply Z.eqb_eq, Hall, in_seq. lia.
Qed.

Lemma weight_fixed (t : float) :
  let p := clamp01 (Num.or_else t 0) in clamp01 (Num.or_else p 0) = p.
Proof.
  cbv zeta.
  assert (Hq : ∀ q, Num.truthy q = true ∨ q = 0%float →
                    clamp01 (Num.or_else (clamp01 q) 0) = clamp01 q).
  { intros q [Hq| ->]; [|reflexivity].
    destruct (q <? 0)%float eqn:H0.
    { assert (clamp01 q = 0%float) as -> by (unfold clamp01; by rewrite H0). reflexivity. }
    destruct (1 <? q)%float eqn:H1.
    { assert (clamp01 q = 1%float) as -> by (unfold clamp01; by rewrite H0, H1). reflexivity. }
    assert (clamp01 q = q) as Hc by (unfold clamp01; by rewrite H0, H1).
    rewrite Hc. unfold Num.or_else. rewrite Hq. exact Hc. }
  apply Hq. unfold Num.or_else. destruct (Num.truthy t) eqn:Ht; [by left|by right].
Qed.

Section Rerun.
Context `{Host}.
Variables (reference : string) (width height : Z) (bgIds fgIds : gset string).
Variables (layers : json) (perm : list Z).

Lemma validatePrefab_fixed pf :
  validatePrefab bgIds fgIds (validatePrefab bgIds fgIds pf).1
  = validatePrefab bgIds fgIds pf.
Proof.
  unfold validatePrefab at 2 3.
  destruct (Js.is_object pf) eqn:Hobj; cbn [negb fst];
    [|unfold validatePrefab; by rewrite Hobj].
  set (w := safeInt (Js.get pf "w") 1 1 200).
  set (h := safeInt (Js.get pf "h") 1 1 200).
  set (pf1 := Js.set (Js.set pf "w" (JNum (Num.of_Z w))) "h" (JNum (Num.of_Z h))).
  assert (Hw : 1 ≤ w ≤ 200) by (apply safeInt_range; lia).
  assert (Hh : 1 ≤ h ≤ 200) by (apply safeInt_range; lia).
  assert (Hobj1 : Js.is_object pf1 = true) by (unfold pf1; by rewrite !is_object_set).
  assert (Hgw : Js.get pf1 "w" = JNum (Num.of_Z w)).
  { unfold pf1. rewrite get_set_ne by discriminate.
    apply get_set_eq, Hobj. }
  assert (Hgh : Js.get pf1 "h" = JNum (Num.of_Z h)).
  { unfold pf1. apply get_set_eq. by rewrite is_object_set. }
  assert (Hfix1 : ∀ pf2, Js.is_object pf2 = true →
            Js.get pf2 "w" = JNum (Num.of_Z w) → Js.get pf2 "h" = JNum (Num.of_Z h) →
            Js.set (Js.set pf2 "w" (JNum (Num.of_Z (safeInt (Js.get pf2 "w") 1 1 200))))
                   "h" (JNum (Num.of_Z (safeInt (Js.get pf2 "h") 1 1 200))) = pf2).
  { intros pf2 Ho Hw2 Hh2. rewrite Hw2, Hh2, !safeInt_of_Z_small by done.
    rewrite (set_id pf2 "w") by done. by apply set_id. }
  set (checks := (if negb (Js.nullish (Js.get pf1 "bg"))
                  then requireBg bgIds (Js.get pf1 "bg") "prefabs.bg" else Ok ());;
                 (if negb (Js.nullish (Js.get pf1 "fg"))
                  then requireFgOrNull fgIds (Js.get pf1 "fg") "prefabs.fg" else Ok ())).
  destruct checks as [u|e] eqn:Hchecks; cbn [fst].
  - set (p := clamp01 (Js.number_or (Js.coalesce (Js.get pf1 "p") (JNum 1)) 0)).
    set (pf3 := Js.set pf1 "p" (JNum p)).
    assert (Hobj3 : Js.is_object pf3 = true) by (unfold pf3; by rewrite is_object_set).
    unfold validatePrefab. rewrite Hobj3. cbn [negb].
    rewrite (Hfix1 pf3 Hobj3)
      by (unfold pf3; by rewrite get_set_ne by discriminate).
    assert (Hbg : Js.get pf3 "bg" = Js.get pf1 "bg")
      by (unfold pf3; by rewrite get_set_ne by discriminate).
    assert (Hfg : Js.get pf3 "fg" = Js.get pf1 "fg")
      by (unfold pf3; by rewrite get_set_ne by discriminate).
    rewrite Hbg, Hfg. fold checks. rewrite Hchecks.
    assert (Hp : Js.get pf3 "p" = JNum p) by (unfold pf3; by apply get_set_eq).
    rewrite Hp. cbn [Js.coalesce Js.nullish].
    assert (Hpp : clamp01 (Js.number_or (JNum p) 0) = p).
    { unfold p, Js.number_or. cbn [Js.to_number]. apply weight_fixed. }
    rewrite Hpp. rewrite (set_id pf3 "p") by done. by destruct u.
  - unfold validatePrefab. rewrite Hobj1. cbn [negb].
    rewrite (Hfix1 pf1 Hobj1 Hgw Hgh). fold checks. by rewrite Hchecks.
Qed.

Lemma validatePrefabs_fixed prefabs :
  validatePrefabs bgIds fgIds (validatePrefabs bgIds fgIds prefabs).1
  = validatePrefabs bgIds fgIds prefabs.
Proof.
  induction prefabs as [|pf rest IH]; [reflexivity|].
  cbn [validatePrefabs]. pose proof (validatePrefab_fixed pf) as Hpf.
  destruct (validatePrefab bgIds fgIds pf) as [pf' [u|e]] eqn:Hv; cbn [fst] in Hpf.
  - destruct (validatePrefabs bgIds fgIds rest) as [rest' r] eqn:Hr. cbn [fst] in IH |- *.
    cbn [validatePrefabs]. by rewrite Hpf, IH.
  - cbn [fst validatePrefabs]. by rewrite Hpf.
Qed.

Lemma validatePrefabs_length prefabs :
  length (validatePrefabs bgIds fgIds prefabs).1 = length prefabs.
Proof.
  induction prefabs as [|pf rest IH]; [reflexivity|].
  cbn [validatePrefabs].
  destruct (validatePrefab bgIds fgIds pf) as [pf' [u|e]]; [|reflexivity].
  destruct (validatePrefabs bgIds fgIds rest) as [rest' r]. cbn in *. by rewrite IH.
Qed.

Local Abbreviation exec := (execOp reference width height bgIds fgIds layers perm).
Local Abbreviation after := (opAfter bgIds fgIds).
Local Abbreviation run := (runOps reference width height bgIds fgIds layers perm).

(** A [stamp.scatter] op whose prefabs are stored back validates as before. *)
Lemma scatterPrefabs_stored op e named :
  Js.get op "prefabs" = JArr e named →
  scatterPrefabs bgIds fgIds
    (Js.set op "prefabs" (JArr (scatterPrefabs bgIds fgIds op).1 named))
  = scatterPrefabs bgIds fgIds op.
Proof.
  intros Hp.
  assert (Hobj : Js.is_object op = true) by (apply (get_is_object op "prefabs"); by rewrite Hp).
  unfold scatterPrefabs at 1. rewrite get_set_eq by done. cbn [Js.elements].
  unfold scatterPrefabs. rewrite Hp. cbn [Js.elements].
  destruct ((1 <=? Z.of_nat (length e)) && (Z.of_nat (length e) <=? 128)) eqn:Hn.
  - by rewrite validatePrefabs_length, Hn, validatePrefabs_fixed.
  - cbn [fst]. by rewrite Hn.
Qed.

Lemma opAfter_cases op :
  after op = op
  ∨ ∃ e named, Js.get op "prefabs" = JArr e named
      ∧ Js.to_string (Js.or_else (Js.get op "type") (JStr "")) = "stamp.scatter"%string
      ∧ after op = Js.set op "prefabs" (JArr (scatterPrefabs bgIds fgIds op).1 named).
Proof.
  unfold opAfter. destruct (Js.is_object op); cbn [negb]; [|by left].
  destruct (String.eqb _ "paint"); [by left|].
  destruct (String.eqb _ "roads.grid"); [by left|].
  destruct (String.eqb _ "stamp.scatter") eqn:Ht; [|by left].
  destruct (Js.get op "prefabs") as [| | | | |e named|] eqn:Hp; try by left.
  right. exists e, named. by apply String.eqb_eq in Ht.
Qed.

Lemma opAfter_fixed op : after (after op) = after op.
Proof.
  destruct (opAfter_cases op) as [Hid|(e & named & Hp & Ht & Hop)]; [by rewrite !Hid|].
  assert (Hobj : Js.is_object op = true) by (apply (get_is_object op "prefabs"); by rewrite Hp).
  rewrite Hop. unfold opAfter at 1.
  rewrite is_object_set, Hobj. cbn [negb].
  rewrite (get_set_ne op "prefabs" "type") by discriminate. rewrite Ht.
  cbn [String.eqb Ascii.eqb Bool.eqb].
  rewrite get_set_eq by done.
  by rewrite (scatterPrefabs_stored op e named Hp), set_set.
Qed.

Lemma execOp_after op i g s : exec (after op) i g s = exec op i g s.
Proof.
  destruct (opAfter_cases op) as [->|(e & named & Hp & Ht & Hop)]; [reflexivity|].
  assert (Hobj : Js.is_object op = true) by (apply (get_is_object op "prefabs"); by rewrite Hp).
  rewrite Hop. unfold execOp.
  rewrite is_object_set, Hobj. cbn [negb].
  rewrite (get_set_ne op "prefabs" "type") by discriminate. rewrite Ht.
  cbn [String.eqb Ascii.eqb Bool.eqb].
  unfold stampScatter. rewrite (scatterPrefabs_stored op e named Hp).
  destruct (scatterPrefabs bgIds fgIds op) as [prefabs checked]. cbn [fst].
  unfold scatterRun, scatterMaxAttempts, scatterCount.
  by rewrite !(get_set_ne op "prefabs") by discriminate.
Qed.

Lemma runOps_fixed ops : ∀ i g s,
  run (run ops i g s).1 i g s = run ops i g s.
Proof.
  induction ops as [|op rest IH]; intros i g s; [reflexivity|].
  cbn [runOps].
  destruct (exec op i g s) as [[g' s']|e] eqn:He.
  - specialize (IH (i + 1) g' s').
    destruct (run rest (i + 1) g' s') as [rest' r] eqn:Hr. cbn [fst] in IH |- *.
    cbn [runOps]. by rewrite execOp_after, He, IH, opAfter_fixed.
  - cbn [fst runOps]. by rewrite execOp_after, He, opAfter_fixed.
Qed.

Lemma runOps_length ops : ∀ i g s, length (run ops i g s).1 = length ops.
Proof.
  induction ops as [|op rest IH]; intros i g s; [reflexivity|].
  cbn [runOps]. destruct (exec op i g s) as [[g' s']|e]; [|reflexivity].
  specialize (IH (i + 1) g' s').
  destruct (run rest (i + 1) g' s') as [rest' r]. cbn in *. by rewrite IH.
Qed.

End Rerun.

(** *** The sanitized symbols *)

Lemma uniqIds_from_map (f : json → json) kind list : ∀ s,
  (∀ t, Js.is_object (f t) = Js.is_object t ∧ Js.get (f t) "id" = Js.get t "id") →
  uniqIds_from s (map f list) kind = uniqIds_from s list kind.
Proof.
  intros s Hf. revert s. induction list as [|t list IH]; intros s; [reflexivity|].
  cbn [map uniqIds_from]. destruct (Hf t) as [-> ->].
  destruct (Js.get t "id"); try reflexivity. by rewrite IH.
Qed.

Lemma nullish_set o k v : Js.nullish (Js.set o k v) = Js.nullish o.
Proof. by destruct o. Qed.

Lemma is_object_truthy o : Js.is_object o = true → Js.truthy o = true.
Proof. by destruct o. Qed.

Section Sanitized.
Variable whitelistExtra : string.

Local Abbreviation sanitize := (sanitizeSymbol whitelistExtra).

Lemma fallback_allowed z :
  ∃ c, nth (Z.to_nat (z mod 8)) fallbacks ""%string = String c ""
       ∧ allowed whitelistExtra c = true.
Proof.
  pose proof (Z.mod_pos_bound z 8 eq_refl) as Hz.
  assert (Hn : (Z.to_nat (z mod 8) < 8)%nat) by lia.
  destruct (Z.to_nat (z mod 8)) as [|[|[|[|[|[|[|[|n]]]]]]]];
    try (eexists; split; reflexivity). lia.
Qed.

(** A tile is left as it is, or its symbol becomes one allowed character. *)
Lemma sanitizeSymbol_cases t :
  sanitize t = t
  ∨ ∃ c, Js.is_object t = true ∧ allowed whitelistExtra c = true
         ∧ Js.is_string (Js.get t "symbol") = true
         ∧ sanitize t = Js.set t "symbol" (JStr (String c "")).
Proof.
  unfold sanitizeSymbol. destruct (Js.truthy t); cbn [negb]; [|by left].
  destruct (Js.get t "symbol") as [| | | |[|ch rest]| |] eqn:Hs; try by left.
  assert (Hobj : Js.is_object t = true)
    by (apply (get_is_object t "symbol"); by rewrite Hs).
  destruct (allowed whitelistExtra ch) eqn:Hch; cbn [negb].
  - destruct (1 <? _); [|by left]. right. by exists ch.
  - destruct (fallback_allowed (Z.abs (id_length t) + char_code ch)) as (c & -> & Hc).
    right. by exists c.
Qed.

Lemma sanitizeSymbol_fixed t : sanitize (sanitize t) = sanitize t.
Proof.
  destruct (sanitizeSymbol_cases t) as [Hid|(c & Hobj & Hc & _ & Hs)]; [by rewrite !Hid|].
  rewrite Hs. unfold sanitizeSymbol at 1.
  rewrite is_object_truthy by (by rewrite is_object_set). cbn [negb].
  rewrite get_set_eq by done. by rewrite Hc.
Qed.

Lemma sanitizeSymbol_get t k : k ≠ "symbol"%string → Js.get (sanitize t) k = Js.get t k.
Proof.
  intros Hk. destruct (sanitizeSymbol_cases t) as [->|(c & _ & _ & _ & ->)]; [done|].
  by rewrite get_set_ne.
Qed.

Lemma sanitizeSymbol_is_object t : Js.is_object (sanitize t) = Js.is_object t.
Proof.
  destruct (sanitizeSymbol_cases t) as [->|(c & _ & _ & _ & ->)]; [done|].
  apply is_object_set.
Qed.

Lemma sanitizeSymbol_check t u :
  checkForegroundTile t = Ok u → checkForegroundTile (sanitize t) = Ok u.
Proof.
  destruct (sanitizeSymbol_cases t) as [->|(c & Hobj & _ & _ & ->)]; [done|].
  unfold checkForegroundTile, tile_field.
  rewrite nullish_set, (get_set_ne t "symbol" "name"), (get_set_ne t "symbol" "color"),
    (get_set_ne t "symbol" "walkable") by discriminate.
  rewrite get_set_eq by done.
  destruct (Js.nullish t); [discriminate|]. cbn [mbind result_bind].
  destruct (Js.is_string (Js.get t "name")); [|discriminate]. cbn [assert mbind result_bind].
  destruct (is_short_string (Js.get t "symbol")); [|discriminate]. intros Hc. exact Hc.
Qed.

Lemma forEach_sanitized list : ∀ u,
  forEach checkForegroundTile list = Ok u →
  forEach checkForegroundTile (map sanitize list) = Ok u.
Proof.
  induction list as [|t list IH]; intros u Hl; [done|].
  cbn [forEach map] in *. apply rbind_inv in Hl as (u' & Ht & Hl).
  by rewrite (sanitizeSymbol_check t u' Ht), (IH u Hl).
Qed.

Lemma sanitizeTiles_fixed tiles :
  sanitizeTiles whitelistExtra (sanitizeTiles whitelistExtra tiles)
  = sanitizeTiles whitelistExtra tiles.
Proof.
  unfold sanitizeTiles at 2 3.
  destruct (Js.get tiles "foreground") as [| | | | |e named|] eqn:Hfg;
    try (unfold sanitizeTiles; by rewrite Hfg).
  assert (Hobj : Js.is_object tiles = true)
    by (apply (get_is_object tiles "foreground"); by rewrite Hfg).
  unfold sanitizeTiles. rewrite get_set_eq by done.
  rewrite set_set. do 2 f_equal. rewrite map_map.
  apply map_ext. intros t. apply sanitizeSymbol_fixed.
Qed.

Lemma validateTiles_sanitized tiles ids :
  validateTiles tiles = Ok ids →
  validateTiles (sanitizeTiles whitelistExtra tiles) = Ok ids.
Proof.
  unfold sanitizeTiles.
  destruct (Js.get tiles "foreground") as [| | | | |e named|] eqn:Hfg; try done.
  assert (Hobj : Js.is_object tiles = true)
    by (apply (get_is_object tiles "foreground"); by rewrite Hfg).
  unfold validateTiles. rewrite is_object_set, Hobj.
  rewrite (get_set_ne tiles "foreground" "background") by discriminate.
  rewrite get_set_eq by done. rewrite Hfg.
  cbn [Js.elements Js.is_array]. intros Hv.
  apply rbind_inv in Hv as (u0 & _ & Hv).
  apply rbind_inv in Hv as (u1 & Hne & Hv). rewrite Hne.
  apply rbind_inv in Hv as (u2 & _ & Hv).
  apply rbind_inv in Hv as (u3 & Hbg & Hv). rewrite Hbg.
  apply rbind_inv in Hv as (u4 & Hfgs & Hv). rewrite (forEach_sanitized e u4 Hfgs).
  unfold uniqIds in *. rewrite (uniqIds_from_map sanitize).
  - exact Hv.
  - intros t. split; [apply sanitizeSymbol_is_object|by apply sanitizeSymbol_get].
Qed.

End Sanitized.

(** *** The run *)

Section Twice.
Context `{Host}.
Variables (width height : Z) (whitelistExtra : string) (fallbackTiles : json).

Local Abbreviation prepare := (prepareSpec width height fallbackTiles).
Local Abbreviation world :=
  (JObj [("width", JNum (Num.of_Z width)); ("height", JNum (Num.of_Z height));
         ("metersPerCell", JNum 1)]%string).

Lemma set_not_object o k v : Js.is_object o = false → Js.set o k v = o.
Proof. by destruct o. Qed.

Lemma get_not_object o k : Js.is_object o = false → Js.get o k = JUndef.
Proof. by destruct o. Qed.

(** A spec that holds [world] and tiles is left as it is. *)
Lemma prepareSpec_id spec :
  Js.get spec "world" = world → Js.truthy (Js.get spec "tiles") = true →
  prepare spec = spec.
Proof.
  intros Hw Ht. unfold prepareSpec. rewrite (set_id spec "world") by done.
  by rewrite Ht.
Qed.

Lemma prepareSpec_fixed spec : prepare (prepare spec) = prepare spec.
Proof.
  destruct (Js.is_object spec) eqn:Hobj.
  - remember (prepare spec) as p eqn:Hp. unfold prepareSpec in Hp.
    set (s0 := Js.set spec "world" world) in Hp.
    assert (Hw : Js.get s0 "world" = world) by (by apply get_set_eq).
    destruct (Js.truthy (Js.get s0 "tiles")) eqn:Ht; cbn [negb] in Hp; subst p.
    + by apply prepareSpec_id.
    + unfold prepareSpec.
      rewrite (set_id (Js.set s0 "tiles" fallbackTiles) "world")
        by (by rewrite ?get_set_ne by discriminate).
      rewrite get_set_eq by (unfold s0; by rewrite is_object_set).
      destruct (Js.truthy fallbackTiles); cbn [negb]; [done|apply set_set].
  - assert (Hp : ∀ s, Js.is_object s = false → prepare s = s).
    { intros s Hs. unfold prepareSpec. rewrite !(set_not_object s) by done.
      by destruct (negb _). }
    rewrite (Hp spec Hobj). exact (Hp spec Hobj).
Qed.

Lemma prepareSpec_world spec :
  Js.is_object spec = true → Js.get (prepare spec) "world" = world.
Proof.
  intros Hobj. unfold prepareSpec.
  destruct (negb _); rewrite ?get_set_ne by discriminate; by apply get_set_eq.
Qed.

Lemma prepareSpec_is_object spec : Js.is_object (prepare spec) = Js.is_object spec.
Proof. unfold prepareSpec. destruct (negb _); by rewrite ?is_object_set. Qed.

Lemma storeOps_cases spec ops' :
  (Js.is_array (Js.get spec "ops") = false ∧ storeOps spec ops' = spec)
  ∨ ∃ e named, Js.get spec "ops" = JArr e named
               ∧ storeOps spec ops' = Js.set spec "ops" (JArr ops' named).
Proof.
  unfold storeOps. destruct (Js.get spec "ops") as [| | | | |e named|]; try by left.
  right. by exists e, named.
Qed.

Lemma generate_rerun spec reference spec' r :
  generate width height whitelistExtra fallbackTiles spec reference = (spec', r) →
  generate width height whitelistExtra fallbackTiles spec' reference = (spec', r).
Proof.
  unfold generate at 1.
  set (perm := Noise.makeValueNoise2D (xfnv1a reference)).
  set (spec1 := prepare spec).
  destruct (validateTiles (Js.get spec1 "tiles")) as [[bgIds fgIds]|e] eqn:Hv.
  2:{ intros [= <- <-].
      assert (Hp1 : prepare spec1 = spec1) by apply prepareSpec_fixed.
      unfold generate. rewrite Hp1, Hv. reflexivity. }
  destruct (validateTiles_spec _ _ _ Hv) as (_ & _ & _ & _ & Htobj).
  assert (Hobj1 : Js.is_object spec1 = true).
  { apply (get_is_object spec1 "tiles"). by destruct (Js.get spec1 "tiles"). }
  assert (Hobj : Js.is_object spec = true)
    by (unfold spec1 in Hobj1; by rewrite prepareSpec_is_object in Hobj1).
  set (tiles := sanitizeTiles whitelistExtra (Js.get spec1 "tiles")).
  set (spec2 := Js.set spec1 "tiles" tiles).
  assert (Htobj' : Js.is_object tiles = true).
  { unfold tiles, sanitizeTiles. destruct (Js.get (Js.get spec1 "tiles") "foreground");
      by rewrite ?is_object_set. }
  assert (Hv' : validateTiles tiles = Ok (bgIds, fgIds))
    by (by apply validateTiles_sanitized).
  assert (Hfix : sanitizeTiles whitelistExtra tiles = tiles)
    by apply sanitizeTiles_fixed.
  assert (Hnu : tiles ≠ JUndef) by (by destruct tiles).
  (* what a second run sees in a spec that holds these tiles *)
  assert (Hsecond : ∀ s, Js.get s "world" = world → Js.get s "tiles" = tiles →
            prepare s = s ∧ validateTiles (Js.get (prepare s) "tiles") = Ok (bgIds, fgIds)
            ∧ Js.set s "tiles" (sanitizeTiles whitelistExtra (Js.get s "tiles")) = s).
  { intros s Hw Ht.
    assert (Hp : prepare s = s).
    { apply prepareSpec_id; [done|]. rewrite Ht. by apply is_object_truthy. }
    rewrite Hp, Ht, Hfix. split; [done|]. split; [done|]. by apply set_id. }
  assert (Hw2 : Js.get spec2 "world" = world).
  { unfold spec2. rewrite get_set_ne by discriminate. by apply prepareSpec_world. }
  assert (Ht2 : Js.get spec2 "tiles" = tiles) by (by apply get_set_eq).
  destruct (checkLimits (specLayers spec2) (specOps spec2)) as [u|e] eqn:Hl.
  2:{ intros [= <- <-]. unfold generate.
      destruct (Hsecond spec2 Hw2 Ht2) as (-> & -> & Hs). rewrite Ht2, Hfix.
      rewrite (set_id spec2 "tiles") by done. by rewrite Hl. }
  set (g0 := newGrids width height (defaultBg tiles)).
  pose proof (runOps_fixed reference width height bgIds fgIds (specLayers spec2) perm
                (specOps spec2) 0 g0 new_sampler) as Hrerun.
  pose proof (runOps_length reference width height bgIds fgIds (specLayers spec2) perm
                (specOps spec2) 0 g0 new_sampler) as Hlen.
  destruct (runOps reference width height bgIds fgIds (specLayers spec2) perm
              (specOps spec2) 0 g0 new_sampler) as [ops' r0] eqn:Hrun.
  cbn [fst] in Hrerun, Hlen.
  intros [= <- <-].
  set (spec3 := storeOps spec2 ops').
  assert (Hw3 : Js.get spec3 "world" = world).
  { unfold spec3. destruct (storeOps_cases spec2 ops') as [[_ ->]|(e & named & _ & ->)];
      [done|]. by rewrite get_set_ne by discriminate. }
  assert (Ht3 : Js.get spec3 "tiles" = tiles).
  { unfold spec3. destruct (storeOps_cases spec2 ops') as [[_ ->]|(e & named & _ & ->)];
      [done|]. by rewrite get_set_ne by discriminate. }
  assert (Hlay : specLayers spec3 = specLayers spec2).
  { unfold spec3, specLayers.
    destruct (storeOps_cases spec2 ops') as [[_ ->]|(e & named & _ & ->)]; [done|].
    by rewrite !(get_set_ne spec2 "ops" "layers") by discriminate. }
  assert (Hops : specOps spec3 = ops' ∧ storeOps spec3 ops' = spec3
                 ∧ length ops' = length (specOps spec2)).
  { unfold spec3. destruct (storeOps_cases spec2 ops') as [[Hna Hs]|(e & named & He & Hs)].
    - rewrite Hs. split; [|done].
      unfold specOps in *. destruct (Js.get spec2 "ops"); try discriminate Hna;
        cbn in Hrun; by injection Hrun as <- _.
    - rewrite Hs. unfold specOps, storeOps.
      rewrite get_set_eq by (unfold spec2; by rewrite is_object_set).
      cbn [Js.elements]. rewrite set_set. done. }
  destruct Hops as (Hops & Hstore & Hlen').
  unfold generate.
  destruct (Hsecond spec3 Hw3 Ht3) as (-> & -> & Hs). rewrite Ht3, Hfix.
  rewrite (set_id spec3 "tiles") by done.
  rewrite Hlay, Hops.
  assert (Hl' : checkLimits (specLayers spec2) ops' = Ok u).
  { unfold checkLimits in *. rewrite Hlen. exact Hl. }
  rewrite Hl'. fold perm. fold g0. rewrite Hrerun. by rewrite Hstore.
Qed.

End Twice.

(** C1: a run is a function of the spec, the seed, the whitelist text and the
    fallback tiles, and of nothing else, so two runs on equal specs and seeds
    agree.  A run also stores into the spec object it is given ([world], the
    sanitized symbols, the clamped [w], [h] and [p] of the prefabs); a second
    run on the same object, that is on the spec as the first run left it,
    gives the same outcome again (the same tiles and the same cells, or the
    same error) and leaves the object as it is.  This holds for every grid
    size, in particular for the 200 by 200 of [Generate].  Within a
    [stamp.scatter] op the second run starts from the same prefabs, count,
    budget and random stream, so the state its loop ends in, with the list of
    placements in order, is the same. *)
Theorem generate_twice `{Host} (whitelistExtra : string) (fallbackTiles : json) :
  (∀ width height spec reference,
     let first := generate width height whitelistExtra fallbackTiles spec reference in
     generate width height whitelistExtra fallbackTiles first.1 reference = first)
  ∧ (∀ spec reference,
     let first := Generate whitelistExtra fallbackTiles spec reference in
     Generate whitelistExtra fallbackTiles first.1 reference = first)
  ∧ (∀ reference width height bgIds fgIds layers perm op g s,
     let op' := opAfter bgIds fgIds op in
     scatterRun reference width height layers perm op'
       (scatterPrefabs bgIds fgIds op').1 g s
     = scatterRun reference width height layers perm op
         (scatterPrefabs bgIds fgIds op).1 g s).
Proof.
  assert (Hgen : ∀ width height spec reference,
    let first := generate width height whitelistExtra fallbackTiles spec reference in
    generate width height whitelistExtra fallbackTiles first.1 reference = first).
  { intros width height spec reference first.
    destruct first as [spec' r] eqn:Hfirst. by apply generate_rerun in Hfirst. }
  split; [exact Hgen|]. split; [intros spec reference; apply Hgen|].
  intros reference width height bgIds fgIds layers perm op g s op'. unfold op'.
  destruct (opAfter_cases bgIds fgIds op) as [Hid|(e & named & Hp & _ & Hop)];
    [by rewrite !Hid|].
  rewrite Hop, (scatterPrefabs_stored bgIds fgIds op e named Hp).
  unfold scatterRun, scatterMaxAttempts, scatterCount.
  by rewrite !(get_set_ne op "prefabs") by discriminate.
Qed.

(** ** Comparisons of numbers *)

Lemma SFcompare_antisym (x y : spec_float) :
  SFcompare y x = option_map CompOpp (SFcompare x y).
Proof.
  destruct x as [sx|sx| |sx mx ex], y as [sy|sy| |sy my ey]; cbn; try reflexivity;
    try (by destruct sx); try (by destruct sy); try (by destruct sx, sy).
  f_equal. destruct sx, sy; try reflexivity.
  - rewrite (Z.compare_antisym ey ex). destruct (ey ?= ex)%Z; cbn; try reflexivity.
    fold (Pos.compare my mx). fold (Pos.compare mx my).
    by rewrite (Pos.compare_antisym mx my).
  - rewrite (Z.compare_antisym ey ex). destruct (ey ?= ex)%Z; cbn; try reflexivity.
    fold (Pos.compare my mx). fold (Pos.compare mx my).
    by rewrite (Pos.compare_antisym mx my).
Qed.

Lemma is_nan_compare (x : float) :
  Num.is_nan x = false → ∀ y, Num.is_nan y = false →
  ∃ c, SFcompare (Prim2SF x) (Prim2SF y) = Some c.
Proof.
  unfold Num.is_nan. rewrite !negb_false_iff. intros Hx y.
  rewrite !FloatAxioms.eqb_spec in *. unfold SFeqb in *. intros Hy.
  destruct (Prim2SF x) as [| | |], (Prim2SF y) as [| | |]; cbn in *; try discriminate; eauto.
Qed.

(** Two numbers that are not NaN are comparable. *)
Lemma ltb_false_leb (x y : float) :
  Num.is_nan x = false → Num.is_nan y = false →
  (y <? x)%float = false → (x <=? y)%float = true.
Proof.
  intros Hx Hy. destruct (is_nan_compare x Hx y Hy) as [c Hc].
  rewrite FloatAxioms.ltb_spec, FloatAxioms.leb_spec. unfold SFltb, SFleb.
  rewrite (SFcompare_antisym (Prim2SF x) (Prim2SF y)), Hc. by destruct c.
Qed.

Lemma is_nan_spec (x : float) : Num.is_nan x = true → Prim2SF x = S754_nan.
Proof.
  unfold Num.is_nan. rewrite negb_true_iff, FloatAxioms.eqb_spec. unfold SFeqb.
  destruct (Prim2SF x) as [s|s| |s m e]; cbn; try done.
  - by destruct s.
  - rewrite Z.compare_refl. fold (Pos.compare m m). rewrite Pos.compare_refl. by destruct s.
Qed.

Lemma ltb_nan_l (x y : float) : Num.is_nan x = true → (x <? y)%float = false.
Proof. intros Hx%is_nan_spec. rewrite FloatAxioms.ltb_spec, Hx. reflexivity. Qed.

Lemma ltb_nan_r (x y : float) : Num.is_nan y = true → (x <? y)%float = false.
Proof.
  intros Hy%is_nan_spec. rewrite FloatAxioms.ltb_spec, Hy. by destruct (Prim2SF x).
Qed.

Lemma leb_nan_l (x y : float) : Num.is_nan x = true → (x <=? y)%float = false.
Proof. intros Hx%is_nan_spec. rewrite FloatAxioms.leb_spec, Hx. reflexivity. Qed.

(** [clamp01] maps every number but NaN into [0, 1], and NaN to itself. *)
Lemma clamp01_in_unit (x : float) : in_unit (clamp01 x) = negb (Num.is_nan x).
Proof.
  destruct (Num.is_nan x) eqn:Hx; cbn [negb].
  - unfold clamp01. rewrite (ltb_nan_l x 0 Hx), (ltb_nan_r 1 x Hx).
    unfold in_unit. rewrite (leb_nan_l x 1 Hx). apply andb_false_r.
  - unfold clamp01.
    destruct (x <? 0)%float eqn:H0; [reflexivity|].
    destruct (1 <? x)%float eqn:H1; [reflexivity|].
    unfold in_unit.
    rewrite (ltb_false_leb 0 x eq_refl Hx H0), (ltb_false_leb x 1 Hx eq_refl H1).
    reflexivity.
Qed.

Lemma ltb_leb (x y : float) : (x <? y)%float = true → (x <=? y)%float = true.
Proof.
  rewrite FloatAxioms.ltb_spec, FloatAxioms.leb_spec. unfold SFltb, SFleb.
  by destruct (SFcompare _ _) as [[]|].
Qed.

Lemma leb_refl (x : float) : Num.is_nan x = false → (x <=? x)%float = true.
Proof.
  intros Hx. apply ltb_false_leb; [done..|].
  destruct (is_nan_compare x Hx x Hx) as [c Hc].
  pose proof (SFcompare_antisym (Prim2SF x) (Prim2SF x)) as Ha.
  rewrite Hc in Ha. cbn in Ha.
  rewrite FloatAxioms.ltb_spec. unfold SFltb. rewrite Hc. by destruct c.
Qed.

Lemma is_finite_not_nan (x : float) : Num.is_finite x = true → Num.is_nan x = false.
Proof.
  unfold Num.is_finite, Num.is_nan. rewrite negb_false_iff, FloatAxioms.eqb_spec.
  unfold SFeqb. destruct (Prim2SF x) as [s|s| |s m e]; cbn; try done.
  intros _. rewrite Z.compare_refl. fold (Pos.compare m m). rewrite Pos.compare_refl.
  by destruct s.
Qed.

(** [Math.min] and [Math.max] of two numbers that are not NaN. *)
Lemma num_min_spec (a b : float) :
  Num.is_nan a = false → Num.is_nan b = false →
  (Num.min a b = a ∨ Num.min a b = b)
  ∧ (Num.min a b <=? a)%float = true ∧ (Num.min a b <=? b)%float = true.
Proof.
  intros Ha Hb. unfold Num.min. rewrite Ha, Hb. cbn [orb].
  destruct (a <? b)%float eqn:Hab.
  { split; [by left|]. split; [by apply leb_refl|by apply ltb_leb]. }
  destruct (b <? a)%float eqn:Hba.
  { split; [by right|]. split; [by apply ltb_leb|by apply leb_refl]. }
  destruct (Num.is_neg_zero a).
  - split; [by left|]. split; [by apply leb_refl|by apply ltb_false_leb].
  - split; [by right|]. split; [by apply ltb_false_leb|by apply leb_refl].
Qed.

Lemma num_max_spec (a b : float) :
  Num.is_nan a = false → Num.is_nan b = false →
  (Num.max a b = a ∨ Num.max a b = b)
  ∧ (a <=? Num.max a b)%float = true ∧ (b <=? Num.max a b)%float = true.
Proof.
  intros Ha Hb. unfold Num.max. rewrite Ha, Hb. cbn [orb].
  destruct (a <? b)%float eqn:Hab.
  { split; [by right|]. split; [by apply ltb_leb|by apply leb_refl]. }
  destruct (b <? a)%float eqn:Hba.
  { split; [by left|]. split; [by apply leb_refl|by apply ltb_leb]. }
  destruct (Num.is_neg_zero a).
  - split; [by right|]. split; [by apply ltb_false_leb|by apply leb_refl].
  - split; [by left|]. split; [by apply leb_refl|by apply ltb_false_leb].
Qed.

(** ** The range of the sampler, NaN apart *)

(** [v] is in [0, 1] or is NaN. *)
Definition unit_or_nan (v : float) : bool := in_unit v || Num.is_nan v.

(** Every value in the cache of constant layers is in [0, 1]. *)
Definition cache_in_unit (s : sampler) : Prop :=
  Forall (λ kv : json * float, in_unit kv.2 = true) (cacheConst s).

Lemma clamp01_nan (x : float) : Num.is_nan x = true → clamp01 x = x.
Proof.
  intros Hx. unfold clamp01. by rewrite (ltb_nan_l x 0 Hx), (ltb_nan_r 1 x Hx).
Qed.

Lemma clamp01_unit_or_nan (x : float) : unit_or_nan (clamp01 x) = true.
Proof.
  unfold unit_or_nan. rewrite clamp01_in_unit.
  destruct (Num.is_nan x) eqn:Hx; [|reflexivity]. by rewrite clamp01_nan.
Qed.

Lemma or_else_not_nan (t d : float) :
  Num.is_nan d = false → Num.is_nan (Num.or_else t d) = false.
Proof.
  intros Hd. unfold Num.or_else, Num.truthy.
  destruct (Num.is_nan t) eqn:Ht; [by rewrite orb_true_r|].
  by destruct (negb _).
Qed.

Lemma map_get_elem {V} (m : list (json * V)) (k : json) (v : V) :
  map_get m k = Some v → ∃ k', (k', v) ∈ m.
Proof.
  induction m as [|[k0 v0] m IH]; cbn; [discriminate|].
  destruct (same_value k0 k).
  - intros [= ->]. exists k0. apply elem_of_cons. by left.
  - intros [k' Hk']%IH. exists k'. apply elem_of_cons. by right.
Qed.

Section Range.
Context `{Host}.
Variables (seed : string) (width height : Z) (layers : json) (perm : list Z).
Variables (x y : Z).

Local Abbreviation sample :=
  (λ fuel ref, sampleLayer_fuel seed width height layers perm fuel ref x y).
Local Abbreviation out := (layerOut seed width height perm).

Lemma layerOffset_cache k s :
  ∃ v s', layerOffset seed k s = Ok (v, s') ∧ cacheConst s' = cacheConst s.
Proof.
  unfold layerOffset, mbind, M_bind, get_state.
  destruct (map_get (seedOffsets s) k) as [v|].
  - exists v, s. split; reflexivity.
  - eexists _, _. split; reflexivity.
Qed.

(** A call that returns keeps the cache within [0, 1]. *)
Definition keeps_cache (f : json → M float) : Prop :=
  ∀ ref s v s', cache_in_unit s → f ref s = Ok (v, s') → cache_in_unit s'.

Lemma layerOut_cache f def name key s v s' :
  keeps_cache f → cache_in_unit s →
  out f def name x y key s = Ok (v, s') → cache_in_unit s'.
Proof.
  intros Hf Hs. unfold layerOut.
  assert (Hoff : ∀ k (g : float * float → M float),
            (∀ o s1 v1 s2, g o s1 = Ok (v1, s2) → s2 = s1) →
            (layerOffset seed k ≫= g) s = Ok (v, s') → cache_in_unit s').
  { intros k g Hg. unfold mbind, M_bind.
    destruct (layerOffset_cache k s) as (o & s1 & -> & Hc).
    intros ->%Hg. unfold cache_in_unit. by rewrite Hc. }
  destruct (Js.str_is _ "fbm").
  { apply Hoff. intros [ox oy] s1 v1 s2. by intros [_ ->]%ret_inv. }
  destruct (Js.str_is _ "valueNoise").
  { apply Hoff. intros [ox oy] s1 v1 s2. by intros [_ ->]%ret_inv. }
  destruct (Js.str_is _ "radialGradient"); [by intros [_ ->]%ret_inv|].
  destruct (Js.str_is _ "shape").
  { intros (b & s1 & [_ ->]%lift_inv & [_ ->]%ret_inv)%bind_inv. done. }
  destruct (Js.str_is _ "combine"); [|discriminate].
  intros (a & s1 & Ha & Hrest)%bind_inv.
  apply bind_inv in Hrest as (b & s2 & Hb & [_ ->]%ret_inv).
  assert (Hs1 : cache_in_unit s1).
  { destruct (Js.truthy (Js.get_opt (Js.get def "a") "ref"));
      [by eapply Hf|by apply ret_inv in Ha as [_ ->]]. }
  destruct (Js.truthy (Js.get_opt (Js.get def "b") "ref"));
    [by eapply Hf|by apply ret_inv in Hb as [_ ->]].
Qed.

Lemma sampleLayer_fuel_range fuel : ∀ name s v s',
  cache_in_unit s → sample fuel name s = Ok (v, s') →
  unit_or_nan v = true ∧ cache_in_unit s'.
Proof.
  induction fuel as [|fuel IH]; intros name s v s' Hs; [discriminate|].
  cbn [sampleLayer_fuel].
  destruct (Js.truthy (layer_def layers name)); cbn [negb]; [|discriminate].
  destruct (Js.str_is _ "const").
  - unfold mbind, M_bind, get_state.
    destruct (map_get (cacheConst s) name) as [c|] eqn:Hget.
    + intros [= <- <-]. split; [|done].
      apply map_get_elem in Hget as [k' Hk'].
      unfold cache_in_unit in Hs. rewrite Forall_forall in Hs.
      unfold unit_or_nan. specialize (Hs _ Hk'). cbn [snd] in Hs. by rewrite Hs.
    + intros [= <- <-].
      assert (Hv : in_unit (clamp01 (Js.number_or (Js.get (layer_def layers name) "value") 0))
                   = true).
      { rewrite clamp01_in_unit. unfold Js.number_or. by rewrite or_else_not_nan. }
      split; [unfold unit_or_nan; by rewrite Hv|].
      unfold cache_in_unit. cbn [cacheConst]. by apply Forall_cons.
  - unfold mbind at 1, M_bind at 1, get_state.
    destruct (bool_decide _); [discriminate|].
    intros (u & s1 & [= _ <-] & Hrun)%bind_inv.
    apply bind_inv in Hrun as (o & s2 & Hout & Hrun).
    apply bind_inv in Hrun as (u' & s3 & [= _ <-] & [-> ->]%ret_inv).
    split; [apply clamp01_unit_or_nan|].
    apply layerOut_cache in Hout; [exact Hout| |exact Hs].
    intros ref s0 v0 s0' Hs0 Hr. by apply (IH ref s0 v0 s0' Hs0).
Qed.

End Range.

(** Whatever the layer mapping, a value that [sampleLayer] returns is in
    [0, 1] or is NaN, and the cache of constant layers only ever holds values
    in [0, 1]: the final [clamp01] stops everything but NaN. *)
Theorem sampleLayer_unit_or_nan `{Host} (seed : string) (width height : Z) (layers : json)
    (perm : list Z) (name : json) (x y : Z) (s : sampler) (v : float) (s' : sampler) :
  cache_in_unit s →
  sampleLayer seed width height layers perm name x y s = Ok (v, s') →
  (in_unit v = true ∨ Num.is_nan v = true) ∧ cache_in_unit s'.
Proof.
  intros Hs Hrun. unfold sampleLayer in Hrun.
  destruct (sampleLayer_fuel_range seed width height layers perm x y _ name s v s' Hs Hrun)
    as [Hv Hs'].
  split; [|exact Hs']. unfold unit_or_nan in Hv. by apply orb_true_iff in Hv.
Qed.

Lemma sampleLayer_unit_or_nan_witness :
  match sampleLayer (H:=example_host) "seed" 200 200
          (JObj [("edge", thresholdLayer 0.6)]%string) [] (JStr "edge") 3 4 new_sampler with
  | Ok (v, s') => (in_unit v = true ∨ Num.is_nan v = true) ∧ cache_in_unit s'
  | Throw _ => False
  end.
Proof.
  destruct (sampleLayer (H:=example_host) "seed" 200 200
              (JObj [("edge", thresholdLayer 0.6)]%string) [] (JStr "edge") 3 4 new_sampler)
    as [[v s']|e] eqn:E.
  - exact (sampleLayer_unit_or_nan (H:=example_host) _ _ _ _ _ _ _ _ new_sampler _ _
             (List.Forall_nil _) E).
  - vm_compute in E. discriminate E.
Defined.

(** ** The in-progress set *)

(** A call of [sampleLayer] that returns leaves the in-progress set as it
    found it, whatever the set held: the key added on entry is deleted before
    the value is returned, so the layer can be sampled again at the same
    coordinate. *)
Theorem sampleLayer_leaves_visiting `{Host} (seed : string) (width height : Z)
    (layers : json) (perm : list Z) (name : json) (x y : Z) (s : sampler)
    (v : float) (s' : sampler) :
  sampleLayer seed width height layers perm name x y s = Ok (v, s') →
  visiting s' = visiting s
  ∧ (Js.str_is (Js.get (layer_def layers name) "type") "const" = false →
     visit_key name x y ∉ visiting s).
Proof.
  intros Hrun. unfold sampleLayer in Hrun. split.
  - exact (sampleLayer_restores seed width height layers perm x y _ name s v s' Hrun).
  - intros Hnc. apply sampleLayer_ok_inv in Hrun as (_ & [[Hc _]|(_ & Hnew & _)]).
    + by rewrite Hc in Hnc.
    + exact Hnew.
Qed.

Lemma sampleLayer_leaves_visiting_witness :
  match sampleLayer (H:=example_host) "seed" 200 200
          (JObj [("edge", thresholdLayer 0.4)]%string) [] (JStr "edge") 3 4 new_sampler with
  | Ok (v, s') =>
      visiting s' = visiting new_sampler
      ∧ (Js.str_is (Js.get (layer_def (H:=example_host)
                              (JObj [("edge", thresholdLayer 0.4)]%string) (JStr "edge"))
                      "type") "const" = false →
         visit_key (H:=example_host) (JStr "edge") 3 4 ∉ visiting new_sampler)
  | Throw _ => False
  end.
Proof.
  destruct (sampleLayer (H:=example_host) "seed" 200 200
              (JObj [("edge", thresholdLayer 0.4)]%string) [] (JStr "edge") 3 4 new_sampler)
    as [[v s']|e] eqn:E.
  - exact (sampleLayer_leaves_visiting (H:=example_host) _ _ _ _ _ _ _ _ _ _ _ E).
  - vm_compute in E. discriminate E.
Defined.

(** ** The weighted choice *)

(** [pickWeighted] returns one of the items it is given, whatever their
    weights and whatever the random stream holds; of an empty list it returns
    [undefined] and draws nothing. *)
Theorem pickWeighted_member `{Host} (h : Z) (items : list json) :
  (items ≠ [] → (pickWeighted h items).1 ∈ items)
  ∧ pickWeighted h [] = (JUndef, h).
Proof.
  split; [|reflexivity].
  intros Hne. unfold pickWeighted.
  assert (Hnth : ∀ i, (i < length items)%nat → nth i items JUndef ∈ items).
  { intros i Hi. apply list_elem_of_In, nth_In, Hi. }
  assert (Hlen : (0 < length items)%nat) by (destruct items; [done|cbn; lia]).
  destruct (_ <=? _)%float; [apply Hnth; lia|].
  destruct (xfnv1a_next h) as [r h'].
  destruct (pick_scan items _) as [it|] eqn:Hscan; cbn [fst].
  - by apply pick_scan_elem in Hscan.
  - apply Hnth. lia.
Qed.

Lemma pickWeighted_member_witness :
  (pickWeighted (H:=example_host) 7 [heavyA; zeroB]).1 ∈ [heavyA; zeroB].
Proof.
  apply (proj1 (pickWeighted_member (H:=example_host) 7 [heavyA; zeroB])). discriminate.
Defined.

(** ** The wrapped remainder *)

(** The idiom [((v - o) % n + n) % n] of [roads.grid] is the non-negative
    remainder of [v - o] by [n], although [%] takes the sign of the
    dividend: the result is in [0, n) and [v - o] minus the result is a
    multiple of [n]. *)
Theorem wrap_remainder (v o n : Z) :
  0 < n →
  0 ≤ wrap v o n < n ∧ wrap v o n = (v - o) mod n ∧ ∃ q, v - o = q * n + wrap v o n.
Proof.
  intros Hn. rewrite (wrap_mod v o n Hn).
  split; [apply Z.mod_pos_bound, Hn|]. split; [reflexivity|].
  exists ((v - o) / n). rewrite Z.mul_comm. apply Z.div_mod. lia.
Qed.

Lemma wrap_remainder_witness :
  0 ≤ wrap (-3) 4 20 < 20 ∧ wrap (-3) 4 20 = (-3 - 4) mod 20
  ∧ ∃ q, -3 - 4 = q * 20 + wrap (-3) 4 20.
Proof. apply (wrap_remainder (-3) 4 20). lia. Defined.

(** ** Placements stay in the grid *)

(** Every placement that the attempt loop of a [stamp.scatter] op makes lies
    inside the grid, and every cell under it is marked in the occupancy
    array, which keeps its [width * height] entries. *)
Theorem scatter_in_grid `{Host} (reference : string) (width height : Z)
    (layers : json) (perm : list Z) (op : json) (prefabs : list json)
    (g : grids) (s : sampler) (st : scatter_state) (s' : sampler) :
  scatterRun reference width height layers perm op prefabs g s = Ok (st, s') →
  (∀ p x y, p ∈ sc_log st → covers p x y →
     0 ≤ x < width ∧ 0 ≤ y < height
     ∧ occ_get (sc_occ st) (y * width + x) = true)
  ∧ length (sc_occ st) = Z.to_nat (width * height).
Proof.
  unfold scatterRun. intros Hrun.
  assert (Hc : 1 ≤ scatterCount op) by (unfold scatterCount, safeInt; lia).
  eapply scatterLoop_inv in Hrun as ([Hlen Hmarked Hdisj Hplaced Hatt] & _ & _).
  - split; [|exact Hlen]. intros p x y Hp Hcov. exact (Hmarked p x y Hp Hcov).
  - split; cbn; [by rewrite length_replicate| |done..]. by intros p x y ?%elem_of_nil.
  - cbn. lia.
Qed.

Lemma scatter_in_grid_witness :
  match scatterRun (H:=example_host) "seed" 8 8 (JObj []) [] scatterOp
          (scatterPrefabs (H:=example_host) {["bg0"%string]} {["tree"%string]} scatterOp).1
          (newGrids 8 8 (JStr "bg0")) new_sampler with
  | Ok (st, _) =>
      (∀ p x y, p ∈ sc_log st → covers p x y →
         0 ≤ x < 8 ∧ 0 ≤ y < 8 ∧ occ_get (sc_occ st) (y * 8 + x) = true)
      ∧ length (sc_occ st) = Z.to_nat (8 * 8)
  | Throw _ => False
  end.
Proof.
  destruct (scatterRun _ _ _ _ _ _ _ _ _) as [[st s']|e] eqn:E.
  - exact (scatter_in_grid (H:=example_host) "seed" 8 8 (JObj []) [] scatterOp
             _ _ _ st s' E).
  - vm_compute in E. discriminate E.
Defined.

(** ** Tiles that pass the validator *)

(** What [validateTiles] asks of every tile. *)
Definition tile_ok (t : json) : Prop :=
  ∃ id, Js.get t "id" = JStr id ∧ ID_RE id = true
        ∧ Js.is_object t = true
        ∧ Js.is_string (Js.get t "name") = true
        ∧ is_hex_color (Js.get t "color") = true
        ∧ Js.is_boolean (Js.get t "walkable") = true.

(** What it asks of a foreground tile besides. *)
Definition symbol_ok (t : json) : Prop :=
  ∃ sym, Js.get t "symbol" = JStr sym ∧ (1 ≤ String.length sym ≤ 4)%nat.

Lemma forEach_inv {A} (check : A → result unit) (l : list A) (u : unit) :
  forEach check l = Ok u → Forall (λ t, check t = Ok tt) l.
Proof.
  induction l as [|t l IH]; cbn [forEach]; [constructor|].
  intros ([] & Ht & Hl)%rbind_inv. constructor; [exact Ht|by apply IH].
Qed.

Lemma uniqIds_from_inv kind (l : list json) : ∀ s s',
  uniqIds_from s l kind = Ok s' →
  Forall (λ t, Js.is_object t = true
               ∧ ∃ id, Js.get t "id" = JStr id ∧ ID_RE id = true ∧ id ∉ s) l
  ∧ NoDup (tile_ids l)
  ∧ size s' = (size s + length l)%nat.
Proof.
  induction l as [|t l IH]; intros s s' Hs.
  - injection Hs as <-. split; [constructor|]. split; [constructor|]. cbn. lia.
  - cbn [uniqIds_from] in Hs. apply rbind_inv in Hs as (_ & Hobj%assert_inv & Hs).
    destruct (Js.get t "id") as [| | | |id| |] eqn:Hid; try discriminate.
    apply rbind_inv in Hs as (_ & Hre%assert_inv & Hs).
    apply rbind_inv in Hs as (_ & Hnew%assert_inv & Hs).
    apply negb_true_iff, bool_decide_eq_false in Hnew.
    destruct (IH _ _ Hs) as (Hall & Hnd & Hsize).
    split; [|split].
    + constructor; [split; [done|]; by exists id|].
      eapply Forall_impl; [exact Hall|]. cbn. intros t' (Ho & id' & Hid' & Hre' & Hn').
      split; [done|]. exists id'. split; [done|]. split; [done|].
      intros Hin. apply Hn', elem_of_union. by right.
    + cbn [tile_ids map]. rewrite Hid. apply NoDup_cons. split; [|exact Hnd].
      intros Hin. unfold tile_ids in Hin. apply list_elem_of_fmap in Hin as (t' & Ht' & Hin).
      rewrite Forall_forall in Hall. destruct (Hall t' Hin) as (_ & id' & Hid' & _ & Hn').
      rewrite Hid' in Ht'. injection Ht' as ->.
      apply Hn', elem_of_union. left. by apply elem_of_singleton.
    + rewrite Hsize, size_union by (by apply disjoint_singleton_l).
      rewrite size_singleton. cbn [length]. lia.
Qed.

Lemma checkBackgroundTile_inv t u :
  checkBackgroundTile t = Ok u →
  Js.is_string (Js.get t "name") = true ∧ is_hex_color (Js.get t "color") = true
  ∧ Js.is_boolean (Js.get t "walkable") = true.
Proof.
  unfold checkBackgroundTile, tile_field. destruct (Js.nullish t); [discriminate|].
  intros (name & [= <-] & Hc)%rbind_inv.
  apply rbind_inv in Hc as (_ & Hn%assert_inv & Hc).
  apply rbind_inv in Hc as (_ & Hcol%assert_inv & Hw%assert_inv). done.
Qed.

Lemma checkForegroundTile_inv t u :
  checkForegroundTile t = Ok u →
  Js.is_string (Js.get t "name") = true ∧ is_hex_color (Js.get t "color") = true
  ∧ Js.is_boolean (Js.get t "walkable") = true ∧ symbol_ok t.
Proof.
  unfold checkForegroundTile, tile_field. destruct (Js.nullish t); [discriminate|].
  intros (name & [= <-] & Hc)%rbind_inv.
  apply rbind_inv in Hc as (_ & Hn%assert_inv & Hc).
  apply rbind_inv in Hc as (_ & Hsym%assert_inv & Hc).
  apply rbind_inv in Hc as (_ & Hcol%assert_inv & Hw%assert_inv).
  split; [done|]. split; [done|]. split; [done|].
  unfold is_short_string in Hsym.
  destruct (Js.get t "symbol") as [| | | |sym| |] eqn:Hsy; try done.
  exists sym. split; [done|]. apply andb_true_iff in Hsym as [H1 H4]. lia.
Qed.

(** When [validateTiles] accepts the tiles, there is at least one background
    tile; every tile is an object with a name, a colour [#RRGGBB], a boolean
    [walkable] and an id that matches [ID_RE]; every foreground tile has a
    symbol of one to four code units; within each of the two lists no id
    occurs twice, and the sets returned hold one id per tile. *)
Theorem validateTiles_accepts (tiles : json) (bgIds fgIds : gset string) :
  validateTiles tiles = Ok (bgIds, fgIds) →
  let background := Js.elements (Js.get tiles "background") in
  let foreground := Js.elements (Js.get tiles "foreground") in
  background ≠ []
  ∧ Forall tile_ok background
  ∧ Forall (λ t, tile_ok t ∧ symbol_ok t) foreground
  ∧ NoDup (tile_ids background) ∧ NoDup (tile_ids foreground)
  ∧ size bgIds = length background ∧ size fgIds = length foreground.
Proof.
  intros Hv background foreground. unfold validateTiles in Hv.
  apply rbind_inv in Hv as (_ & _ & Hv).
  apply rbind_inv in Hv as (_ & Hne%assert_inv & Hv).
  apply rbind_inv in Hv as (_ & _ & Hv).
  apply rbind_inv in Hv as (u1 & Hbg%forEach_inv & Hv).
  apply rbind_inv in Hv as (u2 & Hfg%forEach_inv & Hv).
  apply rbind_inv in Hv as (b & Hb & Hv). apply rbind_inv in Hv as (f & Hf & [= <- <-]).
  fold background in Hne, Hbg, Hb. fold foreground in Hfg, Hf.
  apply uniqIds_from_inv in Hb as (Hbo & Hbn & Hbs).
  apply uniqIds_from_inv in Hf as (Hfo & Hfn & Hfs).
  rewrite size_empty in Hbs, Hfs.
  split; [|split; [|split; [|done]]].
  - apply andb_true_iff in Hne as [_ Hlen]. destruct background; [done|discriminate].
  - rewrite Forall_forall in Hbg, Hbo |- *. intros t Ht.
    destruct (Hbo t Ht) as (Ho & id & Hid & Hre & _).
    destruct (checkBackgroundTile_inv t _ (Hbg t Ht)) as (Hn & Hc & Hw).
    by exists id.
  - rewrite Forall_forall in Hfg, Hfo |- *. intros t Ht.
    destruct (Hfo t Ht) as (Ho & id & Hid & Hre & _).
    destruct (checkForegroundTile_inv t _ (Hfg t Ht)) as (Hn & Hc & Hw & Hs).
    split; [by exists id|done].
Qed.

Lemma validateTiles_accepts_witness :
  match validateTiles (Js.get demoSpec "tiles") with
  | Ok (bgIds, fgIds) =>
      let background := Js.elements (Js.get (Js.get demoSpec "tiles") "background") in
      let foreground := Js.elements (Js.get (Js.get demoSpec "tiles") "foreground") in
      background ≠ []
      ∧ Forall tile_ok background
      ∧ Forall (λ t, tile_ok t ∧ symbol_ok t) foreground
      ∧ NoDup (tile_ids background) ∧ NoDup (tile_ids foreground)
      ∧ size bgIds = length background ∧ size fgIds = length foreground
  | Throw _ => False
  end.
Proof.
  destruct (validateTiles (Js.get demoSpec "tiles")) as [[bgIds fgIds]|e] eqn:E.
  - exact (validateTiles_accepts _ _ _ E).
  - vm_compute in E. discriminate E.
Defined.

(** ** Prefabs that pass the validation loop *)

(** A prefab as the validation loop of [stamp.scatter] leaves it. *)
Definition prefab_normal (bgIds fgIds : gset string) (pf : json) : Prop :=
  ∃ (w h : Z) (p : float),
    Js.get pf "w" = JNum (Num.of_Z w) ∧ 1 ≤ w ≤ 200
    ∧ Js.get pf "h" = JNum (Num.of_Z h) ∧ 1 ≤ h ≤ 200
    ∧ Js.get pf "p" = JNum p ∧ in_unit p = true
    ∧ (Js.nullish (Js.get pf "bg") = true ∨ has_id bgIds (Js.get pf "bg") = true)
    ∧ (Js.nullish (Js.get pf "fg") = true ∨ has_id fgIds (Js.get pf "fg") = true).

Lemma validatePrefab_normal `{Host} bgIds fgIds pf pf' u :
  validatePrefab bgIds fgIds pf = (pf', Ok u) → prefab_normal bgIds fgIds pf'.
Proof.
  intros Hv. pose proof (validatePrefab_ok bgIds fgIds pf pf' u Hv) as [Hbg Hfg].
  revert Hv. unfold validatePrefab.
  destruct (Js.is_object pf) eqn:Hobj; cbn [negb]; [|discriminate].
  set (w := safeInt (Js.get pf "w") 1 1 200).
  set (h := safeInt (Js.get pf "h") 1 1 200).
  set (pf1 := Js.set (Js.set pf "w" (JNum (Num.of_Z w))) "h" (JNum (Num.of_Z h))).
  destruct (_ ;; _) as [[]|e]; [|discriminate].
  set (p := clamp01 _). intros [= <-].
  assert (Hobj1 : Js.is_object pf1 = true) by (unfold pf1; by rewrite !is_object_set).
  exists w, h, p.
  split. { rewrite get_set_ne by discriminate. unfold pf1.
           rewrite get_set_ne by discriminate. by apply get_set_eq. }
  split. { apply safeInt_range. lia. }
  split. { rewrite get_set_ne by discriminate. unfold pf1. apply get_set_eq.
           by rewrite is_object_set. }
  split. { apply safeInt_range. lia. }
  split. { by apply get_set_eq. }
  split. { unfold p. rewrite clamp01_in_unit. unfold Js.number_or.
           by rewrite or_else_not_nan. }
  split.
  - destruct (Js.nullish (Js.get (Js.set pf1 "p" (JNum p)) "bg")) eqn:Hn; [by left|].
    right. by apply Hbg.
  - destruct (Js.nullish (Js.get (Js.set pf1 "p" (JNum p)) "fg")) eqn:Hn; [by left|].
    right. destruct (Hfg eq_refl) as [Hnull|Hid]; [|done]. by rewrite Hnull in Hn.
Qed.

(** When the validation loop of [stamp.scatter] ends without an error, every
    prefab holds an integer [w] and an integer [h] between 1 and 200 and a
    weight [p] in [0, 1] (never NaN), and its [bg] and [fg], when given, are
    ids of validated tiles; the list keeps its length. *)
Theorem validatePrefabs_normalized `{Host} (bgIds fgIds : gset string)
    (prefabs prefabs' : list json) (u : unit) :
  validatePrefabs bgIds fgIds prefabs = (prefabs', Ok u) →
  Forall (prefab_normal bgIds fgIds) prefabs' ∧ length prefabs' = length prefabs.
Proof.
  intros Hv. split.
  - revert prefabs' Hv. induction prefabs as [|pf rest IH]; intros prefabs';
      cbn [validatePrefabs].
    + intros [= <-]. constructor.
    + destruct (validatePrefab bgIds fgIds pf) as [pf' [[]|e]] eqn:Hpf; [|discriminate].
      destruct (validatePrefabs bgIds fgIds rest) as [rest' r] eqn:Hrest.
      intros [= <- ->]. constructor; [by eapply validatePrefab_normal|by apply IH].
  - pose proof (validatePrefabs_length bgIds fgIds prefabs) as Hlen.
    by rewrite Hv in Hlen.
Qed.

Lemma validatePrefabs_normalized_witness :
  match validatePrefabs (H:=example_host) {["bg0"%string]} {["tree"%string]}
          (Js.elements (Js.get scatterOp "prefabs")) with
  | (prefabs', Ok _) =>
      Forall (prefab_normal {["bg0"%string]} {["tree"%string]}) prefabs'
      ∧ length prefabs' = length (Js.elements (Js.get scatterOp "prefabs"))
  | (_, Throw _) => False
  end.
Proof.
  destruct (validatePrefabs (H:=example_host) {["bg0"%string]} {["tree"%string]}
              (Js.elements (Js.get scatterOp "prefabs"))) as [prefabs' [u|e]] eqn:E.
  - exact (validatePrefabs_normalized (H:=example_host) _ _ _ _ _ E).
  - vm_compute in E. discriminate E.
Defined.

(** ** The whitelist on symbols *)

(** The whitelist loop leaves every foreground tile with a non-empty string
    symbol holding exactly one allowed character (never a newline, a carriage
    return or a tab): the first character when it is allowed, one of the
    eight fallback glyphs otherwise.  Nothing else of the tile changes, and a
    tile without such a symbol is left as it is. *)
Theorem sanitizeSymbol_single (whitelistExtra : string) (t : json) :
  (∀ ch rest, Js.truthy t = true → Js.get t "symbol" = JStr (String ch rest) →
     ∃ c, Js.get (sanitizeSymbol whitelistExtra t) "symbol" = JStr (String c "")
          ∧ allowed whitelistExtra c = true
          ∧ (allowed whitelistExtra ch = true → c = ch)
          ∧ (allowed whitelistExtra ch = false → String c "" ∈ fallbacks))
  ∧ (∀ k, k ≠ "symbol"%string → Js.get (sanitizeSymbol whitelistExtra t) k = Js.get t k)
  ∧ ((∀ ch rest, Js.get t "symbol" ≠ JStr (String ch rest)) →
     sanitizeSymbol whitelistExtra t = t).
Proof.
  split; [|split].
  - intros ch rest Ht Hs.
    assert (Hobj : Js.is_object t = true)
      by (apply (get_is_object t "symbol"); by rewrite Hs).
    unfold sanitizeSymbol. rewrite Ht, Hs. cbn [negb].
    destruct (allowed whitelistExtra ch) eqn:Hch; cbn [negb].
    + destruct (1 <? _) eqn:Hlen.
      * exists ch. rewrite get_set_eq by done. done.
      * exists ch. destruct rest as [|c' rest]; [by rewrite Hs|].
        apply Z.ltb_ge in Hlen. cbn [String.length] in Hlen. lia.
    + pose proof (Z.mod_pos_bound (Z.abs (id_length t) + char_code ch) 8 eq_refl) as Hz.
      destruct (fallback_allowed whitelistExtra (Z.abs (id_length t) + char_code ch))
        as (c & Hc & Hca).
      exists c. rewrite get_set_eq by done. rewrite Hc.
      split; [done|]. split; [done|]. split; [done|]. intros _. rewrite <- Hc.
      apply list_elem_of_In, nth_In. cbn. lia.
  - intros k Hk. by apply sanitizeSymbol_get.
  - intros Hno. unfold sanitizeSymbol. destruct (negb _); [done|].
    destruct (Js.get t "symbol") as [| | | |[|ch rest]| |] eqn:Hs; try done.
    by destruct (Hno ch rest).
Qed.

Lemma sanitizeSymbol_single_witness :
  let t := JObj [("id", JStr "tree"); ("symbol", JStr (String "009" "T"))]%string in
  (∃ c, Js.get (sanitizeSymbol "" t) "symbol" = JStr (String c "")
        ∧ allowed "" c = true
        ∧ (allowed "" "009" = true → c = "009"%char)
        ∧ (allowed "" "009" = false → String c "" ∈ fallbacks))
  ∧ sanitizeSymbol "" (JObj [("id", JStr "tree")]%string) = JObj [("id", JStr "tree")]%string.
Proof.
  intros t. split.
  - apply (proj1 (sanitizeSymbol_single "" t) "009"%char "T"%string); reflexivity.
  - apply (proj2 (proj2 (sanitizeSymbol_single "" (JObj [("id", JStr "tree")]%string)))).
    discriminate.
Defined.

(** ** The limits on layers and ops *)

Lemma prepareSpec_get width height fallbackTiles spec k :
  k ≠ "world"%string → k ≠ "tiles"%string →
  Js.get (prepareSpec width height fallbackTiles spec) k = Js.get spec k.
Proof.
  intros Hw Ht. unfold prepareSpec.
  destruct (negb _); rewrite ?(get_set_ne _ "tiles") by done; by rewrite get_set_ne.
Qed.

(** A spec with valid tiles and more than 128 layers, or more than 256 ops,
    is rejected before any op runs: the run throws the limit's error and the
    ops of the spec are left as they were. *)
Theorem generate_limits `{Host} (width height : Z) (whitelistExtra : string)
    (fallbackTiles spec : json) (reference : string) (ids : gset string * gset string) :
  validateTiles (Js.get (prepareSpec width height fallbackTiles spec) "tiles") = Ok ids →
  let run := generate width height whitelistExtra fallbackTiles spec reference in
  let layers := length (Js.own_props (specLayers spec)) in
  let ops := length (specOps spec) in
  ((128 < layers)%nat →
     run.2 = Throw (AssertionError "Too many layers (max 128)")
     ∧ Js.get run.1 "ops" = Js.get spec "ops")
  ∧ ((layers ≤ 128)%nat → (256 < ops)%nat →
     run.2 = Throw (AssertionError "Too many ops (max 256)")
     ∧ Js.get run.1 "ops" = Js.get spec "ops").
Proof.
  intros Hv run layers ops. unfold run, generate. rewrite Hv. destruct ids as [bgIds fgIds].
  set (spec1 := prepareSpec width height fallbackTiles spec).
  set (spec2 := Js.set spec1 "tiles" _).
  assert (Hl : specLayers spec2 = specLayers spec).
  { unfold specLayers, spec2, spec1.
    rewrite !(get_set_ne _ "tiles" "layers") by discriminate.
    by rewrite !prepareSpec_get by discriminate. }
  assert (Ho : Js.get spec2 "ops" = Js.get spec "ops").
  { unfold spec2, spec1. rewrite get_set_ne by discriminate.
    by rewrite prepareSpec_get by discriminate. }
  assert (Hops : specOps spec2 = specOps spec) by (unfold specOps; by rewrite Ho).
  rewrite Hl, Hops. unfold checkLimits. split.
  - intros Hmany.
    assert (Hb : (Z.of_nat (length (Js.own_props (specLayers spec))) <=? 128) = false)
      by (apply Z.leb_gt; unfold layers in Hmany; lia).
    rewrite Hb. split; [reflexivity|exact Ho].
  - intros Hfew Hmany.
    assert (Hb : (Z.of_nat (length (Js.own_props (specLayers spec))) <=? 128) = true)
      by (apply Z.leb_le; unfold layers in Hfew; lia).
    assert (Hc : (Z.of_nat (length (specOps spec)) <=? 256) = false)
      by (apply Z.leb_gt; unfold ops in Hmany; lia).
    rewrite Hb, Hc. split; [reflexivity|exact Ho].
Qed.

(** A spec with the tiles of the demo and 257 entries in [ops]. *)
Definition crowdedSpec : json :=
  Js.set demoSpec "ops" (JList (replicate 257 JNull)).

Lemma generate_limits_witness :
  (generate (H:=example_host) 8 8 "" JUndef crowdedSpec "seed").2
  = Throw (AssertionError "Too many ops (max 256)")
  ∧ Js.get (generate (H:=example_host) 8 8 "" JUndef crowdedSpec "seed").1 "ops"
    = Js.get crowdedSpec "ops".
Proof.
  destruct (validateTiles (Js.get (prepareSpec 8 8 JUndef crowdedSpec) "tiles"))
    as [ids|e] eqn:E; [|vm_compute in E; discriminate E].
  apply (proj2 (generate_limits (H:=example_host) 8 8 "" JUndef crowdedSpec "seed" ids E));
    vm_compute; lia.
Defined.

(** ** What the run stores into the ops *)


Section Stores.
Context `{Host}.
Variables (reference : string) (width height : Z).
Variables (bgIds fgIds : gset string) (layers : json) (perm : list Z).




End Stores.



(** ** The clamps on numbers read from the spec *)

(** The number that [safeNum] clamps: [n] when it is a finite number, the
    default otherwise. *)
Definition safe_input (n : json) (def : float) : float :=
  match n with JNum f => if Num.is_finite f then f else def | _ => def end.

(** [safeInt] and [safeNum] answer within [min, max] whatever they are given.
    A value that is not a finite number (a string, even a numeric one, null,
    a boolean, NaN or an infinity) counts as the default: there is no
    coercion.  For [safeNum] the bounds and the default must not be NaN. *)
Theorem safe_clamps :
  (∀ n def lo hi, lo ≤ hi → lo ≤ safeInt n def lo hi ≤ hi)
  ∧ (∀ n def lo hi, Js.isFinite n = false →
       safeInt n def lo hi = Z.max lo (Z.min hi def))
  ∧ (∀ n def lo hi,
       Num.is_nan def = false → Num.is_nan lo = false → Num.is_nan hi = false →
       (lo <=? hi)%float = true →
       (lo <=? safeNum n def lo hi)%float = true
       ∧ (safeNum n def lo hi <=? hi)%float = true
       ∧ (safeNum n def lo hi = lo ∨ safeNum n def lo hi = hi
          ∨ safeNum n def lo hi = safe_input n def)).
Proof.
  split; [|split].
  - intros n def lo hi Hle. by apply safeInt_range.
  - intros n def lo hi Hn. unfold safeInt. destruct n; try done.
    cbn in Hn. by rewrite Hn.
  - intros n def lo hi Hd Hlo Hhi Hle. unfold safeNum. fold (safe_input n def).
    assert (Hx : Num.is_nan (safe_input n def) = false).
    { unfold safe_input. destruct n; try done.
      destruct (Num.is_finite f) eqn:Hf; [by apply is_finite_not_nan|done]. }
    destruct (num_min_spec hi (safe_input n def) Hhi Hx) as (Hm & Hmh & _).
    assert (Hmn : Num.is_nan (Num.min hi (safe_input n def)) = false)
      by (destruct Hm as [-> | ->]; done).
    destruct (num_max_spec lo _ Hlo Hmn) as (Hmax & Hlm & _).
    split; [exact Hlm|]. split.
    + destruct Hmax as [-> | ->]; [exact Hle|exact Hmh].
    + destruct Hmax as [-> | ->]; [by left|].
      destruct Hm as [-> | ->]; [right; by left|right; by right].
Qed.

Lemma safe_clamps_witness :
  3 ≤ safeInt (JStr "7") 5 3 9 ≤ 9
  ∧ safeInt (JStr "7") 5 3 9 = Z.max 3 (Z.min 9 5)
  ∧ (0.05 <=? safeNum (JNum infinity) 0.5 0.05 0.95)%float = true
  ∧ (safeNum (JNum infinity) 0.5 0.05 0.95 <=? 0.95)%float = true.
Proof.
  destruct safe_clamps as (Hint & Hdef & Hnum).
  split; [apply Hint; lia|]. split; [apply Hdef; reflexivity|].
  destruct (Hnum (JNum infinity) 0.5 0.05 0.95)%float as (Hlo & Hhi & _);
    [reflexivity..|]. by split.
Defined.

(** ** paint *)

(** The background and the foreground of a cell. *)
Definition cells_at (g : grids) (x y : Z) : json * json :=
  (cell_at (bgGrid g) x y, cell_at (fgGrid g) x y).

(** What [paint] writes into a cell that its predicate selects: [bg] unless
    it is null or undefined, [fg] unless it is undefined. *)
Definition painted (op : json) (old : json * json) : json * json :=
  (if Js.nullish (Js.get op "bg") then old.1 else Js.get op "bg",
   if Js.is_undefined (Js.get op "fg") then old.2 else Js.get op "fg").

Section Paint.
Context `{Host}.
Variables (reference : string) (width height : Z).
Variables (bgIds fgIds : gset string) (layers : json) (perm : list Z).

Local Abbreviation wf := (wf_grids width height).

(** Two nested loops over the grid whose body rewrites the cell it visits
    by [F] and leaves the sampler alone. *)
Lemma loops_cellwise (body : Z → Z → grids → M grids) (F : json * json → json * json)
    (s : sampler) (g : grids) :
  (∀ x y a, wf a → 0 ≤ x < width → 0 ≤ y < height →
     ∃ a', body y x a s = Ok (a', s) ∧ wf a'
       ∧ ∀ x' y', 0 ≤ x' → 0 ≤ y' →
           cells_at a' x' y'
           = if (x' =? x) && (y' =? y) then F (cells_at a x' y') else cells_at a x' y') →
  wf g →
  ∃ g', for_range (Z.to_nat height) 0
          (λ y g, for_range (Z.to_nat width) 0 (body y) g) g s = Ok (g', s)
    ∧ wf g'
    ∧ ∀ x y, 0 ≤ x < width → 0 ≤ y < height → cells_at g' x y = F (cells_at g x y).
Proof.
  intros Hbody Hg.
  destruct (for_range_total
    (λ j a, wf a ∧ ∀ x y, 0 ≤ x < width → 0 ≤ y →
       cells_at a x y = if y <? j then F (cells_at g x y) else cells_at g x y)
    (λ y g, for_range (Z.to_nat width) 0 (body y) g)
    s (Z.to_nat height) 0 g) as (g' & Hrun & Hg' & Hcells).
  - intros y a Hy [Ha Hcell].
    destruct (for_range_total
      (λ j b, wf b ∧ ∀ x' y', 0 ≤ x' → 0 ≤ y' →
         cells_at b x' y'
         = if (y' =? y) && (x' <? j) then F (cells_at a x' y') else cells_at a x' y')
      (body y) s (Z.to_nat width) 0 a) as (b & Hrow & Hb & Hrowcells).
    + intros x b Hx [Hb Hbc].
      destruct (Hbody x y b Hb) as (b' & Hstep & Hb' & Hstepc); [lia..|].
      exists b'. split; [done|]. split; [done|].
      intros x' y' Hx' Hy'. rewrite Hstepc, Hbc by done.
      destruct (x' =? x) eqn:Ex, (y' =? y) eqn:Ey; cbn;
        repeat match goal with
               | E : (_ =? _) = true |- _ => apply Z.eqb_eq in E; subst
               | E : (_ =? _) = false |- _ => apply Z.eqb_neq in E
               end.
      * replace (x <? x + 1) with true by lia. by replace (x <? x) with false by lia.
      * done.
      * by replace (x' <? x + 1) with (x' <? x) by lia.
      * done.
    + split; [done|]. intros x' y' Hx' Hy'.
      replace (x' <? 0) with false by lia. by rewrite andb_false_r.
    + exists b. split; [done|]. split; [done|].
      intros x' y' Hx' Hy'. rewrite Hrowcells by lia.
      rewrite Z2Nat.id by lia. replace (x' <? 0 + width) with true by lia.
      rewrite andb_true_r.
      destruct (y' =? y) eqn:Ey.
      * apply Z.eqb_eq in Ey as ->. rewrite Hcell by lia.
        replace (y <? y + 1) with true by lia. by replace (y <? y) with false by lia.
      * apply Z.eqb_neq in Ey. rewrite Hcell by lia.
        by replace (y' <? y + 1) with (y' <? y) by lia.
  - split; [done|]. intros x y Hx Hy. by replace (y <? 0) with false by lia.
  - exists g'. split; [done|]. split; [done|].
    intros x y Hx Hy. rewrite Hcells by lia.
    rewrite Z2Nat.id by lia. by replace (y <? 0 + height) with true by lia.
Qed.

Lemma paintCell_spec op x y g s :
  Js.truthy (Js.get op "where") = false →
  wf g → 0 ≤ x < width → 0 ≤ y < height →
  ∃ g', paintCell reference width height layers perm op y x g s = Ok (g', s)
    ∧ wf g'
    ∧ ∀ x' y', 0 ≤ x' → 0 ≤ y' →
        cells_at g' x' y'
        = if (x' =? x) && (y' =? y) then painted op (cells_at g x' y')
          else cells_at g x' y'.
Proof.
  intros Hw [Hb Hf] Hx Hy. unfold paintCell, mbind, M_bind.
  rewrite predTrue_absent by done. cbn [negb]. unfold painted, cells_at.
  destruct (grid_set_spec width height (bgGrid g) x y (Js.get op "bg") Hb Hx Hy)
    as (b' & Hsetb & Hwfb & Hcellb).
  destruct (grid_set_spec width height (fgGrid g) x y (Js.get op "fg") Hf Hx Hy)
    as (f' & Hsetf & Hwff & Hcellf).
  unfold set_bg, set_fg.
  destruct (Js.nullish (Js.get op "bg")); destruct (Js.is_undefined (Js.get op "fg"));
    repeat (cbn [lift mbind result_bind mret result_ret bgGrid fgGrid negb];
            rewrite ?Hsetb, ?Hsetf);
    (eexists; split; [reflexivity|]; split; [by split|]);
    intros x' y' Hx' Hy'; cbn [bgGrid fgGrid fst snd];
    rewrite ?Hcellb, ?Hcellf by done; by destruct ((x' =? x) && (y' =? y)).
Qed.

End Paint.

(** A [paint] op without a predicate whose tile ids are known ends, leaves
    the sampler alone, and rewrites every cell of the grid: the background
    becomes [bg] unless [bg] is null or undefined, the foreground becomes
    [fg] (which may be null) unless [fg] is undefined.  With an unknown [bg]
    the op throws before it writes anything. *)
Theorem paint_unconditional `{Host} (reference : string) (width height : Z)
    (bgIds fgIds : gset string) (layers : json) (perm : list Z)
    (op : json) (g : grids) (s : sampler) :
  Js.truthy (Js.get op "where") = false →
  wf_grids width height g →
  ((Js.nullish (Js.get op "bg") = true ∨ has_id bgIds (Js.get op "bg") = true) →
   (Js.is_undefined (Js.get op "fg") = true ∨ Js.get op "fg" = JNull
    ∨ has_id fgIds (Js.get op "fg") = true) →
   ∃ g', paint reference width height bgIds fgIds layers perm op g s = Ok (g', s)
     ∧ wf_grids width height g'
     ∧ ∀ x y, 0 ≤ x < width → 0 ≤ y < height →
         cells_at g' x y = painted op (cells_at g x y))
  ∧ (Js.nullish (Js.get op "bg") = false → has_id bgIds (Js.get op "bg") = false →
     paint reference width height bgIds fgIds layers perm op g s
     = Throw (AssertionError "paint.bg: unknown background tile id")).
Proof.
  intros Hw Hg. split.
  - intros Hbg Hfg. unfold paint, mbind, M_bind.
    assert (Hcb : (if negb (Js.nullish (Js.get op "bg"))
                   then requireBg bgIds (Js.get op "bg") "paint.bg" else Ok ()) = Ok ()).
    { destruct Hbg as [-> | Hid]; [done|]. destruct (negb _); [|done].
      unfold requireBg. by rewrite Hid. }
    assert (Hcf : (if negb (Js.is_undefined (Js.get op "fg"))
                   then requireFgOrNull fgIds (Js.get op "fg") "paint.fg" else Ok ())
                  = Ok ()).
    { destruct Hfg as [-> | [-> | Hid]]; [done..|].
      destruct (negb (Js.is_undefined (Js.get op "fg"))); [|done].
      unfold requireFgOrNull. destruct (Js.get op "fg"); try reflexivity; by rewrite Hid. }
    rewrite Hcb, Hcf. cbn [lift].
    apply (loops_cellwise width height
             (paintCell reference width height layers perm op) (painted op) s g);
      [|exact Hg].
    intros x y a Ha Hx Hy. by apply paintCell_spec.
  - intros Hn Hid. unfold paint, mbind, M_bind. rewrite Hn. cbn [negb].
    unfold requireBg. by rewrite Hid.
Qed.

Lemma paint_unconditional_witness :
  let op := JObj [("type", JStr "paint"); ("bg", JStr "bg0"); ("fg", JNull)]%string in
  let g := newGrids 4 4 (JStr "sea") in
  (∃ g', paint (H:=example_host) "seed" 4 4 {["bg0"%string]} ∅ (JObj []) [] op g new_sampler
         = Ok (g', new_sampler)
     ∧ wf_grids 4 4 g'
     ∧ ∀ x y, 0 ≤ x < 4 → 0 ≤ y < 4 → cells_at g' x y = painted op (cells_at g x y))
  ∧ paint (H:=example_host) "seed" 4 4 ∅ ∅ (JObj []) [] op g new_sampler
    = Throw (AssertionError "paint.bg: unknown background tile id").
Proof.
  intros op g. split.
  - apply (proj1 (paint_unconditional (H:=example_host) "seed" 4 4 {["bg0"%string]} ∅
                    (JObj []) [] op g new_sampler eq_refl (wf_newGrids 4 4 (JStr "sea"))));
      [right; reflexivity|right; left; reflexivity].
  - apply (proj2 (paint_unconditional (H:=example_host) "seed" 4 4 ∅ ∅
                    (JObj []) [] op g new_sampler eq_refl (wf_newGrids 4 4 (JStr "sea"))));
      reflexivity.
Defined.

(** ** Shapes *)

(** The box test of a [rect]: the half-open box of the clamped integers. *)
Definition rect_box (shape : json) (x y : Z) : bool :=
  let rx := safeInt (Js.get shape "x") 0 (-1000000000) 1000000000 in
  let ry := safeInt (Js.get shape "y") 0 (-1000000000) 1000000000 in
  let rw := safeInt (Js.get shape "w") 0 0 1000000000 in
  let rh := safeInt (Js.get shape "h") 0 0 1000000000 in
  (0 <? rw) && (0 <? rh) && (rx <=? x) && (x <? rx + rw) && (ry <=? y) && (y <? ry + rh).

Definition null_point : error := TypeError "Cannot read properties of null or undefined".

Lemma pointInPoly_from_total `{Host} pts : ∀ prev px py inside,
  Js.nullish prev = false → Forall (λ p, Js.nullish p = false) pts →
  ∃ b, pointInPoly_from pts prev px py inside = Ok b.
Proof.
  induction pts as [|p pts IH]; intros prev px py inside Hprev Hpts;
    cbn [pointInPoly_from]; [by eexists|].
  apply Forall_cons in Hpts as [Hp Hpts]. unfold Js.index_checked.
  rewrite Hp, Hprev. cbn [mbind result_bind]. by apply IH.
Qed.

Lemma pointInPoly_from_error `{Host} pts : ∀ prev px py inside e,
  pointInPoly_from pts prev px py inside = Throw e →
  e = null_point ∧ (Js.nullish prev = true ∨ Exists (λ p, Js.nullish p = true) pts).
Proof.
  induction pts as [|p pts IH]; intros prev px py inside e; cbn [pointInPoly_from]; [done|].
  unfold Js.index_checked.
  destruct (Js.nullish p) eqn:Hp.
  { intros [= <-]. split; [done|]. right. by left. }
  destruct (Js.nullish prev) eqn:Hprev.
  { intros [= <-]. split; [done|]. by left. }
  cbn [mbind result_bind]. intros [He [Hn|Hex]]%IH; [congruence|].
  split; [done|]. right. by right.
Qed.

(** [shapeContains] answers with a boolean for every plain shape (one whose
    coordinates can be coerced to numbers) but a polygon one of whose points
    is null or undefined, where reading the point throws a TypeError; a
    [rect] contains exactly the cells of its half-open box (whatever [round]
    says), and a value that is not an object contains nothing. *)
Theorem shapeContains_total `{Host} (shape : json) (x y : Z) :
  (Js.plain shape = true →
   Forall (λ p, Js.nullish p = false) (Js.elements (Js.get shape "points")) →
   ∃ b, shapeContains shape x y = Ok b)
  ∧ (Js.plain shape = true → ∀ e, shapeContains shape x y = Throw e →
       e = null_point
       ∧ Js.str_is (Js.get shape "kind") "polygon" = true
       ∧ Exists (λ p, Js.nullish p = true) (Js.elements (Js.get shape "points")))
  ∧ (Js.is_object shape = true → Js.str_is (Js.get shape "kind") "rect" = true →
     shapeContains shape x y = Ok (rect_box shape x y))
  ∧ (Js.is_object shape = false → shapeContains shape x y = Ok false).
Proof.
  assert (Hlast : ∀ pts : list json, pts ≠ [] → nth (length pts - 1) pts JUndef ∈ pts).
  { intros pts Hne. apply list_elem_of_In, nth_In. destruct pts; [done|cbn; lia]. }
  split; [|split; [|split]].
  - intros _ Hpts. unfold shapeContains.
    repeat match goal with
           | |- context [if ?c then _ else _] => destruct c eqn:?; try by eexists
           end.
    unfold pointInPoly. apply pointInPoly_from_total; [|done].
    rewrite Forall_forall in Hpts. apply Hpts, Hlast. intros Hnil.
    match goal with Hl : (_ <? 3) = false |- _ => by rewrite Hnil in Hl end.
  - intros _ e. unfold shapeContains.
    destruct (negb (Js.is_object shape)); [discriminate|].
    destruct (_ || _).
    { repeat match goal with
             | |- context [if ?c then _ else _] => destruct c; try discriminate
             end. }
    destruct (Js.str_is _ "circle"); [discriminate|].
    destruct (Js.str_is _ "polygon") eqn:Hk.
    + destruct (_ <? 3) eqn:Hlen; [discriminate|]. apply Z.ltb_ge in Hlen.
      unfold pointInPoly. intros [He [Hn|Hex]]%pointInPoly_from_error; [|done].
      split; [done|]. split; [done|]. apply Exists_exists.
      exists (nth (length (Js.elements (Js.get shape "points")) - 1)
                (Js.elements (Js.get shape "points")) JUndef).
      split; [|done]. apply Hlast. intros Hnil. rewrite Hnil in Hlen. cbn in Hlen. lia.
    + repeat match goal with
             | |- context [if ?c then _ else _] => destruct c; try discriminate
             end.
  - intros Hobj Hk. unfold shapeContains, rect_box. rewrite Hobj, Hk. cbn [negb orb].
    rewrite orb_true_r.
    set (rw := safeInt (Js.get shape "w") 0 0 1000000000).
    set (rh := safeInt (Js.get shape "h") 0 0 1000000000).
    destruct (rw <=? 0) eqn:Hw.
    { replace (0 <? rw) with false by lia. done. }
    destruct (rh <=? 0) eqn:Hh.
    { replace (0 <? rh) with false by lia. by rewrite andb_false_r. }
    replace (0 <? rw) with true by lia. replace (0 <? rh) with true by lia.
    cbn [orb andb]. by rewrite <- !andb_assoc.
  - intros Hobj. unfold shapeContains. by rewrite Hobj.
Qed.

Lemma shapeContains_total_witness :
  let rect := JObj [("kind", JStr "rect"); ("x", JNum 0); ("y", JNum 0);
                    ("w", JNum 10); ("h", JNum 10); ("round", JNum 3)]%string in
  (∃ b, shapeContains (H:=example_host) rect 9 9 = Ok b)
  ∧ shapeContains (H:=example_host) rect 9 9 = Ok (rect_box rect 9 9)
  ∧ shapeContains (H:=example_host) rect 10 10 = Ok (rect_box rect 10 10)
  ∧ shapeContains (H:=example_host) JNull 0 0 = Ok false.
Proof.
  intros rect.
  split; [apply (proj1 (shapeContains_total (H:=example_host) rect 9 9));
            [reflexivity|constructor]|].
  split; [by apply (proj1 (proj2 (proj2 (shapeContains_total (H:=example_host) rect 9 9))))|].
  split; [by apply (proj1 (proj2 (proj2 (shapeContains_total (H:=example_host) rect 10 10))))|].
  by apply (proj2 (proj2 (proj2 (shapeContains_total (H:=example_host) JNull 0 0)))).
Defined.

(** ** Colours *)

(** The two digits that [rgbToHex] writes for a channel. *)
Definition channel_digits (v : Z) : string := padStart2 (to_string16 v).

(** [s] is two hexadecimal digits of value [v]. *)
Definition two_digits_of (v : Z) (s : string) : bool :=
  match s with
  | String c1 (String c2 EmptyString) =>
      hex_digit c1 && hex_digit c2 && (hex_value c1 * 16 + hex_value c2 =? v)
  | _ => false
  end.

Lemma channel_digits_spec (v : Z) :
  0 ≤ v ≤ 255 →
  ∃ c1 c2, channel_digits v = String c1 (String c2 "")
           ∧ hex_digit c1 = true ∧ hex_digit c2 = true
           ∧ hex_value c1 * 16 + hex_value c2 = v.
Proof.
  intros Hv.
  assert (Hall : forallb (λ n, two_digits_of (Z.of_nat n) (channel_digits (Z.of_nat n)))
                   (seq 0 256) = true) by (vm_compute; reflexivity).
  rewrite forallb_forall in Hall.
  specialize (Hall (Z.to_nat v)). rewrite Z2Nat.id in Hall by lia.
  assert (Hin : In (Z.to_nat v) (seq 0 256)) by (apply in_seq; lia).
  specialize (Hall Hin). unfold two_digits_of in Hall.
  destruct (channel_digits v) as [|c1 [|c2 [|c3 r]]]; try discriminate.
  apply andb_true_iff in Hall as [Hd Hval]. apply andb_true_iff in Hd as [H1 H2].
  exists c1, c2. split; [done|]. split; [done|]. split; [done|]. lia.
Qed.

Lemma hex_value_range (c : ascii) : hex_digit c = true → 0 ≤ hex_value c ≤ 15.
Proof.
  unfold hex_digit, hex_value, in_range.
  destruct (_ && _) eqn:H1; [lia|].
  destruct ((97 <=? char_code c) && _) eqn:H2; [lia|].
  destruct ((65 <=? char_code c) && _) eqn:H3; [lia|]. done.
Qed.

Lemma toInt32_small (n : Z) : 0 ≤ n < 2 ^ 31 → Num.toInt32 n = n.
Proof. intros Hn. unfold Num.toInt32. rewrite Z.mod_small by lia. lia. Qed.

Lemma and32_255 (n : Z) : 0 ≤ n < 2 ^ 31 → and32 n 255 = n mod 256.
Proof.
  intros Hn. unfold and32. rewrite (toInt32_small n), (toInt32_small 255) by lia.
  change 255 with (Z.ones 8). rewrite Z.land_ones by lia.
  pose proof (Z.mod_pos_bound n (2 ^ 8) eq_refl). rewrite toInt32_small by lia. done.
Qed.

Lemma sar_small (n k : Z) : 0 ≤ n < 2 ^ 31 → 0 ≤ k → sar n k = n / 2 ^ k.
Proof.
  intros Hn Hk. unfold sar. rewrite toInt32_small by lia. by apply Z.shiftr_div_pow2.
Qed.

(** Bits that do not overlap add up. *)
Lemma lor_disjoint (hi lo k : Z) :
  0 ≤ k → 0 ≤ lo < 2 ^ k → Z.lor (hi * 2 ^ k) lo = hi * 2 ^ k + lo.
Proof.
  intros Hk Hlo.
  assert (Hland : Z.land (hi * 2 ^ k) lo = 0).
  { apply Z.bits_inj'. intros n Hn. rewrite Z.land_spec, Z.bits_0.
    destruct (Z.ltb_spec n k).
    - by rewrite Z.mul_pow2_bits_low by lia.
    - rewrite <- (Z.mod_small lo (2 ^ k)) by lia.
      rewrite (Z.mod_pow2_bits_high lo k n) by lia. apply andb_false_r. }
  rewrite <- Z.lxor_lor by done. by rewrite Z.add_nocarry_lxor.
Qed.

(** The channels of the colour number [r * 65536 + g * 256 + b]. *)
Lemma channels_of (r g b : Z) :
  0 ≤ r ≤ 255 → 0 ≤ g ≤ 255 → 0 ≤ b ≤ 255 →
  let n := r * 65536 + g * 256 + b in
  and32 (sar n 16) 255 = r ∧ and32 (sar n 8) 255 = g ∧ and32 n 255 = b.
Proof.
  intros Hr Hg Hb n.
  assert (Hn : 0 ≤ n < 2 ^ 24) by (unfold n; lia).
  assert (H16 : n / 2 ^ 16 = r).
  { symmetry. apply (Z.div_unique n (2 ^ 16) r (g * 256 + b)); unfold n; lia. }
  assert (H8 : n / 2 ^ 8 = r * 256 + g).
  { symmetry. apply (Z.div_unique n (2 ^ 8) (r * 256 + g) b); unfold n; lia. }
  rewrite !sar_small, H16, H8 by lia. rewrite !and32_255 by lia.
  split; [apply Z.mod_small; lia|]. split.
  - symmetry. apply (Z.mod_unique (r * 256 + g) 256 r g); lia.
  - symmetry. apply (Z.mod_unique n 256 (r * 256 + g) b); unfold n; lia.
Qed.

Lemma rgbToInt_packs (r g b : Z) :
  0 ≤ r ≤ 255 → 0 ≤ g ≤ 255 → 0 ≤ b ≤ 255 →
  rgbToInt r g b = r * 65536 + g * 256 + b.
Proof.
  intros Hr Hg Hb.
  unfold rgbToInt. rewrite !and32_255 by lia. rewrite !Z.mod_small by lia.
  unfold Num.shl. rewrite (toInt32_small r), (toInt32_small g) by lia.
  rewrite (toInt32_small (r * 2 ^ 16)), (toInt32_small (g * 2 ^ 8)) by lia.
  unfold or32. rewrite (toInt32_small (r * 2 ^ 16)), (toInt32_small (g * 2 ^ 8)) by lia.
  rewrite (lor_disjoint r (g * 2 ^ 8) 16) by lia.
  rewrite !(toInt32_small (r * 2 ^ 16 + g * 2 ^ 8)), (toInt32_small b) by lia.
  replace (r * 2 ^ 16 + g * 2 ^ 8) with ((r * 2 ^ 8 + g) * 2 ^ 8) by lia.
  rewrite (lor_disjoint (r * 2 ^ 8 + g) b 8) by lia.
  rewrite toInt32_small by lia. lia.
Qed.

Lemma parseInt16_bound (l : list ascii) : ∀ n,
  0 ≤ n → forallb hex_digit l = true →
  0 ≤ fold_left (λ n c, n * 16 + hex_value c) l n < (n + 1) * 16 ^ Z.of_nat (length l).
Proof.
  induction l as [|c l IH]; intros n Hn Hl.
  - cbn. lia.
  - cbn [forallb] in Hl. apply andb_true_iff in Hl as [Hc Hl].
    pose proof (hex_value_range c Hc) as Hv.
    cbn [fold_left length]. destruct (IH (n * 16 + hex_value c)) as [H0 H1]; [lia|done|].
    split; [done|]. rewrite Nat2Z.inj_succ, Z.pow_succ_r by lia.
    assert (0 < 16 ^ Z.of_nat (length l)) by (apply Z.pow_pos_nonneg; lia). nia.
Qed.

(** For channels between 0 and 255, [rgbToHex] of [engine.js] writes a
    colour that [HEX_RE] accepts (so a tile that carries it passes the colour
    check of [validateTiles]), [hexToRgb] of [debug-image.js] reads the three
    channels back, and [rgbToInt] packs them into [r * 65536 + g * 256 + b]. *)
Theorem rgbToHex_round_trip `{Host} (r g b : Z) :
  0 ≤ r ≤ 255 → 0 ≤ g ≤ 255 → 0 ≤ b ≤ 255 →
  HEX_RE (rgbToHex r g b) = true
  ∧ is_hex_color (JStr (rgbToHex r g b)) = true
  ∧ hexToRgb (JStr (rgbToHex r g b)) = {| rgb_r := r; rgb_g := g; rgb_b := b |}
  ∧ rgbToInt r g b = r * 65536 + g * 256 + b.
Proof.
  intros Hr Hg Hb.
  destruct (channel_digits_spec r Hr) as (r1 & r2 & Er & Hr1 & Hr2 & Hrv).
  destruct (channel_digits_spec g Hg) as (g1 & g2 & Eg & Hg1 & Hg2 & Hgv).
  destruct (channel_digits_spec b Hb) as (b1 & b2 & Eb & Hb1 & Hb2 & Hbv).
  assert (Hhex : rgbToHex r g b
                 = String "#" (String r1 (String r2 (String g1 (String g2
                     (String b1 (String b2 ""))))))).
  { unfold rgbToHex. fold (channel_digits r) (channel_digits g) (channel_digits b).
    by rewrite Er, Eg, Eb. }
  assert (Hre : HEX_RE (rgbToHex r g b) = true).
  { rewrite Hhex. cbn [HEX_RE list_ascii_of_string forallb String.length].
    by rewrite Hr1, Hr2, Hg1, Hg2, Hb1, Hb2. }
  split; [exact Hre|]. split; [exact Hre|]. split.
  - unfold hexToRgb. rewrite Hhex.
    cbn [Js.or_else Js.truthy String.eqb negb Js.to_string].
    unfold hex6. cbn [list_ascii_of_string forallb String.length].
    rewrite Hr1, Hr2, Hg1, Hg2, Hb1, Hb2. cbn [andb].
    change (Z.of_nat 6 =? 6) with true. cbn iota.
    unfold parseInt16. cbn [list_ascii_of_string fold_left].
    pose proof (hex_value_range r1 Hr1). pose proof (hex_value_range r2 Hr2).
    pose proof (hex_value_range g1 Hg1). pose proof (hex_value_range g2 Hg2).
    pose proof (hex_value_range b1 Hb1). pose proof (hex_value_range b2 Hb2).
    replace (((((((0 * 16 + hex_value r1) * 16 + hex_value r2) * 16 + hex_value g1) * 16
                + hex_value g2) * 16 + hex_value b1) * 16 + hex_value b2))
      with (r * 65536 + g * 256 + b) by lia.
    destruct (channels_of r g b Hr Hg Hb) as (-> & -> & ->). done.
  - by apply rgbToInt_packs.
Qed.

Lemma rgbToHex_round_trip_witness :
  HEX_RE (rgbToHex 30 229 7) = true
  ∧ is_hex_color (JStr (rgbToHex 30 229 7)) = true
  ∧ hexToRgb (H:=example_host) (JStr (rgbToHex 30 229 7))
    = {| rgb_r := 30; rgb_g := 229; rgb_b := 7 |}
  ∧ rgbToInt 30 229 7 = 30 * 65536 + 229 * 256 + 7.
Proof. apply (rgbToHex_round_trip (H:=example_host) 30 229 7); lia. Defined.

(** What [hexToRgb] of [debug-image.js] reads from a plain value (one that
    [String] can coerce): three channels between 0 and 255; black when the
    text is not six hexadecimal digits after an optional [#]; and otherwise
    the channels of the number the digits write, which [rgbToInt] packs
    back. *)
Theorem hexToRgb_channels `{Host} (hex : json) :
  Js.plain hex = true →
  let c := hexToRgb hex in
  let text := Js.to_string (Js.or_else hex (JStr "")) in
  (0 ≤ rgb_r c ≤ 255 ∧ 0 ≤ rgb_g c ≤ 255 ∧ 0 ≤ rgb_b c ≤ 255)
  ∧ (hex6 text = None → c = {| rgb_r := 0; rgb_g := 0; rgb_b := 0 |})
  ∧ (∀ digits, hex6 text = Some digits →
       rgbToInt (rgb_r c) (rgb_g c) (rgb_b c) = parseInt16 digits).
Proof.
  intros _ c text. unfold c, hexToRgb. fold text.
  destruct (hex6 text) as [digits|] eqn:Hm.
  2:{ split; [cbn; lia|]. split; [done|discriminate]. }
  assert (Hn : 0 ≤ parseInt16 digits < 2 ^ 24).
  { unfold hex6 in Hm. destruct (_ && _) eqn:Hc; [|discriminate].
    injection Hm as Hd. apply andb_true_iff in Hc as [Hall Hlen].
    rewrite Hd in Hall, Hlen. apply Z.eqb_eq in Hlen.
    pose proof (parseInt16_bound (list_ascii_of_string digits) 0 ltac:(lia) Hall) as Hb.
    unfold parseInt16.
    assert (Hl : length (list_ascii_of_string digits) = String.length digits).
    { clear. induction digits; cbn; congruence. }
    rewrite Hl, Hlen in Hb. lia. }
  set (n := parseInt16 digits) in *. cbn [rgb_r rgb_g rgb_b].
  assert (Hr : and32 (sar n 16) 255 = n / 2 ^ 16).
  { rewrite sar_small by lia. rewrite and32_255.
    - apply Z.mod_small. split; [apply Z.div_pos; lia|].
      apply Z.div_lt_upper_bound; lia.
    - split; [apply Z.div_pos; lia|]. apply Z.div_lt_upper_bound; lia. }
  assert (Hg : and32 (sar n 8) 255 = (n / 2 ^ 8) mod 256).
  { rewrite sar_small by lia. apply and32_255.
    split; [apply Z.div_pos; lia|]. apply Z.div_lt_upper_bound; lia. }
  assert (Hb : and32 n 255 = n mod 256) by (apply and32_255; lia).
  rewrite Hr, Hg, Hb.
  pose proof (Z.mod_pos_bound (n / 2 ^ 8) 256 eq_refl) as Hgb.
  pose proof (Z.mod_pos_bound n 256 eq_refl) as Hbb.
  assert (Hrb : 0 ≤ n / 2 ^ 16 ≤ 255).
  { split; [apply Z.div_pos; lia|].
    assert (n / 2 ^ 16 < 256); [apply Z.div_lt_upper_bound; lia|lia]. }
  split; [lia|]. split; [discriminate|].
  intros digits' [= <-]. rewrite rgbToInt_packs by lia.
  pose proof (Z.div_mod n 256 ltac:(lia)) as D1.
  pose proof (Z.div_mod (n / 256) 256 ltac:(lia)) as D2.
  change (2 ^ 8) with 256. replace (n / 2 ^ 16) with (n / 256 / 256)
    by (rewrite Z.div_div by lia; reflexivity).
  lia.
Qed.

Lemma hexToRgb_channels_witness :
  hexToRgb (H:=example_host) (JStr "12345") = {| rgb_r := 0; rgb_g := 0; rgb_b := 0 |}
  ∧ rgbToInt (rgb_r (hexToRgb (H:=example_host) (JStr "#1EE507")))
             (rgb_g (hexToRgb (H:=example_host) (JStr "#1EE507")))
             (rgb_b (hexToRgb (H:=example_host) (JStr "#1EE507")))
    = parseInt16 "1EE507"
  ∧ 0 ≤ rgb_r (hexToRgb (H:=example_host) (JList [JStr "#1EE507"])) ≤ 255.
Proof.
  split; [|split].
  - apply (proj1 (proj2 (hexToRgb_channels (H:=example_host) (JStr "12345") eq_refl))).
    reflexivity.
  - apply (proj2 (proj2 (hexToRgb_channels (H:=example_host) (JStr "#1EE507") eq_refl))).
    reflexivity.
  - apply (proj1 (hexToRgb_channels (H:=example_host) (JList [JStr "#1EE507"]) eq_refl)).
Defined.

(** ** Every write to the grids goes through a cell store *)

Section Frame.
Context `{Host}.
Variables (reference : string) (width height : Z).
Variables (bgIds fgIds : gset string) (layers : json) (perm : list Z).

(** A property of the grids that the two cell stores keep. *)
Variable I : grids → Prop.
Hypothesis I_set_bg : ∀ g x y v g', I g → set_bg g x y v = Ok g' → I g'.
Hypothesis I_set_fg : ∀ g x y v g', I g → set_fg g x y v = Ok g' → I g'.

Lemma paintCell_keeps op y x g s g' s' :
  I g → paintCell reference width height layers perm op y x g s = Ok (g', s') → I g'.
Proof.
  intros Hg. unfold paintCell.
  intros (hit & s1 & _ & Hrest)%bind_inv.
  destruct hit; cbn [negb] in Hrest; [|by apply ret_inv in Hrest as [-> _]].
  apply bind_inv in Hrest as (g1 & s2 & [Hb _]%lift_inv & [Hf _]%lift_inv).
  assert (Hg1 : I g1).
  { destruct (negb (Js.nullish (Js.get op "bg")));
      [by eapply I_set_bg|by injection Hb as <-]. }
  destruct (negb (Js.is_undefined (Js.get op "fg")));
    [by eapply I_set_fg|by injection Hf as <-].
Qed.

Lemma paint_keeps op g s g' s' :
  I g → paint reference width height bgIds fgIds layers perm op g s = Ok (g', s') → I g'.
Proof.
  intros Hg. unfold paint.
  intros (u1 & s1 & _ & Hrest)%bind_inv.
  apply bind_inv in Hrest as (u2 & s2 & _ & Hloop).
  eapply (for_range_preserves I); [|exact Hg|exact Hloop].
  intros y a t a' t' Ha Hrow.
  eapply (for_range_preserves I); [|exact Ha|exact Hrow].
  intros x b u b' u' Hb. by apply paintCell_keeps.
Qed.

Lemma roadsCell_keeps op ox spacing thickness interId interP interSeed y gy x g s g' s' :
  I g →
  roadsCell reference width height layers perm op ox spacing thickness
    interId interP interSeed y gy x g s = Ok (g', s') →
  I g'.
Proof.
  intros Hg. unfold roadsCell.
  intros (hit & s1 & _ & Hrest)%bind_inv.
  destruct hit; cbn [negb] in Hrest; [|by apply ret_inv in Hrest as [-> _]].
  destruct (negb _); [by apply ret_inv in Hrest as [-> _]|].
  apply bind_inv in Hrest as (g1 & s2 & [Hb _]%lift_inv & Hrest).
  assert (Hg1 : I g1) by (by eapply I_set_bg).
  destruct (_ && _); [|by apply ret_inv in Hrest as [-> _]].
  destruct (_ <? _)%float; [|by apply ret_inv in Hrest as [-> _]].
  apply lift_inv in Hrest as [Hf _]. by eapply I_set_fg.
Qed.

Lemma roadsGrid_keeps op g s g' s' :
  I g →
  roadsGrid reference width height bgIds fgIds layers perm op g s = Ok (g', s') → I g'.
Proof.
  intros Hg. unfold roadsGrid.
  intros (u1 & s1 & _ & Hrest)%bind_inv.
  apply bind_inv in Hrest as ([[interId interP] interSeed] & s2 & _ & Hloop).
  eapply (for_range_preserves I); [|exact Hg|exact Hloop].
  intros y a t a' t' Ha Hrow.
  eapply (for_range_preserves I); [|exact Ha|exact Hrow].
  intros x b u b' u' Hb. by apply roadsCell_keeps.
Qed.

Lemma stampBg_keeps g x0 y0 w h v g' :
  I g → stampBg g x0 y0 w h v = Ok g' → I g'.
Proof.
  intros Hg. unfold stampBg. intros Hfold.
  cut (∀ a, foldl (λ r y, foldl (λ r x, g ← r; set_bg g x y v) r (span x0 w)) (Ok g)
              (span y0 h) = Ok a → I a); [eauto|].
  apply (foldl_preserves (λ r, ∀ a, r = Ok a → I a)); [|by intros a [= <-]].
  intros r y Hr. apply (foldl_preserves (λ r, ∀ a, r = Ok a → I a)); [|done].
  intros r' x Hr' a (b & -> & Hset)%rbind_inv.
  eapply I_set_bg; [by apply Hr'|exact Hset].
Qed.

Lemma scatterAttempt_keeps where_ prefabs st s st' s' :
  I (sc_grids st) →
  scatterAttempt reference width height layers perm where_ prefabs st s = Ok (st', s') →
  I (sc_grids st').
Proof.
  intros Hg. unfold scatterAttempt.
  destruct (pickWeighted (sc_rng st) prefabs) as [pf rng].
  destruct (xfnv1a_next rng) as [r1 rng1]. destruct (xfnv1a_next rng1) as [r2 rng2].
  intros (hit & s1 & _ & Hrest)%bind_inv.
  destruct hit; cbn [negb] in Hrest; [|by apply ret_inv in Hrest as [-> _]].
  destruct (negb (canPlace _ _ _ _ _ _ _)); [by apply ret_inv in Hrest as [-> _]|].
  apply bind_inv in Hrest as (g1 & s2 & [Hb _]%lift_inv & Hrest).
  apply bind_inv in Hrest as (g2 & s3 & [Hf _]%lift_inv & Hret).
  apply ret_inv in Hret as [-> _]. cbn [sc_grids].
  assert (Hg1 : I g1).
  { destruct (negb (Js.nullish (Js.get pf "bg")));
      [by eapply stampBg_keeps|by injection Hb as <-]. }
  destruct (negb (Js.nullish (Js.get pf "fg")));
    [by eapply I_set_fg|by injection Hf as <-].
Qed.

Lemma scatterLoop_keeps where_ prefabs count : ∀ n st s st' s',
  I (sc_grids st) →
  scatterLoop reference width height layers perm n count where_ prefabs st s = Ok (st', s') →
  I (sc_grids st').
Proof.
  induction n as [|n IH]; intros st s st' s' Hg; cbn [scatterLoop].
  - by intros [-> _]%ret_inv.
  - destruct (_ <? _); [|by intros [-> _]%ret_inv].
    intros (st1 & s1 & Hstep & Hrest)%bind_inv.
    eapply IH; [|exact Hrest]. by eapply scatterAttempt_keeps.
Qed.

Lemma stampScatter_keeps op g s g' s' :
  I g →
  stampScatter reference width height bgIds fgIds layers perm op g s = Ok (g', s') →
  I g'.
Proof.
  intros Hg. unfold stampScatter.
  destruct (scatterPrefabs bgIds fgIds op) as [prefabs checked].
  intros (u1 & s1 & _ & Hrest)%bind_inv.
  apply bind_inv in Hrest as (st & s2 & Hrun & [-> _]%ret_inv).
  eapply scatterLoop_keeps; [|exact Hrun]. done.
Qed.

Lemma execOp_keeps op i g s g' s' :
  I g →
  execOp reference width height bgIds fgIds layers perm op i g s = Ok (g', s') → I g'.
Proof.
  intros Hg. unfold execOp.
  destruct (negb (Js.is_object op)); [by intros [-> _]%ret_inv|].
  destruct (String.eqb _ "paint"); [by apply paint_keeps|].
  destruct (String.eqb _ "roads.grid"); [by apply roadsGrid_keeps|].
  destruct (String.eqb _ "stamp.scatter"); [by apply stampScatter_keeps|].
  discriminate.
Qed.

Lemma runOps_keeps ops : ∀ i g s g' s',
  I g →
  (runOps reference width height bgIds fgIds layers perm ops i g s).2 = Ok (g', s') →
  I g'.
Proof.
  induction ops as [|op ops IH]; intros i g s g' s' Hg; cbn [runOps].
  - by intros [= <- _].
  - destruct (execOp _ _ _ _ _ _ _ op i g s) as [[g1 s1]|e] eqn:Hop; [|discriminate].
    destruct (runOps _ _ _ _ _ _ _ ops (i + 1) g1 s1) as [rest' r] eqn:Hrest.
    cbn [snd]. intros ->. eapply (IH (i + 1) g1 s1); [by eapply execOp_keeps|].
    by rewrite Hrest.
Qed.

End Frame.

(** ** The composition of the cells does not fail *)

(** Both grids have as many rows as they were allocated with. *)
Definition rows_kept (height : Z) (g : grids) : Prop :=
  length (bgGrid g) = Z.to_nat height ∧ length (fgGrid g) = Z.to_nat height.

Lemma grid_set_length grid x y v grid' :
  grid_set grid x y v = Ok grid' → length grid' = length grid.
Proof.
  unfold grid_set. destruct (y <? 0); [discriminate|].
  destruct (grid !! Z.to_nat y); [|discriminate]. intros [= <-]. apply length_insert.
Qed.

Lemma set_bg_rows height g x y v g' :
  rows_kept height g → set_bg g x y v = Ok g' → rows_kept height g'.
Proof.
  intros [Hb Hf]. unfold set_bg. intros (b & Hset%grid_set_length & [= <-])%rbind_inv.
  split; cbn; congruence.
Qed.

Lemma set_fg_rows height g x y v g' :
  rows_kept height g → set_fg g x y v = Ok g' → rows_kept height g'.
Proof.
  intros [Hb Hf]. unfold set_fg. intros (f & Hset%grid_set_length & [= <-])%rbind_inv.
  split; cbn; congruence.
Qed.

Lemma composeRows_total width g ys :
  Forall (λ y, (y < length (bgGrid g))%nat ∧ (y < length (fgGrid g))%nat) ys →
  ∃ rows, composeRows width g ys = Ok rows.
Proof.
  induction 1 as [|y ys [Hb Hf] _ [rows IH]]; cbn [composeRows]; [by eexists|].
  unfold composeRow.
  destruct (lookup_lt_is_Some_2 _ _ Hb) as [rb ->].
  destruct (lookup_lt_is_Some_2 _ _ Hf) as [rf ->].
  cbn [mbind result_bind]. rewrite IH. by eexists.
Qed.

(** An error of the run is an error of the tile validation, of the limits or
    of an op: once the ops have run, the composition of the cells always
    succeeds (no op changes the number of rows), and the output carries the
    sanitized tiles. *)
Theorem generate_fails_early `{Host} (width height : Z) (whitelistExtra : string)
    (fallbackTiles spec : json) (reference : string) :
  let spec1 := prepareSpec width height fallbackTiles spec in
  let tiles := sanitizeTiles whitelistExtra (Js.get spec1 "tiles") in
  let spec2 := Js.set spec1 "tiles" tiles in
  let run := generate width height whitelistExtra fallbackTiles spec reference in
  match validateTiles (Js.get spec1 "tiles") with
  | Throw e => run.2 = Throw e
  | Ok (bgIds, fgIds) =>
      match checkLimits (specLayers spec2) (specOps spec2) with
      | Throw e => run.2 = Throw e
      | Ok _ =>
          match (runOps reference width height bgIds fgIds (specLayers spec2)
                   (Noise.makeValueNoise2D (xfnv1a reference)) (specOps spec2) 0
                   (newGrids width height (defaultBg tiles)) new_sampler).2 with
          | Throw e => run.2 = Throw e
          | Ok (g, _) =>
              ∃ cells, composeCells width height g = Ok cells
                ∧ run.2 = Ok {| out_tiles := tiles; area_width := width;
                                area_height := height; area_cells := cells |}
          end
      end
  end.
Proof.
  intros spec1 tiles spec2 run. unfold run, generate. fold spec1.
  destruct (validateTiles (Js.get spec1 "tiles")) as [[bgIds fgIds]|e]; [|reflexivity].
  fold tiles. fold spec2.
  destruct (checkLimits (specLayers spec2) (specOps spec2)) as [u|e]; [|reflexivity].
  set (perm := Noise.makeValueNoise2D (xfnv1a reference)).
  pose proof (runOps_keeps reference width height bgIds fgIds (specLayers spec2) perm
                (rows_kept height) (set_bg_rows height) (set_fg_rows height)
                (specOps spec2) 0 (newGrids width height (defaultBg tiles)) new_sampler)
    as Hkeep.
  destruct (runOps reference width height bgIds fgIds (specLayers spec2) perm
              (specOps spec2) 0 (newGrids width height (defaultBg tiles)) new_sampler)
    as [ops' [[g s]|e]]; cbn [snd] in *; [|reflexivity].
  destruct (Hkeep g s) as [Hb Hf]; [|reflexivity|].
  { split; apply length_replicate. }
  destruct (composeRows_total width g (seq 0 (Z.to_nat height))) as [cells Hcells].
  { apply Forall_forall. intros y [_ Hy]%elem_of_seq. lia. }
  exists cells. split; [exact Hcells|].
  cbn [mbind result_bind]. unfold composeCells. rewrite Hcells. reflexivity.
Qed.

(** ** The connectives of predicates *)

Lemma depth_assoc k (p : list (string * json)) :
  Js.assoc k p ≠ JUndef →
  (depth (Js.assoc k p) < S (foldr (λ (kx : string * json) n, Nat.max (depth kx.2) n) O p))%nat.
Proof.
  induction p as [|[k' v] p IH]; cbn; [done|].
  destruct (String.eqb k k'); [lia|]. intros Hk%IH. lia.
Qed.

Lemma depth_get v k : Js.get v k ≠ JUndef → (depth (Js.get v k) < depth v)%nat.
Proof.
  destruct v as [| | | | |e p|p]; cbn [Js.get]; try done; intros Hk%depth_assoc;
    cbn [depth]; lia.
Qed.

Lemma depth_elements v e : e ∈ Js.elements v → (depth e < depth v)%nat.
Proof.
  destruct v as [| | | | |l p|p]; cbn [Js.elements]; try (by intros ?%elem_of_nil).
  intros He. cbn [depth].
  assert (depth e ≤ foldr (λ x n, Nat.max (depth x) n) O l)%nat; [|lia].
  induction He as [e l|e e' l _ IH]; cbn; lia.
Qed.

Lemma truthy_defined v : Js.truthy v = true → v ≠ JUndef.
Proof. by destruct v. Qed.

Lemma every_ext {A} (f g : A → M bool) (l : list A) :
  (∀ a s, a ∈ l → f a s = g a s) → ∀ s, every f l s = every g l s.
Proof.
  induction l as [|a l IH]; intros Hfg s; cbn [every]; [done|].
  unfold mbind, M_bind. rewrite (Hfg a s) by (by left).
  destruct (g a s) as [[[] s']|e]; try done.
  apply IH. intros b t Hb. apply Hfg. by right.
Qed.

Lemma some_ext {A} (f g : A → M bool) (l : list A) :
  (∀ a s, a ∈ l → f a s = g a s) → ∀ s, some f l s = some g l s.
Proof.
  induction l as [|a l IH]; intros Hfg s; cbn [some]; [done|].
  unfold mbind, M_bind. rewrite (Hfg a s) by (by left).
  destruct (g a s) as [[[] s']|e]; try done.
  apply IH. intros b t Hb. apply Hfg. by right.
Qed.

Section Connectives.
Context `{Host}.
Variables (seed : string) (width height : Z) (layers : json) (perm : list Z).

Local Abbreviation eval := (predTrue seed width height layers perm).
Local Abbreviation eval_fuel := (predTrue_fuel seed width height layers perm).

(** Fuel beyond the nesting depth of the predicate changes nothing. *)
Lemma predTrue_fuel_irrelevant n : ∀ m pred x y s,
  (depth pred < n)%nat → (depth pred < m)%nat →
  eval_fuel n pred x y s = eval_fuel m pred x y s.
Proof.
  induction n as [|n IH]; intros m pred x y s Hn Hm; [lia|].
  destruct m as [|m]; [lia|]. cbn [predTrue_fuel].
  destruct (negb (Js.truthy pred)); [done|].
  destruct (Js.truthy (Js.get pred "all")) eqn:Hall.
  { destruct (Js.is_array _); [|done]. apply every_ext. intros p t Hp.
    apply depth_elements in Hp. pose proof (depth_get pred "all" (truthy_defined _ Hall)).
    apply IH; lia. }
  destruct (Js.truthy (Js.get pred "any")) eqn:Hany.
  { destruct (Js.is_array _); [|done]. apply some_ext. intros p t Hp.
    apply depth_elements in Hp. pose proof (depth_get pred "any" (truthy_defined _ Hany)).
    apply IH; lia. }
  destruct (Js.truthy (Js.get pred "not")) eqn:Hnot; [|done].
  pose proof (depth_get pred "not" (truthy_defined _ Hnot)).
  unfold mbind, M_bind. rewrite (IH m (Js.get pred "not")) by lia. done.
Qed.

End Connectives.

(** [predTrue] follows the connectives of the predicate, however deeply they
    are nested: an absent predicate holds; [all] is looked at first, then
    [any], then [not]; [all] holds when [predTrue] holds of every element, in
    order and stopping at the first that fails, [any] when it holds of some
    element, stopping at the first that holds, and neither holds of a value
    that is not an array; [not] negates.  The sampler's state and an error
    thrown on the way are those of the parts. *)
Theorem predTrue_connectives `{Host} (seed : string) (width height : Z) (layers : json)
    (perm : list Z) (pred : json) (x y : Z) (s : sampler) :
  let eval := λ p, predTrue seed width height layers perm p x y in
  (Js.truthy pred = false → eval pred s = Ok (true, s))
  ∧ (Js.truthy pred = true → Js.truthy (Js.get pred "all") = true →
     eval pred s
     = (if Js.is_array (Js.get pred "all")
        then every eval (Js.elements (Js.get pred "all")) else ret false) s)
  ∧ (Js.truthy pred = true → Js.truthy (Js.get pred "all") = false →
     Js.truthy (Js.get pred "any") = true →
     eval pred s
     = (if Js.is_array (Js.get pred "any")
        then some eval (Js.elements (Js.get pred "any")) else ret false) s)
  ∧ (Js.truthy pred = true → Js.truthy (Js.get pred "all") = false →
     Js.truthy (Js.get pred "any") = false → Js.truthy (Js.get pred "not") = true →
     eval pred s = (b ← eval (Js.get pred "not"); ret (negb b)) s).
Proof.
  intros eval. unfold eval. split; [|split; [|split]].
  - intros Hp. unfold predTrue. cbn [predTrue_fuel]. by rewrite Hp.
  - intros Hp Hall. unfold predTrue at 1. cbn [predTrue_fuel]. rewrite Hp, Hall. cbn [negb].
    destruct (Js.is_array _); [|done].
    apply every_ext. intros p t Hin. apply depth_elements in Hin.
    pose proof (depth_get pred "all" (truthy_defined _ Hall)).
    unfold predTrue. apply predTrue_fuel_irrelevant; lia.
  - intros Hp Hall Hany. unfold predTrue at 1. cbn [predTrue_fuel].
    rewrite Hp, Hall, Hany. cbn [negb]. destruct (Js.is_array _); [|done].
    apply some_ext. intros p t Hin. apply depth_elements in Hin.
    pose proof (depth_get pred "any" (truthy_defined _ Hany)).
    unfold predTrue. apply predTrue_fuel_irrelevant; lia.
  - intros Hp Hall Hany Hnot. unfold predTrue at 1. cbn [predTrue_fuel].
    rewrite Hp, Hall, Hany, Hnot. cbn [negb].
    pose proof (depth_get pred "not" (truthy_defined _ Hnot)).
    unfold mbind, M_bind, predTrue.
    rewrite (predTrue_fuel_irrelevant seed width height layers perm
               (depth pred) (S (depth (Js.get pred "not"))) (Js.get pred "not")) by lia.
    done.
Qed.

(** The predicate [{not: {all: [null, {any: []}]}}]. *)
Definition nestedPred : json :=
  JObj [("not", JObj [("all", JList [JNull; JObj [("any", JList [])]])])]%string.

Lemma predTrue_connectives_witness :
  let eval := λ p, predTrue (H:=example_host) "seed" 8 8 (JObj []) [] p 3 4 in
  eval JNull new_sampler = Ok (true, new_sampler)
  ∧ eval (Js.get nestedPred "not") new_sampler
    = every eval (Js.elements (Js.get (Js.get nestedPred "not") "all")) new_sampler
  ∧ eval (JObj [("any", JList [])]%string) new_sampler
    = some eval [] new_sampler
  ∧ eval nestedPred new_sampler
    = (b ← eval (Js.get nestedPred "not"); ret (negb b)) new_sampler.
Proof.
  intros eval.
  split; [by apply (proj1 (predTrue_connectives (H:=example_host) "seed" 8 8 (JObj []) []
                             JNull 3 4 new_sampler))|].
  split; [by apply (proj1 (proj2 (predTrue_connectives (H:=example_host) "seed" 8 8
                             (JObj []) [] (Js.get nestedPred "not") 3 4 new_sampler)))|].
  split; [by apply (proj1 (proj2 (proj2 (predTrue_connectives (H:=example_host) "seed" 8 8
                             (JObj []) [] (JObj [("any", JList [])]%string) 3 4
                             new_sampler))))|].
  by apply (proj2 (proj2 (proj2 (predTrue_connectives (H:=example_host) "seed" 8 8
                             (JObj []) [] nestedPred 3 4 new_sampler)))).
Defined.

(** ** The in-progress set between evaluations *)

(** A result whose error, if any, is one that the code throws. *)
Definition thrown {A} (r : result A) : Prop := ∀ e, r = Throw e → e ≠ OutOfFuel.

(** A computation that, started with nothing in progress, ends with nothing
    in progress or with an error that the code throws. *)
Definition settles {A} (m : M A) : Prop :=
  ∀ s, visiting s = ∅ →
    match m s with
    | Ok (_, s') => visiting s' = ∅
    | Throw e => e ≠ OutOfFuel
    end.

Lemma thrown_ok {A} (a : A) : thrown (Ok a).
Proof. by intros e. Qed.

Lemma thrown_assert c msg : thrown (assert c msg).
Proof. intros e. unfold assert. destruct c; [done|by intros [= <-]]. Qed.

Lemma thrown_bind {A B} (r : result A) (k : A → result B) :
  thrown r → (∀ a, thrown (k a)) → thrown (r ≫= k).
Proof.
  intros Hr Hk e. destruct r as [a|e']; cbn; [apply Hk|]. intros [= <-]. by apply Hr.
Qed.

Lemma settles_ret {A} (a : A) : settles (ret a).
Proof. by intros s Hs. Qed.

Lemma settles_throw {A} (e : error) : e ≠ OutOfFuel → settles (throw (A:=A) e).
Proof. by intros He s Hs. Qed.

Lemma settles_lift {A} (r : result A) : thrown r → settles (lift r).
Proof. intros Hr s Hs. unfold lift. destruct r as [a|e]; [done|by apply Hr]. Qed.

Lemma settles_bind {A B} (m : M A) (k : A → M B) :
  settles m → (∀ a, settles (k a)) → settles (m ≫= k).
Proof.
  intros Hm Hk s Hs. unfold mbind, M_bind. specialize (Hm s Hs).
  destruct (m s) as [[a s1]|e]; [by apply Hk|done].
Qed.

Lemma settles_for_range {St} (body : Z → St → M St) :
  (∀ j a, settles (body j a)) → ∀ n i st, settles (for_range n i body st).
Proof.
  intros Hbody. induction n as [|n IH]; intros i st; cbn [for_range]; [apply settles_ret|].
  apply settles_bind; [apply Hbody|]. intros a. apply IH.
Qed.

Lemma settles_every {A} (f : A → M bool) (l : list A) :
  Forall (λ a, settles (f a)) l → settles (every f l).
Proof.
  induction 1 as [|a l Ha _ IH]; cbn [every]; [apply settles_ret|].
  apply settles_bind; [done|]. intros []; [done|apply settles_ret].
Qed.

Lemma settles_some {A} (f : A → M bool) (l : list A) :
  Forall (λ a, settles (f a)) l → settles (some f l).
Proof.
  induction 1 as [|a l Ha _ IH]; cbn [some]; [apply settles_ret|].
  apply settles_bind; [done|]. intros []; [apply settles_ret|done].
Qed.

Lemma thrown_grid_set grid x y v : thrown (grid_set grid x y v).
Proof.
  intros e. unfold grid_set. destruct (y <? 0); [by intros [= <-]|].
  destruct (grid !! Z.to_nat y); [done|by intros [= <-]].
Qed.

Lemma thrown_set_bg g x y v : thrown (set_bg g x y v).
Proof. apply thrown_bind; [apply thrown_grid_set|]. intros b. apply thrown_ok. Qed.

Lemma thrown_set_fg g x y v : thrown (set_fg g x y v).
Proof. apply thrown_bind; [apply thrown_grid_set|]. intros b. apply thrown_ok. Qed.

Lemma thrown_iterate `{Host} v : thrown (Js.iterate v).
Proof. intros e. destruct v; cbn; try done; by intros [= <-]. Qed.

Section Settles.
Context `{Host}.
Variables (reference : string) (width height : Z).
Variables (bgIds fgIds : gset string) (layers : json) (perm : list Z).

Lemma settles_sampleLayer name x y :
  settles (sampleLayer reference width height layers perm name x y).
Proof.
  intros [so vis cc] Hs. cbn [visiting] in Hs. subst vis.
  destruct (sampleLayer _ _ _ _ _ _ _ _ _) as [[v s']|e] eqn:Hrun.
  - unfold sampleLayer in Hrun.
    by rewrite (sampleLayer_restores reference width height layers perm x y _ name _ v s'
                  Hrun).
  - exact (sampleLayer_terminates reference width height layers perm x y so cc name e Hrun).
Qed.

Lemma settles_predTrue_fuel n : ∀ pred x y,
  (depth pred < n)%nat →
  settles (predTrue_fuel reference width height layers perm n pred x y).
Proof.
  induction n as [|n IH]; intros pred x y Hn; [lia|]. cbn [predTrue_fuel].
  destruct (negb (Js.truthy pred)); [apply settles_ret|].
  destruct (Js.truthy (Js.get pred "all")) eqn:Hall.
  { destruct (Js.is_array _); [|apply settles_ret]. apply settles_every, Forall_forall.
    intros p Hp%depth_elements.
    pose proof (depth_get pred "all" (truthy_defined _ Hall)). apply IH. lia. }
  destruct (Js.truthy (Js.get pred "any")) eqn:Hany.
  { destruct (Js.is_array _); [|apply settles_ret]. apply settles_some, Forall_forall.
    intros p Hp%depth_elements.
    pose proof (depth_get pred "any" (truthy_defined _ Hany)). apply IH. lia. }
  destruct (Js.truthy (Js.get pred "not")) eqn:Hnot.
  { pose proof (depth_get pred "not" (truthy_defined _ Hnot)).
    apply settles_bind; [apply IH; lia|]. intros b. apply settles_ret. }
  assert (Hlayer : ∀ v (k : list json → float → bool),
            settles (l ← lift (Js.iterate v);
                     w ← sampleLayer reference width height layers perm (nth 0 l JUndef) x y;
                     ret (k l w))).
  { intros v k. apply settles_bind; [apply settles_lift, thrown_iterate|]. intros l.
    apply settles_bind; [apply settles_sampleLayer|]. intros w. apply settles_ret. }
  destruct (Js.truthy (Js.get pred "layerGt"));
    [exact (Hlayer _ (λ l w, (Js.to_number (nth 1 l JUndef) <? w)%float))|].
  destruct (Js.truthy (Js.get pred "layerLt"));
    [exact (Hlayer _ (λ l w, (w <? Js.to_number (nth 1 l JUndef))%float))|].
  destruct (Js.truthy (Js.get pred "layerBetween"));
    [exact (Hlayer _ (λ l w, (Js.to_number (nth 1 l JUndef) <=? w)%float
                             && (w <=? Js.to_number (nth 2 l JUndef))%float))|].
  destruct (Js.truthy (Js.get pred "shape")).
  { apply settles_lift. intros e. apply shapeContains_throw. }
  destruct (negb _); apply settles_ret.
Qed.

Lemma settles_predTrue pred x y :
  settles (predTrue' reference width height layers perm pred x y).
Proof. unfold predTrue', predTrue. apply settles_predTrue_fuel. lia. Qed.

Lemma settles_paint op g :
  settles (paint reference width height bgIds fgIds layers perm op g).
Proof.
  unfold paint.
  apply settles_bind.
  { apply settles_lift. destruct (negb _); [apply thrown_assert|apply thrown_ok]. }
  intros _. apply settles_bind.
  { apply settles_lift. destruct (negb _); [|apply thrown_ok].
    unfold requireFgOrNull. destruct (Js.get op "fg"); try apply thrown_assert.
    apply thrown_ok. }
  intros _. apply settles_for_range. intros y a. apply settles_for_range. intros x b.
  unfold paintCell. apply settles_bind; [apply settles_predTrue|].
  intros hit. destruct (negb hit); [apply settles_ret|].
  apply settles_bind.
  { apply settles_lift. destruct (negb _); [apply thrown_set_bg|apply thrown_ok]. }
  intros g1. apply settles_lift. destruct (negb _); [apply thrown_set_fg|apply thrown_ok].
Qed.

Lemma settles_roadsGrid op g :
  settles (roadsGrid reference width height bgIds fgIds layers perm op g).
Proof.
  unfold roadsGrid.
  apply settles_bind; [apply settles_lift, thrown_assert|]. intros _.
  apply settles_bind.
  { destruct (Js.is_object _); [|apply settles_ret].
    apply settles_bind; [|intros _; apply settles_ret].
    apply settles_lift. unfold requireFgOrNull.
    destruct (Js.coalesce _ _); try apply thrown_assert. apply thrown_ok. }
  intros [[interId interP] interSeed].
  apply settles_for_range. intros y a. apply settles_for_range. intros x b.
  unfold roadsCell. apply settles_bind; [apply settles_predTrue|].
  intros hit. destruct (negb hit); [apply settles_ret|].
  destruct (negb _); [apply settles_ret|].
  apply settles_bind; [apply settles_lift, thrown_set_bg|]. intros g1.
  destruct (_ && _); [|apply settles_ret].
  destruct (_ <? _)%float; [apply settles_lift, thrown_set_fg|apply settles_ret].
Qed.

Lemma thrown_stampBg g x0 y0 w h v : thrown (stampBg g x0 y0 w h v).
Proof.
  unfold stampBg.
  apply (foldl_preserves (λ r : result grids, thrown r)); [|apply thrown_ok].
  intros r y Hr. apply (foldl_preserves (λ r : result grids, thrown r)); [|done].
  intros r' x Hr'. apply thrown_bind; [done|]. intros g1. apply thrown_set_bg.
Qed.

Lemma settles_scatterLoop where_ prefabs count : ∀ n st,
  settles (scatterLoop reference width height layers perm n count where_ prefabs st).
Proof.
  induction n as [|n IH]; intros st; cbn [scatterLoop]; [apply settles_ret|].
  destruct (_ <? _); [|apply settles_ret].
  apply settles_bind; [|intros st1; apply IH].
  unfold scatterAttempt.
  destruct (pickWeighted (sc_rng st) prefabs) as [pf rng].
  destruct (xfnv1a_next rng) as [r1 rng1]. destruct (xfnv1a_next rng1) as [r2 rng2].
  apply settles_bind; [apply settles_predTrue|].
  intros hit. destruct (negb hit); [apply settles_ret|].
  destruct (negb (canPlace _ _ _ _ _ _ _)); [apply settles_ret|].
  apply settles_bind.
  { apply settles_lift. destruct (negb _); [apply thrown_stampBg|apply thrown_ok]. }
  intros g1. apply settles_bind; [|intros g2; apply settles_ret].
  apply settles_lift. destruct (negb _); [apply thrown_set_fg|apply thrown_ok].
Qed.

Lemma thrown_validatePrefabs prefabs : thrown (validatePrefabs bgIds fgIds prefabs).2.
Proof.
  induction prefabs as [|pf rest IH]; cbn [validatePrefabs]; [apply thrown_ok|].
  assert (Hpf : thrown (validatePrefab bgIds fgIds pf).2).
  { unfold validatePrefab. destruct (negb _); [by intros e [= <-]|].
    match goal with |- context [match ?c with Ok _ => _ | Throw _ => _ end] =>
      assert (Hc : thrown c); [|destruct c as [u|e]; [apply thrown_ok|exact Hc]] end.
    apply thrown_bind.
    - destruct (negb _); [apply thrown_assert|apply thrown_ok].
    - intros _. destruct (negb _); [|apply thrown_ok].
      unfold requireFgOrNull. destruct (Js.get _ "fg"); try apply thrown_assert.
      apply thrown_ok. }
  destruct (validatePrefab bgIds fgIds pf) as [pf' [u|e]]; [|exact Hpf].
  by destruct (validatePrefabs bgIds fgIds rest) as [rest' r].
Qed.

Lemma settles_execOp op i g :
  settles (execOp reference width height bgIds fgIds layers perm op i g).
Proof.
  unfold execOp. destruct (negb _); [apply settles_ret|].
  destruct (String.eqb _ "paint"); [apply settles_paint|].
  destruct (String.eqb _ "roads.grid"); [apply settles_roadsGrid|].
  destruct (String.eqb _ "stamp.scatter"); [|by apply settles_throw].
  unfold stampScatter.
  assert (Hpf : thrown (scatterPrefabs bgIds fgIds op).2).
  { unfold scatterPrefabs. destruct (_ && _); [apply thrown_validatePrefabs|].
    by intros e [= <-]. }
  destruct (scatterPrefabs bgIds fgIds op) as [prefabs checked].
  apply settles_bind; [by apply settles_lift|]. intros _.
  apply settles_bind; [apply settles_scatterLoop|]. intros st. apply settles_ret.
Qed.

Lemma runOps_settles ops : ∀ i g s,
  visiting s = ∅ →
  match (runOps reference width height bgIds fgIds layers perm ops i g s).2 with
  | Ok (_, s') => visiting s' = ∅
  | Throw e => e ≠ OutOfFuel
  end.
Proof.
  induction ops as [|op ops IH]; intros i g s Hs; cbn [runOps]; [done|].
  pose proof (settles_execOp op i g s Hs) as Hop.
  destruct (execOp _ _ _ _ _ _ _ op i g s) as [[g1 s1]|e]; [|done].
  specialize (IH (i + 1) g1 s1 Hop).
  by destruct (runOps _ _ _ _ _ _ _ ops (i + 1) g1 s1) as [rest' r].
Qed.

End Settles.

Lemma thrown_forEach {A} (check : A → result unit) (l : list A) :
  (∀ a, thrown (check a)) → thrown (forEach check l).
Proof.
  intros Hc. induction l as [|a l IH]; cbn [forEach]; [apply thrown_ok|].
  apply thrown_bind; [apply Hc|]. by intros _.
Qed.

Lemma thrown_uniqIds_from kind (l : list json) : ∀ s, thrown (uniqIds_from s l kind).
Proof.
  induction l as [|t l IH]; intros s; cbn [uniqIds_from]; [apply thrown_ok|].
  apply thrown_bind; [apply thrown_assert|]. intros _.
  destruct (Js.get t "id"); try (by intros e [= <-]).
  apply thrown_bind; [apply thrown_assert|]. intros _.
  apply thrown_bind; [apply thrown_assert|]. intros _. apply IH.
Qed.

Lemma thrown_tile_field t k (f : json → result unit) :
  (∀ v, thrown (f v)) → thrown (tile_field t k ≫= f).
Proof.
  intros Hf. apply thrown_bind; [|done].
  unfold tile_field. destruct (Js.nullish t); [by intros e [= <-]|apply thrown_ok].
Qed.

Lemma thrown_validateTiles tiles : thrown (validateTiles tiles).
Proof.
  unfold validateTiles.
  apply thrown_bind; [apply thrown_assert|]. intros _.
  apply thrown_bind; [apply thrown_assert|]. intros _.
  apply thrown_bind; [apply thrown_assert|]. intros _.
  apply thrown_bind.
  { apply thrown_forEach. intros t. unfold checkBackgroundTile.
    apply thrown_tile_field. intros name.
    repeat (apply thrown_bind; [apply thrown_assert|]; intros _). apply thrown_assert. }
  intros _. apply thrown_bind.
  { apply thrown_forEach. intros t. unfold checkForegroundTile.
    apply thrown_tile_field. intros name.
    repeat (apply thrown_bind; [apply thrown_assert|]; intros _). apply thrown_assert. }
  intros _. apply thrown_bind; [apply thrown_uniqIds_from|]. intros b.
  apply thrown_bind; [apply thrown_uniqIds_from|]. intros f. apply thrown_ok.
Qed.

Lemma thrown_composeRows width g ys : thrown (composeRows width g ys).
Proof.
  induction ys as [|y ys IH]; cbn [composeRows]; [apply thrown_ok|].
  apply thrown_bind.
  { unfold composeRow. destruct (bgGrid g !! y), (fgGrid g !! y);
      try apply thrown_ok; by intros e [= <-]. }
  intros row. apply thrown_bind; [exact IH|]. intros rows. apply thrown_ok.
Qed.

(** Started with nothing in progress, the evaluation of a predicate and the
    whole loop over the ops end with nothing in progress, so no stale key can
    be taken for a cycle later.  The nesting of layers and of predicates
    never exceeds the bounds on the depth of the evaluation: an error of a
    run is always one that the code throws. *)
Theorem run_settles `{Host} (reference : string) (width height : Z) :
  (∀ layers perm pred x y s, visiting s = ∅ →
     match predTrue reference width height layers perm pred x y s with
     | Ok (_, s') => visiting s' = ∅
     | Throw e => e ≠ OutOfFuel
     end)
  ∧ (∀ bgIds fgIds layers perm ops i g s, visiting s = ∅ →
     match (runOps reference width height bgIds fgIds layers perm ops i g s).2 with
     | Ok (_, s') => visiting s' = ∅
     | Throw e => e ≠ OutOfFuel
     end)
  ∧ (∀ whitelistExtra fallbackTiles spec,
     (generate width height whitelistExtra fallbackTiles spec reference).2
     ≠ Throw OutOfFuel).
Proof.
  split; [|split].
  - intros layers perm pred x y s Hs.
    exact (settles_predTrue reference width height layers perm pred x y s Hs).
  - intros bgIds fgIds layers perm ops i g s Hs. by apply runOps_settles.
  - intros whitelistExtra fallbackTiles spec. unfold generate.
    set (spec1 := prepareSpec width height fallbackTiles spec).
    pose proof (thrown_validateTiles (Js.get spec1 "tiles")) as Hv.
    destruct (validateTiles (Js.get spec1 "tiles")) as [[bgIds fgIds]|e];
      [|intros [= ->]; by eapply Hv].
    set (tiles := sanitizeTiles whitelistExtra (Js.get spec1 "tiles")).
    set (spec2 := Js.set spec1 "tiles" tiles).
    assert (Hl : thrown (checkLimits (specLayers spec2) (specOps spec2))).
    { unfold checkLimits. apply thrown_bind; [apply thrown_assert|].
      intros _. apply thrown_assert. }
    destruct (checkLimits _ _) as [u|e]; [|intros [= ->]; by eapply Hl].
    set (perm := Noise.makeValueNoise2D (xfnv1a reference)).
    pose proof (runOps_settles reference width height bgIds fgIds (specLayers spec2) perm
                  (specOps spec2) 0 (newGrids width height (defaultBg tiles)) new_sampler
                  eq_refl) as Hrun.
    destruct (runOps _ _ _ _ _ _ _ _ _ _ _) as [ops' [[g s]|e]]; cbn [snd] in *;
      [|intros [= ->]; by apply Hrun].
    cbn [mbind result_bind]. unfold composeCells.
    pose proof (thrown_composeRows width g (seq 0 (Z.to_nat height))) as Hc.
    destruct (composeRows _ _ _) as [cells|e]; [discriminate|].
    intros [= ->]. by eapply Hc.
Qed.

Lemma run_settles_witness :
  match predTrue (H:=example_host) "seed" 8 8 (Js.get demoSpec "layers") []
          (JObj [("layerGt", JList [JStr "n"; JNum 0.5])]%string) 3 4 new_sampler with
  | Ok (_, s') => visiting s' = ∅
  | Throw e => e ≠ OutOfFuel
  end.
Proof.
  apply (proj1 (run_settles (H:=example_host) "seed" 8 8)). reflexivity.
Defined.

(** ** The caches of the sampler *)

(** The offsets that [layerOffset] computes for a key it has not seen. *)
Definition offset_of `{Host} (seed : string) (seedKey : json) : float * float :=
  let suffix := Js.to_string (Js.or_else seedKey (JStr "")) in
  (Num.floor (xfnv1a_first (seed ++ "|layer|" ++ suffix) * 20000)%float,
   Num.floor (xfnv1a_first (seed ++ "|layer2|" ++ suffix) * 20000)%float).

(** The value that [sampleLayer] computes for a constant layer it has not
    seen. *)
Definition const_of `{Host} (layers : json) (name : json) : float :=
  clamp01 (Js.number_or (Js.get (layer_def layers name) "value") 0).

(** What the two caches hold under a string key is what would be computed. *)
Definition consistent `{Host} (seed : string) (layers : json) (s : sampler) : Prop :=
  (∀ k v, map_get (seedOffsets s) (JStr k) = Some v → v = offset_of seed (JStr k))
  ∧ (∀ k v, map_get (cacheConst s) (JStr k) = Some v → v = const_of layers (JStr k)).

(** The seeds and the references of the layers are strings. *)
Definition string_refs `{Host} (layers : json) : Prop :=
  ∀ name,
    let def := layer_def layers name in
    (Js.truthy (Js.get def "seed") = true → Js.is_string (Js.get def "seed") = true)
    ∧ (Js.truthy (Js.get_opt (Js.get def "a") "ref") = true →
       Js.is_string (Js.get (Js.get def "a") "ref") = true)
    ∧ (Js.truthy (Js.get_opt (Js.get def "b") "ref") = true →
       Js.is_string (Js.get (Js.get def "b") "ref") = true).

(** Two states that differ at most in the caches, both consistent. *)
Definition related `{Host} (seed : string) (layers : json) (s1 s2 : sampler) : Prop :=
  consistent seed layers s1 ∧ consistent seed layers s2 ∧ visiting s1 = visiting s2.

(** Two outcomes that differ at most in the caches. *)
Definition agree `{Host} {A} (seed : string) (layers : json)
    (r1 r2 : result (A * sampler)) : Prop :=
  match r1, r2 with
  | Ok (v1, s1), Ok (v2, s2) => v1 = v2 ∧ related seed layers s1 s2
  | Throw e1, Throw e2 => e1 = e2
  | _, _ => False
  end.

(** A computation whose outcome does not depend on what the caches hold. *)
Definition transparent `{Host} {A} (seed : string) (layers : json) (m : M A) : Prop :=
  ∀ s1 s2, related seed layers s1 s2 → agree seed layers (m s1) (m s2).

Lemma map_get_cons_string {V} (m : list (json * V)) (k0 k : string) (v0 : V) :
  map_get ((JStr k0, v0) :: m) (JStr k)
  = if String.eqb k0 k then Some v0 else map_get m (JStr k).
Proof. reflexivity. Qed.

Lemma bind_get_state {A} (k : sampler → M A) (s : sampler) :
  (get_state ≫= k) s = k s s.
Proof. reflexivity. Qed.

Section Caches.
Context `{Host}.
Variables (seed : string) (width height : Z) (layers : json) (perm : list Z).
Variables (x y : Z).

Local Abbreviation sample :=
  (λ fuel ref, sampleLayer_fuel seed width height layers perm fuel ref x y).
Local Abbreviation out := (layerOut seed width height perm).
Local Abbreviation ok := (consistent seed layers).

Lemma layerOffset_spec k s :
  layerOffset seed k s
  = match map_get (seedOffsets s) k with
    | Some v => Ok (v, s)
    | None => Ok (offset_of seed k,
                  {| seedOffsets := (k, offset_of seed k) :: seedOffsets s;
                     visiting := visiting s; cacheConst := cacheConst s |})
    end.
Proof.
  unfold layerOffset, mbind, M_bind, get_state.
  destruct (map_get (seedOffsets s) k); reflexivity.
Qed.

(** With a string key [layerOffset] answers what would be computed. *)
Lemma layerOffset_string k s :
  ok s →
  ∃ s', layerOffset seed (JStr k) s = Ok (offset_of seed (JStr k), s')
        ∧ visiting s' = visiting s ∧ ok s'.
Proof.
  intros [Ho Hc]. rewrite layerOffset_spec.
  destruct (map_get (seedOffsets s) (JStr k)) as [v|] eqn:Hget.
  - exists s. rewrite (Ho k v Hget). done.
  - eexists. split; [reflexivity|]. split; [reflexivity|]. split; [|exact Hc].
    intros k' v'. cbn [seedOffsets]. rewrite map_get_cons_string.
    destruct (String.eqb k k') eqn:Hk; [|apply Ho].
    apply String.eqb_eq in Hk as ->. by intros [= <-].
Qed.

Local Abbreviation pure := (transparent seed layers).

Lemma transparent_ret {A} (a : A) : pure (ret a).
Proof. by intros s1 s2 Hs. Qed.

Lemma transparent_throw {A} (e : error) : pure (throw (A:=A) e).
Proof. by intros s1 s2 Hs. Qed.

Lemma transparent_lift {A} (r : result A) : pure (lift r).
Proof. intros s1 s2 Hs. unfold lift. by destruct r. Qed.

Lemma transparent_bind {A B} (m : M A) (k : A → M B) :
  pure m → (∀ a, pure (k a)) → pure (m ≫= k).
Proof.
  intros Hm Hk s1 s2 Hs. unfold mbind, M_bind. specialize (Hm s1 s2 Hs).
  unfold agree in Hm.
  destruct (m s1) as [[a1 t1]|e1], (m s2) as [[a2 t2]|e2]; try done.
  destruct Hm as [-> Ht]. by apply Hk.
Qed.

Lemma transparent_modify (f : sampler → sampler) :
  (∀ s, seedOffsets (f s) = seedOffsets s ∧ cacheConst (f s) = cacheConst s) →
  (∀ s1 s2, visiting s1 = visiting s2 → visiting (f s1) = visiting (f s2)) →
  pure (modify f).
Proof.
  intros Hf Hv s1 s2 ([Ho1 Hc1] & [Ho2 Hc2] & Hvis). unfold modify. split; [done|].
  destruct (Hf s1) as [E1 E1'], (Hf s2) as [E2 E2'].
  split; [|split; [|by apply Hv]]; split; intros k v; rewrite ?E1, ?E1', ?E2, ?E2'; auto.
Qed.

Lemma transparent_layerOffset k : pure (layerOffset seed (JStr k)).
Proof.
  intros s1 s2 (Hs1 & Hs2 & Hv).
  destruct (layerOffset_string k s1 Hs1) as (t1 & -> & Hv1 & Ht1).
  destruct (layerOffset_string k s2 Hs2) as (t2 & -> & Hv2 & Ht2).
  split; [done|]. split; [done|]. split; [done|]. congruence.
Qed.

(** The key under which the offsets of a layer are kept is a string. *)
Lemma seed_key_string def n :
  (Js.truthy (Js.get def "seed") = true → Js.is_string (Js.get def "seed") = true) →
  ∃ k, Js.or_else (Js.get def "seed") (JStr n) = JStr k.
Proof.
  intros Hseed. unfold Js.or_else. destruct (Js.truthy (Js.get def "seed")); [|by eexists].
  specialize (Hseed eq_refl). destruct (Js.get def "seed"); try done. by eexists.
Qed.

Lemma transparent_layerOut f def n key :
  (Js.truthy (Js.get def "seed") = true → Js.is_string (Js.get def "seed") = true) →
  (Js.truthy (Js.get_opt (Js.get def "a") "ref") = true →
   Js.is_string (Js.get (Js.get def "a") "ref") = true) →
  (Js.truthy (Js.get_opt (Js.get def "b") "ref") = true →
   Js.is_string (Js.get (Js.get def "b") "ref") = true) →
  (∀ ref, pure (f (JStr ref))) →
  pure (out f def (JStr n) x y key).
Proof.
  intros Hseed Ha Hb Hf. unfold layerOut.
  destruct (seed_key_string def n Hseed) as [k ->].
  destruct (Js.str_is _ "fbm").
  { apply transparent_bind; [apply transparent_layerOffset|].
    intros [ox oy]. apply transparent_ret. }
  destruct (Js.str_is _ "valueNoise").
  { apply transparent_bind; [apply transparent_layerOffset|].
    intros [ox oy]. apply transparent_ret. }
  destruct (Js.str_is _ "radialGradient"); [apply transparent_ret|].
  destruct (Js.str_is _ "shape").
  { apply transparent_bind; [apply transparent_lift|]. intros b. apply transparent_ret. }
  destruct (Js.str_is _ "combine").
  - apply transparent_bind.
    { destruct (Js.truthy (Js.get_opt (Js.get def "a") "ref")); [|apply transparent_ret].
      specialize (Ha eq_refl).
      destruct (Js.get (Js.get def "a") "ref"); first [done|apply Hf]. }
    intros a. apply transparent_bind; [|intros b; apply transparent_ret].
    destruct (Js.truthy (Js.get_opt (Js.get def "b") "ref")); [|apply transparent_ret].
    specialize (Hb eq_refl).
    destruct (Js.get (Js.get def "b") "ref"); first [done|apply Hf].
  - apply transparent_bind; [|intros _; apply transparent_throw].
    apply transparent_modify; [done|]. intros s1 s2 Hv. cbn. by rewrite Hv.
Qed.

Hypothesis Hrefs : string_refs layers.

Lemma transparent_sample fuel : ∀ n, pure (sample fuel (JStr n)).
Proof.
  induction fuel as [|fuel IH]; intros n; [apply transparent_throw|].
  cbn [sampleLayer_fuel].
  destruct (negb (Js.truthy (layer_def layers (JStr n)))); [apply transparent_throw|].
  destruct (Js.str_is _ "const").
  - intros s1 s2 ([Ho1 Hc1] & [Ho2 Hc2] & Hv). unfold mbind, M_bind, get_state.
    fold (const_of layers (JStr n)).
    assert (Hins : ∀ s, ok s →
              ok {| seedOffsets := seedOffsets s; visiting := visiting s;
                    cacheConst := (JStr n, const_of layers (JStr n)) :: cacheConst s |}).
    { intros s [Ho Hc]. split; [exact Ho|]. intros k v. cbn [cacheConst].
      rewrite map_get_cons_string. destruct (String.eqb n k) eqn:Hk; [|apply Hc].
      apply String.eqb_eq in Hk as ->. by intros [= <-]. }
    destruct (map_get (cacheConst s1) (JStr n)) as [v1|] eqn:H1;
      destruct (map_get (cacheConst s2) (JStr n)) as [v2|] eqn:H2; cbn.
    + rewrite (Hc1 n v1 H1), (Hc2 n v2 H2). done.
    + rewrite (Hc1 n v1 H1). split; [done|]. split; [done|]. split; [by apply Hins|done].
    + rewrite (Hc2 n v2 H2). split; [done|]. split; [by apply Hins|]. split; [done|done].
    + split; [done|]. split; [by apply Hins|]. split; [by apply Hins|done].
  - intros s1 s2 (Hs1 & Hs2 & Hv). rewrite !bind_get_state.
    rewrite Hv. destruct (bool_decide _); [done|].
    destruct (Hrefs (JStr n)) as (Hseed & Ha & Hb).
    revert s1 s2 Hs1 Hs2 Hv.
    cut (pure (visiting_add (visit_key (JStr n) x y);;
               o ← out (sample fuel) (layer_def layers (JStr n)) (JStr n) x y
                     (visit_key (JStr n) x y);
               visiting_delete (visit_key (JStr n) x y);; ret (clamp01 o))).
    { intros Hp s1 s2 Hs1 Hs2 Hv. by apply Hp. }
    apply transparent_bind.
    { apply transparent_modify; [done|]. intros s1 s2 Hv. cbn. by rewrite Hv. }
    intros _. apply transparent_bind; [by apply transparent_layerOut|].
    intros o. apply transparent_bind; [|intros _; apply transparent_ret].
    apply transparent_modify; [done|]. intros s1 s2 Hv. cbn. by rewrite Hv.
Qed.

End Caches.

(** When the seeds and the references of the layers are strings, what
    [sampleLayer] answers for a layer name does not depend on what the two
    caches of the sampler hold, as long as they hold what the sampler itself
    would have computed: the value or the error is that of a fresh sampler,
    and the caches stay consistent, so this holds for the next call too. *)
Theorem sampleLayer_cache_transparent `{Host} (seed : string) (width height : Z)
    (layers : json) (perm : list Z) (n : string) (x y : Z) (s : sampler) :
  string_refs layers → consistent seed layers s → visiting s = ∅ →
  run_value (sampleLayer seed width height layers perm (JStr n) x y) s
  = run_value (sampleLayer seed width height layers perm (JStr n) x y) new_sampler
  ∧ ∀ v s', sampleLayer seed width height layers perm (JStr n) x y s = Ok (v, s') →
            consistent seed layers s' ∧ visiting s' = ∅.
Proof.
  intros Hrefs Hs Hv.
  assert (Hnew : consistent seed layers new_sampler) by (split; intros k v; discriminate).
  pose proof (transparent_sample seed width height layers perm x y Hrefs
                (S (length (Js.own_props layers))) n s new_sampler
                (conj Hs (conj Hnew Hv))) as Hag.
  unfold run_value, sampleLayer, agree, related in *.
  destruct (sampleLayer_fuel seed width height layers perm _ (JStr n) x y s)
    as [[v1 t1]|e1] eqn:H1;
    destruct (sampleLayer_fuel seed width height layers perm _ (JStr n) x y new_sampler)
      as [[v2 t2]|e2]; try done.
  - destruct Hag as (-> & Ht1 & _ & _). split; [done|].
    intros v s' [= <- <-]. split; [done|].
    by rewrite (sampleLayer_restores seed width height layers perm x y _ _ _ _ _ H1).
  - subst e2. split; [done|]. intros v s'. discriminate.
Qed.

Lemma sampleLayer_cache_transparent_witness :
  let layers := Js.get demoSpec "layers" in
  let warm := {| seedOffsets := [(JStr "n", offset_of (H:=example_host) "seed" (JStr "n"))];
                 visiting := ∅; cacheConst := [] |} in
  run_value (sampleLayer (H:=example_host) "seed" 8 8 layers [] (JStr "n") 3 4) warm
  = run_value (sampleLayer (H:=example_host) "seed" 8 8 layers [] (JStr "n") 3 4) new_sampler.
Proof.
  intros layers warm.
  apply (sampleLayer_cache_transparent (H:=example_host) "seed" 8 8 layers [] "n" 3 4 warm).
  - intros name. unfold layers, layer_def. cbn [Js.nullish Js.get demoSpec Js.assoc String.eqb
      Ascii.eqb Bool.eqb Js.lookup Js.own_props].
    destruct (String.eqb _ "n"); repeat split; discriminate.
  - split; intros k v; [|discriminate]. unfold warm. cbn [seedOffsets].
    rewrite map_get_cons_string. destruct (String.eqb "n" k) eqn:Hk; [|discriminate].
    apply String.eqb_eq in Hk as <-. by intros [= <-].
  - reflexivity.
Defined.

(** ** The clamp *)

Lemma leb_ltb_false (x y : float) : (x <=? y)%float = true → (y <? x)%float = false.
Proof.
  rewrite FloatAxioms.leb_spec, FloatAxioms.ltb_spec. unfold SFleb, SFltb.
  rewrite (SFcompare_antisym (Prim2SF x) (Prim2SF y)).
  by destruct (SFcompare (Prim2SF x) (Prim2SF y)) as [[]|].
Qed.

(** [clamp01] maps every number except NaN into [0, 1] and lets NaN through;
    it leaves the numbers of [0, 1] as they are, so clamping twice is
    clamping once. *)
Theorem clamp01_contract (x : float) :
  in_unit (clamp01 x) = negb (Num.is_nan x)
  ∧ Num.is_nan (clamp01 x) = Num.is_nan x
  ∧ (in_unit x = true → clamp01 x = x)
  ∧ clamp01 (clamp01 x) = clamp01 x.
Proof.
  assert (Hfix : ∀ z, in_unit z = true → clamp01 z = z).
  { intros z [H0 H1]%andb_true_iff. unfold clamp01.
    by rewrite (leb_ltb_false 0 z H0), (leb_ltb_false z 1 H1). }
  split; [apply clamp01_in_unit|]. split; [|split; [apply Hfix|]].
  - destruct (Num.is_nan x) eqn:Hx; [by rewrite (clamp01_nan x Hx)|].
    pose proof (clamp01_in_unit x) as Hu. rewrite Hx in Hu. cbn [negb] in Hu.
    destruct (Num.is_nan (clamp01 x)) eqn:Hc; [|done].
    apply andb_true_iff in Hu as [_ Hu]. by rewrite (leb_nan_l _ 1 Hc) in Hu.
  - destruct (Num.is_nan x) eqn:Hx; [by rewrite !(clamp01_nan x Hx)|].
    apply Hfix. by rewrite clamp01_in_unit, Hx.
Qed.

Lemma clamp01_contract_witness : clamp01 0.25 = 0.25%float.
Proof. apply (proj1 (proj2 (proj2 (clamp01_contract 0.25)))). reflexivity. Defined.

(** ** What roads.grid writes, under any gate predicate *)

(** The parameters of a [roads.grid] op as the op reads them. *)
Definition roads_origin (op : json) : json :=
  if Js.is_array (Js.get op "origin") then Js.get op "origin" else JList [JNum 0; JNum 0].
Definition roads_ox (op : json) : Z :=
  safeInt (Js.index (roads_origin op) 0) 0 (-1000000000) 1000000000.
Definition roads_oy (op : json) : Z :=
  safeInt (Js.index (roads_origin op) 1) 0 (-1000000000) 1000000000.
Definition roads_spacing (op : json) : Z := safeInt (Js.get op "spacing") 20 2 200.
Definition roads_thickness (op : json) : Z := safeInt (Js.get op "thickness") 2 1 20.

(** The column, the row is on a road line. *)
Definition onV (op : json) (x : Z) : bool :=
  wrap x (roads_ox op) (roads_spacing op) <? roads_thickness op.
Definition onH (op : json) (y : Z) : bool :=
  wrap y (roads_oy op) (roads_spacing op) <? roads_thickness op.

Section RoadsFrame.
Context `{Host}.
Variables (reference : string) (width height : Z).
Variables (bgIds fgIds : gset string) (layers : json) (perm : list Z).
Variables (op : json) (interId : json) (g : grids).

(** Every cell of [a] holds what it holds in [g], or [op.bg] on a road
    line, or the marker at a crossing. *)
Definition touched (a : grids) : Prop :=
  ∀ x y, 0 ≤ x → 0 ≤ y →
    (cell_at (bgGrid a) x y = cell_at (bgGrid g) x y
     ∨ (onV op x || onH op y = true ∧ cell_at (bgGrid a) x y = Js.get op "bg"))
    ∧ (cell_at (fgGrid a) x y = cell_at (fgGrid g) x y
       ∨ (onV op x && onH op y = true ∧ Js.truthy interId = true
          ∧ cell_at (fgGrid a) x y = interId)).

Lemma roadsCell_touched interP interSeed x y a s a' s' :
  wf_grids width height a → touched a → 0 ≤ x < width → 0 ≤ y < height →
  roadsCell reference width height layers perm op (roads_ox op) (roads_spacing op)
    (roads_thickness op) interId interP interSeed y
    (wrap y (roads_oy op) (roads_spacing op)) x a s = Ok (a', s') →
  wf_grids width height a' ∧ touched a'.
Proof.
  intros [Hb Hf] Ht Hx Hy. unfold roadsCell.
  intros ([] & s1 & _ & Hrun)%bind_inv; cbn [negb] in Hrun;
    [|by apply ret_inv in Hrun as [-> _]].
  fold (onV op x) (onH op y) in Hrun.
  destruct (onV op x || onH op y) eqn:Hroad; cbn [negb] in Hrun;
    [|by apply ret_inv in Hrun as [-> _]].
  apply bind_inv in Hrun as (b & s2 & [Hset _]%lift_inv & Hrun).
  destruct (grid_set_spec width height (bgGrid a) x y (Js.get op "bg") Hb Hx Hy)
    as (bg' & Hbg & Hwb & Hcb).
  unfold set_bg in Hset. rewrite Hbg in Hset. injection Hset as <-.
  assert (Hbstep : wf_grids width height {| bgGrid := bg'; fgGrid := fgGrid a |}
                   ∧ touched {| bgGrid := bg'; fgGrid := fgGrid a |}).
  { split; [done|]. intros x' y' Hx' Hy'. destruct (Ht x' y' Hx' Hy') as [Hbc Hfc].
    split; [|exact Hfc]. cbn [bgGrid]. rewrite Hcb by done.
    destruct (x' =? x) eqn:Ex, (y' =? y) eqn:Ey; cbn [andb]; try exact Hbc.
    apply Z.eqb_eq in Ex as ->. apply Z.eqb_eq in Ey as ->. by right. }
  destruct (Js.truthy interId) eqn:Hid; cbn [andb] in Hrun;
    [|by apply ret_inv in Hrun as [-> _]].
  destruct (0 <? interP)%float; cbn [andb] in Hrun;
    [|by apply ret_inv in Hrun as [-> _]].
  destruct (onV op x) eqn:HV; cbn [andb] in Hrun;
    [|by apply ret_inv in Hrun as [-> _]].
  destruct (onH op y) eqn:HH; cbn [andb] in Hrun;
    [|by apply ret_inv in Hrun as [-> _]].
  destruct (_ <? interP)%float; [|by apply ret_inv in Hrun as [-> _]].
  apply lift_inv in Hrun as [Hsetf _].
  destruct (grid_set_spec width height (fgGrid a) x y interId Hf Hx Hy)
    as (fg' & Hfg & Hwf & Hcf).
  unfold set_fg in Hsetf. cbn [bgGrid fgGrid] in Hsetf. rewrite Hfg in Hsetf.
  injection Hsetf as <-.
  destruct Hbstep as [[Hwb' _] Htb]. split; [done|].
  intros x' y' Hx' Hy'. destruct (Htb x' y' Hx' Hy') as [Hbc Hfc].
  split; [exact Hbc|]. cbn [fgGrid] in *. rewrite Hcf by done.
  destruct (x' =? x) eqn:Ex, (y' =? y) eqn:Ey; cbn [andb]; try exact Hfc.
  apply Z.eqb_eq in Ex as ->. apply Z.eqb_eq in Ey as ->. right. by rewrite HV, HH.
Qed.

Lemma roadsLoops_touched interP interSeed s g' s' :
  wf_grids width height g →
  for_range (Z.to_nat height) 0
    (λ y a, for_range (Z.to_nat width) 0
              (roadsCell reference width height layers perm op (roads_ox op)
                 (roads_spacing op) (roads_thickness op) interId interP interSeed y
                 (wrap y (roads_oy op) (roads_spacing op))) a) g s = Ok (g', s') →
  touched g'.
Proof.
  intros Hg Hrun.
  refine (proj2 (for_range_ind (λ _ a, wf_grids width height a ∧ touched a) _ _ _ _ _ _ _
                   _ _ Hrun)).
  - intros y a t a' t' Hy Ha Hrow.
    refine (for_range_ind (λ _ b, wf_grids width height b ∧ touched b) _ _ _ _ _ _ _
              _ Ha Hrow).
    intros x b u b' u' Hx [Hb Hbt] Hcell.
    apply (roadsCell_touched interP interSeed x y b u b' u' Hb Hbt); [lia|lia|exact Hcell].
  - split; [done|]. intros x y _ _. by split; left.
Qed.

End RoadsFrame.

(** A [roads.grid] op that runs to its end has a known background id and,
    whatever its gate predicate, origin, spacing and thickness, changes a
    background cell only on a road line and only to [op.bg], and a foreground
    cell only at a crossing of two road lines and only to the marker of
    [fgAtIntersections], which is then a known foreground id. *)
Theorem roads_writes_only_roads `{Host} (reference : string) (width height : Z)
    (bgIds fgIds : gset string) (layers : json) (perm : list Z)
    (op : json) (g : grids) (s : sampler) (g' : grids) (s' : sampler) :
  wf_grids width height g →
  roadsGrid reference width height bgIds fgIds layers perm op g s = Ok (g', s') →
  has_id bgIds (Js.get op "bg") = true
  ∧ ∀ x y, 0 ≤ x → 0 ≤ y →
      (cell_at (bgGrid g') x y = cell_at (bgGrid g) x y
       ∨ (onV op x || onH op y = true ∧ cell_at (bgGrid g') x y = Js.get op "bg"))
      ∧ (cell_at (fgGrid g') x y = cell_at (fgGrid g) x y
         ∨ (onV op x && onH op y = true
            ∧ Js.is_object (Js.get op "fgAtIntersections") = true
            ∧ cell_at (fgGrid g') x y = Js.get (Js.get op "fgAtIntersections") "id"
            ∧ has_id fgIds (cell_at (fgGrid g') x y) = true)).
Proof.
  intros Hg Hrun. unfold roadsGrid in Hrun.
  apply bind_inv in Hrun as (u & s1 & [Hbg ->]%lift_inv & Hrun).
  apply assert_inv in Hbg. split; [exact Hbg|].
  apply bind_inv in Hrun as ([[interId interP] interSeed] & s2 & Hinter & Hloop).
  pose proof (roadsLoops_touched reference width height layers perm op interId g
                interP interSeed s2 g' s' Hg Hloop) as Ht.
  intros x y Hx Hy. destruct (Ht x y Hx Hy) as [Hbc Hfc]. split; [exact Hbc|].
  destruct Hfc as [Hfc|(Hon & Htruthy & Hcell)]; [by left|right].
  split; [exact Hon|].
  destruct (Js.is_object (Js.get op "fgAtIntersections")) eqn:Hobj.
  - apply bind_inv in Hinter as (u' & s3 & [Hreq ->]%lift_inv & Hret).
    apply ret_inv in Hret as [[= -> _ _] _].
    split; [done|]. rewrite Hcell. unfold Js.coalesce in *.
    destruct (Js.nullish (Js.get (Js.get op "fgAtIntersections") "id")) eqn:Hn;
      [done|].
    split; [done|]. unfold requireFgOrNull in Hreq.
    destruct (Js.get (Js.get op "fgAtIntersections") "id"); try done;
      by apply assert_inv in Hreq.
  - apply ret_inv in Hinter as [[= -> _ _] _]. done.
Qed.

Definition crossOp : json :=
  JObj [("type", JStr "roads.grid"); ("bg", JStr "road"); ("spacing", JNum 4);
        ("thickness", JNum 1); ("origin", JList [JNum 1; JNum 2]);
        ("fgAtIntersections", JObj [("id", JStr "lamp"); ("p", JNum 1)])]%string.

Lemma roads_writes_only_roads_witness :
  let g := newGrids 12 12 (JStr "bg0") in
  match roadsGrid (H:=example_host) "seed" 12 12 {["bg0"; "road"]}%string {["lamp"]}%string
          (JObj []) [] crossOp g new_sampler with
  | Ok (g', _) =>
      cell_at (fgGrid g') 1 2 = JStr "lamp"%string
      ∧ (cell_at (fgGrid g') 3 3 = cell_at (fgGrid g) 3 3
         ∨ (onV crossOp 3 && onH crossOp 3 = true
            ∧ Js.is_object (Js.get crossOp "fgAtIntersections") = true
            ∧ cell_at (fgGrid g') 3 3 = Js.get (Js.get crossOp "fgAtIntersections") "id"
            ∧ has_id {["lamp"]}%string (cell_at (fgGrid g') 3 3) = true))
  | Throw _ => False
  end.
Proof.
  intros g.
  destruct (roadsGrid (H:=example_host) "seed" 12 12 {["bg0"; "road"]}%string
              {["lamp"]}%string (JObj []) [] crossOp g new_sampler)
    as [[g' s']|e] eqn:E; [|vm_compute in E; discriminate E].
  split.
  - vm_compute in E. injection E as <- _. reflexivity.
  - exact (proj2 (proj2 (roads_writes_only_roads (H:=example_host) "seed" 12 12
                     {["bg0"; "road"]}%string {["lamp"]}%string (JObj []) [] crossOp g
                     new_sampler g' s' (proj1 (conj (wf_newGrids 12 12 (JStr "bg0")) I)) E)
                   3 3 ltac:(lia) ltac:(lia))).
Defined.

(** ** The permutation table of the noise *)

Definition table_ok (p : list Z) : Prop :=
  length p = 512%nat ∧ Forall (λ v, 0 ≤ v < 256) p.

Lemma perm_get_range (p : list Z) (i : Z) :
  Forall (λ v, 0 ≤ v < 256) p → 0 ≤ Noise.perm_get p i < 256.
Proof.
  intros Hp. unfold Noise.perm_get. destruct (i <? 0); [lia|].
  destruct (p !! Z.to_nat i) as [v|] eqn:Hv; cbn [default]; [|lia].
  exact (proj1 (Forall_lookup _ p) Hp _ _ Hv).
Qed.

Lemma perm_set_ok (p : list Z) (i v : Z) :
  table_ok p → 0 ≤ v < 256 → table_ok (Noise.perm_set p i v).
Proof.
  intros [Hl Hp] Hv. unfold Noise.perm_set. destruct (i <? 0); [done|].
  split; [by rewrite length_insert|]. destruct (p !! Z.to_nat i) eqn:Hi.
  - by eapply Forall_insert.
  - rewrite list_insert_ge; [done|]. by apply lookup_ge_None.
Qed.

Lemma shuffle_ok (i : nat) : ∀ p h, table_ok p → table_ok (Noise.shuffle i p h).1.
Proof.
  induction i as [|i IH]; intros p h Hp; [done|].
  cbn [Noise.shuffle]. destruct (xfnv1a_next h) as [r h'].
  apply IH. apply perm_set_ok; [apply perm_set_ok; [done|]|];
    apply perm_get_range, Hp.
Qed.

(** The loop [for (i = a; i < a + n; i++) perm[i + 256] = perm[i]]. *)
Lemma copy_ok (n : nat) : ∀ (a : nat) (p : list Z),
  (a + n ≤ 256)%nat → table_ok p →
  (∀ k, (k < a)%nat → p !! (k + 256)%nat = p !! k) →
  let p' := fold_left (λ p i, Noise.perm_set p (Z.of_nat i + 256)
                               (Noise.perm_get p (Z.of_nat i))) (seq a n) p in
  table_ok p' ∧ ∀ k, (k < a + n)%nat → p' !! (k + 256)%nat = p' !! k.
Proof.
  induction n as [|n IH]; intros a p Ha Hp Hk.
  - cbn [seq fold_left]. split; [done|]. intros k Hlt. apply Hk. lia.
  - cbn [seq fold_left].
    set (q := Noise.perm_set p (Z.of_nat a + 256) (Noise.perm_get p (Z.of_nat a))).
    assert (Hq : table_ok q) by (apply perm_set_ok; [done|apply perm_get_range, Hp]).
    assert (Hqk : ∀ k, (k < S a)%nat → q !! (k + 256)%nat = q !! k).
    { intros k Hlt. unfold q, Noise.perm_set, Noise.perm_get.
      replace (Z.of_nat a + 256 <? 0) with false by lia.
      replace (Z.of_nat a <? 0) with false by lia.
      replace (Z.to_nat (Z.of_nat a + 256)) with (a + 256)%nat by lia.
      rewrite Nat2Z.id.
      rewrite (list_lookup_insert_ne p (a + 256) k) by lia.
      destruct (decide (k = a)) as [->|Hne].
      - destruct (lookup_lt_is_Some_2 p a) as [v Hv]; [destruct Hp; lia|].
        rewrite Hv. cbn [default]. rewrite list_lookup_insert_eq; [done|].
        destruct Hp; lia.
      - rewrite list_lookup_insert_ne by lia. apply Hk. lia. }
    destruct (IH (S a) q ltac:(lia) Hq Hqk) as [Hp' Hk']. split; [exact Hp'|].
    intros k Hlt. apply Hk'. lia.
Qed.

(** Whatever the state of the generator, the table that [makeValueNoise2D]
    builds has 512 entries, each from 0 to 255, its second half repeats its
    first, and every index that [grad] computes lies inside it. *)
Lemma makeValueNoise2D_eq (h : Z) (p0 : list Z) :
  p0 = map Z.of_nat (seq 0 256) ++ replicate 256 0 →
  Noise.makeValueNoise2D h
  = fold_left (λ p i, Noise.perm_set p (Z.of_nat i + 256) (Noise.perm_get p (Z.of_nat i)))
      (seq 0 256) (Noise.shuffle 255 p0 h).1.
Proof. intros ->. reflexivity. Qed.

Theorem makeValueNoise2D_table (h : Z) :
  length (Noise.makeValueNoise2D h) = 512%nat
  ∧ (∀ i, 0 ≤ Noise.perm_get (Noise.makeValueNoise2D h) i < 256)
  ∧ (∀ i, 0 ≤ i < 256 →
       Noise.perm_get (Noise.makeValueNoise2D h) (i + 256)
       = Noise.perm_get (Noise.makeValueNoise2D h) i)
  ∧ ∀ n : float, is_Some (Noise.makeValueNoise2D h !! Z.to_nat (Noise.and255 n)).
Proof.
  rewrite (makeValueNoise2D_eq h _ eq_refl).
  assert (Hinit : table_ok (map Z.of_nat (seq 0 256) ++ replicate 256 0)).
  { split.
    - rewrite length_app, length_map, length_seq, length_replicate. reflexivity.
    - apply Forall_app. split.
      + apply List.Forall_forall. intros v (k & <- & Hk%in_seq)%in_map_iff. lia.
      + apply Forall_replicate. lia. }
  revert Hinit. generalize (map Z.of_nat (seq 0 256) ++ replicate 256 0).
  intros p0 Hinit. apply (shuffle_ok 255 p0 h) in Hinit.
  assert (Hle : (0 + 256 ≤ 256)%nat) by reflexivity.
  assert (Hnone : ∀ k, (k < 0)%nat → (Noise.shuffle 255 p0 h).1 !! (k + 256)%nat
                                     = (Noise.shuffle 255 p0 h).1 !! k) by (intros k Hk; lia).
  destruct (copy_ok 256 0 _ Hle Hinit Hnone) as [[Hl Hp] Hcopy].
  change (0 + 256)%nat with 256%nat in Hcopy.
  split; [exact Hl|]. split; [intros i; apply perm_get_range, Hp|]. split.
  - intros i Hi. unfold Noise.perm_get.
    replace (i + 256 <? 0) with false by lia. replace (i <? 0) with false by lia.
    replace (Z.to_nat (i + 256)) with (Z.to_nat i + 256)%nat by lia.
    rewrite Hcopy by lia. done.
  - intros n. apply lookup_lt_is_Some_2. rewrite Hl. unfold Noise.and255.
    pose proof (Z.mod_pos_bound (Num.truncZ n) 256 ltac:(lia)). lia.
Qed.
